(** * rincity-throwback-posts: eligibility, selection and history tracking

    A shallow embedding of [rin_throwback_post.py] (and of the eligibility
    function of its predecessor [rin_throwback_tweet.py]) together with the
    properties of the eligibility engine, the selector, the tag-fitting
    helper, the atomic history write and the run orchestrator. *)

From Stdlib Require Import ZArith NArith List Ascii String DecimalString Lia
  Sorted.
From stdpp Require Import base tactics option list gmap strings.

(** ** Python strings

    A Python [str] is a sequence of Unicode code points; [len] counts code
    points, so a string is modelled as the list of its code points. *)

Definition char := N.
Definition str := list char.

(** An ASCII literal as a Python string. *)
Definition lit (x : string) : str := N_of_ascii <$> list_ascii_of_string x.
Arguments lit x : simpl never.

(** [str.isspace] on one code point: the white space that [str.strip()] and
    [str.split()] without arguments remove. *)
Definition isspace (c : char) : bool :=
  (((9 <=? c) && (c <=? 13)) || ((28 <=? c) && (c <=? 32))
   || (c =? 133) || (c =? 160) || (c =? 5760)
   || ((8192 <=? c) && (c <=? 8202))
   || (c =? 8232) || (c =? 8233) || (c =? 8239) || (c =? 8287)
   || (c =? 12288))%N.

Fixpoint lstrip (s : str) : str :=
  match s with
  | [] => []
  | c :: s' => if isspace c then lstrip s' else s
  end.

Definition rstrip (s : str) : str := rev (lstrip (rev s)).

(** [s.strip()] *)
Definition strip (s : str) : str := rstrip (lstrip s).

(** [s.split()]: the maximal runs of non-space code points, in order.  [cur]
    is the run being read, most recent code point first. *)
Fixpoint split_from (cur : str) (s : str) : list str :=
  match s with
  | [] => match cur with [] => [] | _ => [rev cur] end
  | c :: s' =>
      if isspace c
      then match cur with
           | [] => split_from [] s'
           | _ => rev cur :: split_from [] s'
           end
      else split_from (c :: cur) s'
  end.

Definition split (s : str) : list str := split_from [] s.

(** [sep.join(parts)] *)
Fixpoint join (sep : str) (parts : list str) : str :=
  match parts with
  | [] => []
  | [p] => p
  | p :: rest => p ++ sep ++ join sep rest
  end.

(** [s.startswith(c)] for a one-character prefix. *)
Definition startswith (c : char) (s : str) : bool :=
  match s with
  | c' :: _ => (c' =? c)%N
  | [] => false
  end.

(** [len(s)] as a Python integer. *)
Definition len (s : str) : Z := Z.of_nat (length s).

Definition hash_sign : char := 35%N.
Definition newline : char := 10%N.
Definition space : str := [32%N].

(** ** Exceptions and results *)

Inductive exn :=
  | AttributeError | TypeError | ValueError | IndexError | OSError.

Inductive result (A : Type) :=
  | Ok (a : A)
  | Raise (e : exn).
Arguments Ok {A} a.
Arguments Raise {A} e.

#[global] Instance result_ret : MRet result := λ A a, Ok a.
#[global] Instance result_bind : MBind result := λ A B f m,
  match m with
  | Ok a => f a
  | Raise e => Raise e
  end.

(** ** JSON values, as [json.load] returns them

    A dictionary is the list of its items in insertion order, with distinct
    keys.  Numbers are integers: wherever the scripts look at a value they
    test its truth or use it as a string, and a float behaves there as an
    integer does. *)

#[local] Set Warnings "-register-all".

Inductive json :=
  | JNull
  | JBool (b : bool)
  | JInt (z : Z)
  | JStr (s : str)
  | JList (l : list json)
  | JDict (d : list (str * json)).

(** Python truthiness, as used by [or], [not] and [if]. *)
Definition truthy (v : json) : bool :=
  match v with
  | JNull => false
  | JBool b => b
  | JInt z => negb (z =? 0)%Z
  | JStr s => match s with [] => false | _ => true end
  | JList l => match l with [] => false | _ => true end
  | JDict d => match d with [] => false | _ => true end
  end.

(** [a or b] on values whose evaluation has no effect. *)
Definition py_or (a b : json) : json := if truthy a then a else b.

Fixpoint dict_lookup (k : str) (d : list (str * json)) : option json :=
  match d with
  | [] => None
  | (k', v) :: d' => if decide (k' = k) then Some v else dict_lookup k d'
  end.

(** [v.get(k)]: [None] for a missing key, [AttributeError] when [v] is not a
    dictionary. *)
Definition py_get (v : json) (k : str) : result json :=
  match v with
  | JDict d => Ok (default JNull (dict_lookup k d))
  | _ => Raise AttributeError
  end.

(** [v.strip()]: only strings have the method. *)
Definition method_strip (v : json) : result str :=
  match v with
  | JStr s => Ok (strip s)
  | _ => Raise AttributeError
  end.

Definition k_set_url : str := lit "set_url".
Definition k_set_name : str := lit "set_name".
Definition k_posted_at : str := lit "posted_at".
Definition k_tweeted_at : str := lit "tweeted_at".
Definition k_filename : str := lit "filename".
Definition k_date_published : str := lit "date_published".
Definition k_tags : str := lit "tags".

(** ** Dates and times

    A [datetime.datetime] value: the proleptic Gregorian ordinal of its date
    ([date.toordinal()]), the microseconds elapsed since midnight, and, for
    an aware value, its UTC offset in microseconds. *)

Record datetime := {
  dt_ordinal : Z;
  dt_micro : Z;
  dt_offset : option Z
}.

Definition day_micros : Z := 86400000000.

(** The instant of an aware value, in microseconds. *)
Definition utc_micros (t : datetime) (off : Z) : Z :=
  dt_ordinal t * day_micros + dt_micro t - off.

(** [a > b]: naive values compare by date and time, aware values by
    instant; mixing the two raises [TypeError]. *)
Definition dt_gt (a b : datetime) : result bool :=
  match dt_offset a, dt_offset b with
  | None, None =>
      Ok ((dt_ordinal b <? dt_ordinal a)
          || ((dt_ordinal b =? dt_ordinal a) && (dt_micro b <? dt_micro a)))%Z
  | Some oa, Some ob => Ok (utc_micros b ob <? utc_micros a oa)%Z
  | _, _ => Raise TypeError
  end.

(** [(now.date() - ts.date()).days] *)
Definition _days_ago (ts now : datetime) : Z := dt_ordinal now - dt_ordinal ts.

(** ** The Python runtime

    The library functions the scripts call and whose code is not theirs:
    every property below holds whatever these functions compute. *)

(** The variables a template is rendered with ([template_context]); the
    [fit_tags] entry is always [_fit_tags]. *)
Record context := {
  ctx_set_name : str;
  ctx_set_url : str;
  ctx_date_published_iso : str;
  ctx_published : str;
  ctx_tags : str;
  ctx_max_len : Z
}.

(** What a collaborator call gives back: a value, or an exception with its
    message. *)
Inductive outcome (A : Type) :=
  | Done (a : A)
  | Fails (msg : str).
Arguments Done {A} a.
Arguments Fails {A} msg.

Class Runtime := {
  (** [datetime.fromisoformat]; [None] when it raises [ValueError] *)
  fromisoformat : str → option datetime;
  (** [datetime.isoformat] *)
  isoformat : datetime → str;
  (** [date.strftime("%b %d, %Y")], from the ordinal of the date *)
  strftime_b_d_Y : Z → str;
  (** [html.unescape] and [str.casefold] *)
  html_unescape : str → str;
  casefold : str → str;
  (** what [str(v)] and an f-string give for a value that is not a string *)
  py_repr : json → str;
  (** [json.dumps(v, ensure_ascii=False, indent=2)] and [json.loads];
      [None] when the text is not JSON *)
  json_dumps : json → str;
  json_loads : str → option json;
  (** [pathlib]: [Path(s)] as its [str], [a / b] and [p.parent] *)
  Path : str → str;
  path_join : str → str → str;
  path_parent : str → str;
  (** [random.Random(seed)] and the first [_randbelow(n)] of a generator *)
  rng : Type;
  seed_rng : str → rng;
  randbelow : rng → nat → nat;
  (** whether [import jinja2] succeeded, and the rendering of a template
      text with [autoescape=False, keep_trailing_newline=True] *)
  jinja2_installed : bool;
  jinja_render : str → context → outcome str
}.

(** ** Eligibility engine *)

Section Eligibility.
Context `{Runtime}.

(** [dt.datetime.fromisoformat(ts)] under [except Exception]: a value that
    is not a string raises [TypeError], which is caught like
    [ValueError]. *)
Definition parse_timestamp (ts : json) : option datetime :=
  match ts with
  | JStr s => fromisoformat s
  | _ => None
  end.

(** [(h.get("set_url") or h.get("set_name") or "").strip()] *)
Definition history_key (h : json) : result str :=
  u ← py_get h k_set_url;
  n ← py_get h k_set_name;
  method_strip (py_or (py_or u n) (JStr [])).

(** The body of the history loop once [key] and [ts] are computed. *)
Definition index_update (last : gmap str datetime) (key : str) (ts : json)
  : result (gmap str datetime) :=
  if negb (truthy (JStr key)) || negb (truthy ts) then Ok last
  else match parse_timestamp ts with
       | None => Ok last
       | Some when =>
           match last !! key with
           | None => Ok (<[key := when]> last)
           | Some old =>
               newer ← dt_gt when old;
               Ok (if newer : bool then <[key := when]> last else last)
           end
       end.

(** The history loop, for a script that reads a record's timestamp with
    [timestamp_of]. *)
Fixpoint index_from (timestamp_of : json → result json)
    (last : gmap str datetime) (history : list json)
  : result (gmap str datetime) :=
  match history with
  | [] => Ok last
  | h :: history' =>
      key ← history_key h;
      ts ← timestamp_of h;
      last' ← index_update last key ts;
      index_from timestamp_of last' history'
  end.

(** The identity key of a manifest entry: [set_url or set_name] after
    stripping both. *)
Definition entry_key (e : json) : result str :=
  u ← py_get e k_set_url;
  set_url ← method_strip (py_or u (JStr []));
  n ← py_get e k_set_name;
  set_name ← method_strip (py_or n (JStr []));
  Ok (match set_url with [] => set_name | _ => set_url end).

(** Whether the manifest loop appends [e]. *)
Definition keeps (last : gmap str datetime) (threshold_days : Z)
    (now : datetime) (e : json) : result bool :=
  key ← entry_key e;
  match key with
  | [] => Ok false
  | _ =>
      match last !! key with
      | None => Ok true
      | Some when => Ok (threshold_days <=? _days_ago when now)%Z
      end
  end.

Fixpoint eligible_from (last : gmap str datetime) (threshold_days : Z)
    (now : datetime) (manifest : list json) : result (list json) :=
  match manifest with
  | [] => Ok []
  | e :: manifest' =>
      keep ← keeps last threshold_days now e;
      eligible ← eligible_from last threshold_days now manifest';
      Ok (if keep : bool then e :: eligible else eligible)
  end.

(** [ts = h.get("posted_at") or h.get("tweeted_at")] *)
Definition timestamp_of (h : json) : result json :=
  p ← py_get h k_posted_at;
  t ← py_get h k_tweeted_at;
  Ok (py_or p t).

Definition _eligible_entries (manifest history : list json)
    (threshold_days : Z) (now : datetime) : result (list json) :=
  last ← index_from timestamp_of ∅ history;
  eligible_from last threshold_days now manifest.
End Eligibility.

(** The eligibility function of [rin_throwback_tweet.py]: the same loops,
  reading the timestamp from [tweeted_at] alone. *)
Module Tweet.
Section Eligibility.
Context `{Runtime}.

(** [ts = h.get("tweeted_at")] *)
Definition timestamp_of (h : json) : result json :=
  py_get h k_tweeted_at.

Definition _eligible_entries (manifest history : list json)
    (threshold_days : Z) (now : datetime) : result (list json) :=
  last ← index_from timestamp_of ∅ history;
  eligible_from last threshold_days now manifest.
End Eligibility.
End Tweet.

(** ** Text helpers *)

Definition two_newlines : str := [newline; newline].

(** The loop of [_fit_tags]: [kept] grows by whole tags while the text still
    fits, and the first tag that does not fit ends the loop. *)
Fixpoint fit_loop (base : str) (max_len : Z) (kept tag_list : list str)
  : list str :=
  match tag_list with
  | [] => kept
  | t :: tag_list' =>
      let next_len := len (base ++ two_newlines ++ join space (kept ++ [t])) in
      if (next_len <=? max_len)%Z
      then fit_loop base max_len (kept ++ [t]) tag_list'
      else kept
  end.

Definition _fit_tags (base tags : str) (max_len : Z) : str :=
  let tags := strip tags in
  match tags with
  | [] => []
  | _ =>
      let candidate := base ++ two_newlines ++ tags in
      if (len candidate <=? max_len)%Z then tags
      else
        let tag_list := List.filter (startswith hash_sign) (split tags) in
        join space (fit_loop base max_len [] tag_list)
  end.

(** [s.replace(a, b)] for one-character [a] and [b]. *)
Definition replace_char (a b : char) (s : str) : str :=
  (λ c, if (c =? a)%N then b else c) <$> s.
Arguments replace_char (a b)%_N s.

(** [s.replace(a, "")] for a one-character [a]. *)
Definition remove_char (a : char) (s : str) : str :=
  List.filter (λ c, negb (c =? a)%N) s.
Arguments remove_char a%_N s.

Definition _normalize_quotes (text : str) : str :=
  replace_char 96 39
    (replace_char 8218 39
      (replace_char 8216 39
        (replace_char 8217 39
          (replace_char 187 34
            (replace_char 171 34
              (replace_char 8222 34
                (replace_char 8221 34
                  (replace_char 8220 34 text)))))))).

(** [s.split(sep)] for a one-character separator: empty pieces are kept. *)
Fixpoint split_on (sep : char) (s : str) : list str :=
  match s with
  | [] => [[]]
  | c :: s' =>
      if (c =? sep)%N then [] :: split_on sep s'
      else match split_on sep s' with
           | piece :: pieces => (c :: piece) :: pieces
           | [] => [[c]]
           end
  end.

Arguments split_on sep%_N s.

Fixpoint has_prefix (prefix s : str) : bool :=
  match prefix, s with
  | [], _ => true
  | a :: prefix', b :: s' => (a =? b)%N && has_prefix prefix' s'
  | _ :: _, [] => false
  end.

Definition _bluesky_web_url_from_at_uri (at_uri profile_ref : str)
  : option str :=
  let prefix := lit "at://" in
  if negb (has_prefix prefix at_uri) then None
  else
    let remainder := drop (length prefix) at_uri in
    match split_on 47 remainder with
    | [_; collection; rkey] =>
        if negb (bool_decide (collection = lit "app.bsky.feed.post"))
           || match rkey with [] => true | _ => false end
        then None
        else Some (lit "https://bsky.app/profile/" ++ profile_ref
                   ++ lit "/post/" ++ rkey)
    | _ => None
    end.

(** An integer as an f-string prints it. *)
Definition str_of_Z (z : Z) : str := lit (NilZero.string_of_int (Z.to_int z)).

Section Text.
Context `{Runtime}.

(** [str(v)] *)
Definition py_str (v : json) : str :=
  match v with
  | JStr s => s
  | _ => py_repr v
  end.

Definition _normalized_set_name_for_match (name : str) : str :=
  casefold (_normalize_quotes (html_unescape (strip name))).

(** [_fmt_publish_date]: [ValueError] for a date that does not parse. *)
Definition _fmt_publish_date (iso : str) : result str :=
  match fromisoformat iso with
  | Some d => Ok (strftime_b_d_Y (dt_ordinal d))
  | None => Raise ValueError
  end.

(** [_render_post_text], reading the template in the files [files]. *)
Definition _render_post_text (files : gmap str str) (template_path : str)
    (ctx : context) (max_len : Z) : outcome str :=
  if negb jinja2_installed
  then Fails (lit "jinja2 is not installed. Run: pip install jinja2")
  else match files !! template_path with
       | None => Fails (lit "Template file not found: " ++ template_path)
       | Some text =>
           match jinja_render text ctx with
           | Fails msg => Fails msg
           | Done out =>
               let rendered := strip out in
               if (max_len <? len rendered)%Z
               then Done (take (Z.to_nat max_len) rendered)
               else Done rendered
           end
       end.

Definition _render_template_text (files : gmap str str) (template_path : str)
    (ctx : context) (max_len : Z) : outcome str :=
  _render_post_text files template_path ctx max_len.
End Text.

(** ** Files and runs

    The regular files of the file system, by path; directories are not
    tracked, so [mkdir] leaves the files as they are.  Writing a file is
    opening it for writing, which empties it, then appending; renaming is
    one operation, done or not done. *)

Inductive fs_op :=
  | Mkdir (dir : str)
  | OpenW (p : str)
  | Write (p : str) (text : str)
  | Replace (src dst : str).

(** The files after an operation; [None] when the operation raises
    ([Replace] of a file that does not exist). *)
Definition apply_op (op : fs_op) (files : gmap str str)
  : option (gmap str str) :=
  match op with
  | Mkdir _ => Some files
  | OpenW p => Some (<[p := []]> files)
  | Write p text => Some (<[p := default [] (files !! p) ++ text]> files)
  | Replace src dst =>
      match files !! src with
      | Some content => Some (<[dst := content]> (delete src files))
      | None => None
      end
  end.

(** What a run does that the outside sees: a line printed, a file
    operation, or a step of a platform adapter being entered (credentials
    and session, image preparation and upload, creation of the post with
    its text). *)
Inductive event :=
  | Stdout (line : str)
  | Stderr (line : str)
  | Fs (op : fs_op)
  | TwitterInit
  | TwitterMedia
  | TwitterCreate (text : str)
  | BlueskyLogin
  | BlueskyMedia
  | BlueskyCreate (text : str).

(** The state a run threads: the files, what the run did so far (oldest
    first), and, when the process is going to be killed, the number of file
    operations it still completes. *)
Record state := {
  st_files : gmap str str;
  st_trace : list event;
  st_kill : option nat
}.

(** How a piece of [main] ends: it goes on with a value, [main] returns an
    exit status, an exception escapes, or the process is killed. *)
Inductive step (A : Type) :=
  | Next (a : A)
  | Exit (code : Z)
  | Uncaught (e : exn)
  | Killed.
Arguments Next {A} a.
Arguments Exit {A} code.
Arguments Uncaught {A} e.
Arguments Killed {A}.

Definition run (A : Type) : Type := state → step A * state.

#[global] Instance run_ret : MRet run := λ A a st, (Next a, st).
#[global] Instance run_bind : MBind run := λ A B f m st,
  match m st with
  | (Next a, st') => f a st'
  | (Exit code, st') => (Exit code, st')
  | (Uncaught e, st') => (Uncaught e, st')
  | (Killed, st') => (Killed, st')
  end.

Definition exit {A} (code : Z) : run A := λ st, (Exit code, st).

Definition lift {A} (r : result A) : run A := λ st,
  match r with
  | Ok a => (Next a, st)
  | Raise e => (Uncaught e, st)
  end.

Definition emit (e : event) : run unit := λ st,
  (Next tt, {| st_files := st_files st;
               st_trace := st_trace st ++ [e];
               st_kill := st_kill st |}).

Definition print (line : str) : run unit := emit (Stdout line).
Definition eprint (line : str) : run unit := emit (Stderr line).

Definition files : run (gmap str str) := λ st, (Next (st_files st), st).

(** One file operation: not done at all when the process is killed first. *)
Definition fs (op : fs_op) : run unit := λ st,
  match st_kill st with
  | Some O => (Killed, st)
  | budget =>
      match apply_op op (st_files st) with
      | None => (Uncaught OSError, st)
      | Some files' =>
          (Next tt, {| st_files := files';
                       st_trace := st_trace st ++ [Fs op];
                       st_kill := pred <$> budget |})
      end
  end.

Definition file_exists (fls : gmap str str) (p : str) : bool :=
  match fls !! p with
  | Some _ => true
  | None => false
  end.

(** [p.name]: the last component of a path, empty for the current
    directory and for a root. *)
Definition path_name (p : str) : str :=
  if bool_decide (p = lit ".") then []
  else default [] (last (split_on 47 p)).

(** [path.with_suffix(path.suffix + ".tmp")]: the suffix of the name is
    replaced by itself followed by [.tmp], so [.tmp] is appended to the
    path; a path without a name raises [ValueError]. *)
Definition with_tmp_suffix (p : str) : result str :=
  match path_name p with
  | [] => Raise ValueError
  | _ => Ok (p ++ lit ".tmp")
  end.

(** The command line, as [argparse] returns it. *)
Inductive platform := Twitter | Bluesky | Both.

Record args := {
  a_manifest : str;
  a_images_dir : str;
  a_auth : str;
  a_twitter_auth : option str;
  a_bluesky_auth : str;
  a_history : str;
  a_threshold_days : Z;
  a_set_name : option str;
  a_seed : option str;
  a_template : str;
  a_bluesky_template : str;
  a_max_image_mb : Z;
  a_platform : platform;
  a_dry_run : bool;
  a_record_dry_run : bool
}.

(** The fields of the chosen entry, after stripping and normalisation. *)
Record fields := {
  f_filename : str;
  f_set_name : str;
  f_set_url : str;
  f_date_published : str;
  f_tags : str
}.

(** [not l], for a string or a list. *)
Definition is_empty {A} (l : list A) : bool :=
  match l with
  | [] => true
  | _ => false
  end.

Section Run.
Context `{Runtime}.

(** What the world answers during one run: the clock, the entropy an
    unseeded generator starts from, and the outcome of each call to a
    platform (a call is made at most once per run). *)
Record world := {
  w_now : datetime;
  w_entropy : rng;
  (** [_load_auth] and [_twitter_clients] *)
  w_twitter_init : outcome unit;
  (** [_prepare_image_for_upload] and [media_upload] *)
  w_twitter_media : outcome unit;
  (** [create_tweet], then the identifier read from the response *)
  w_twitter_create : outcome json;
  (** [_load_bluesky_auth] and [_bluesky_login], then
      [str(handle or did)] *)
  w_bluesky_login : outcome str;
  (** [_prepare_image_for_upload] and [_bluesky_upload_blob] *)
  w_bluesky_media : outcome unit;
  (** [_bluesky_create_post], the dictionary it returns *)
  w_bluesky_create : outcome (list (str * json))
}.

Definition _load_json (path : str) : run json :=
  fls ← files;
  match fls !! path with
  | None => lift (Raise OSError)
  | Some text =>
      match json_loads text with
      | Some v => mret v
      | None => lift (Raise ValueError)
      end
  end.

Definition _save_json (path : str) (data : json) : run unit :=
  fs (Mkdir (path_parent path));;
  tmp ← lift (with_tmp_suffix path);
  fs (OpenW tmp);;
  fs (Write tmp (json_dumps data));;
  fs (Write tmp [newline]);;
  fs (Replace tmp path).

Definition _load_history (history_path : str) : run (list json) :=
  fls ← files;
  if negb (file_exists fls history_path) then mret []
  else
    data ← _load_json history_path;
    mret (match data with JList l => l | _ => [] end).

(** Lines 478 to 484: the history file, or the legacy one when the default
    is asked for and missing. *)
Definition resolve_history_path (a : args) (fls : gmap str str) : str :=
  let history_path := Path (a_history a) in
  if bool_decide (a_history a = lit "post_history.json")
     && negb (file_exists fls history_path)
  then
    let legacy_history := Path (lit "tweet_history.json") in
    if file_exists fls legacy_history then legacy_history else history_path
  else history_path.

(** Lines 479 to 490: the template, or the first legacy one that exists. *)
Definition resolve_template_path (a : args) (fls : gmap str str) : str :=
  let template_path := Path (a_template a) in
  if bool_decide (a_template a = lit "twitter_template.j2")
     && negb (file_exists fls template_path)
  then
    if file_exists fls (Path (lit "post_template.j2"))
    then Path (lit "post_template.j2")
    else if file_exists fls (Path (lit "tweet_template.j2"))
    then Path (lit "tweet_template.j2")
    else template_path
  else template_path.

(** The entries whose normalised [set_name] is [target], in manifest
    order. *)
Fixpoint matching (target : str) (manifest : list json) : result (list json) :=
  match manifest with
  | [] => Ok []
  | e :: manifest' =>
      n ← py_get e k_set_name;
      matches ← matching target manifest';
      Ok (if bool_decide
               (_normalized_set_name_for_match (py_str (py_or n (JStr [])))
                = target)
          then e :: matches else matches)
  end.

(** [rng.choice(seq)]: [seq[rng._randbelow(len(seq))]] *)
Definition choice (g : rng) (seq : list json) : result json :=
  match seq !! randbelow g (length seq) with
  | Some x => Ok x
  | None => Raise IndexError
  end.

(** Lines 504 to 519: the generator and the chosen entry. *)
Definition choose (a : args) (w : world) (manifest history : list json)
  : run json :=
  let g := match a_seed a with
           | Some seed => seed_rng seed
           | None => w_entropy w
           end in
  match a_set_name a with
  | Some (c :: name') =>
      let name := c :: name' in
      let target := _normalized_set_name_for_match name in
      matches ← lift (matching target manifest);
      match matches with
      | [] =>
          eprint (lit "ERROR: no manifest entry found for set_name: "
                  ++ name);;
          exit 3
      | chosen :: more =>
          (if is_empty more then mret tt
           else print (lit "WARNING: multiple manifest entries matched "
                       ++ lit "set_name; using first match: " ++ name));;
          mret chosen
      end
  | _ =>
      eligible ← lift (_eligible_entries manifest history
                         (a_threshold_days a) (w_now w));
      match eligible with
      | [] =>
          eprint (lit "No eligible sets found (threshold_days="
                  ++ str_of_Z (a_threshold_days a) ++ lit ").");;
          exit 3
      | _ => lift (choice g eligible)
      end
  end.

(** [(chosen.get(k) or "").strip()] *)
Definition field (chosen : json) (k : str) : result str :=
  v ← py_get chosen k;
  method_strip (py_or v (JStr [])).

(** Lines 521 to 528. *)
Definition chosen_fields (chosen : json) : result fields :=
  filename ← field chosen k_filename;
  set_name ← field chosen k_set_name;
  set_url ← field chosen k_set_url;
  date_published ← field chosen k_date_published;
  tags ← field chosen k_tags;
  Ok {| f_filename := filename;
        f_set_name := _normalize_quotes (html_unescape set_name);
        f_set_url := set_url;
        f_date_published := date_published;
        f_tags := if is_empty tags then tags else remove_char 45 tags |}.

Definition template_context (f : fields) (published : str) (max_len : Z)
  : context :=
  {| ctx_set_name := f_set_name f;
     ctx_set_url := f_set_url f;
     ctx_date_published_iso := f_date_published f;
     ctx_published := published;
     ctx_tags := f_tags f;
     ctx_max_len := max_len |}.

(** The truthiness of a string that may be [None]. *)
Definition some_text (o : option str) : bool :=
  match o with
  | Some (_ :: _) => true
  | _ => false
  end.

Definition json_of_option (o : option str) : json :=
  match o with
  | Some s => JStr s
  | None => JNull
  end.

(** The record of a recorded dry run (lines 562 to 568). *)
Definition dry_run_record (now : datetime) (f : fields) : json :=
  JDict [(lit "twitter_post_id", JNull);
         (k_posted_at, JStr (isoformat now));
         (k_filename, JStr (f_filename f));
         (k_set_name, JStr (f_set_name f));
         (k_set_url, JStr (f_set_url f))].

(** The record of a real post (lines 653 to 661). *)
Definition post_record (now : datetime) (f : fields) (twitter_post_id : json)
    (bluesky_uri bluesky_url : option str) : json :=
  JDict [(lit "twitter_post_id",
          if truthy twitter_post_id then JStr (py_str twitter_post_id)
          else JNull);
         (lit "bluesky_uri", json_of_option bluesky_uri);
         (lit "bluesky_url", json_of_option bluesky_url);
         (k_posted_at, JStr (isoformat now));
         (k_filename, JStr (f_filename f));
         (k_set_name, JStr (f_set_name f));
         (k_set_url, JStr (f_set_url f))].

(** Lines 584 to 613: the Twitter adapter; its value is
    [twitter_post_id]. *)
Definition post_to_twitter (w : world) (twitter_auth_path post_text : str)
  : run json :=
  fls ← files;
  if negb (file_exists fls twitter_auth_path)
  then
    eprint (lit "ERROR: Twitter auth file not found: " ++ twitter_auth_path);;
    exit 6
  else
    emit TwitterInit;;
    match w_twitter_init w with
    | Fails e =>
        eprint (lit "ERROR: Twitter auth/init failed: " ++ e);; exit 6
    | Done _ =>
        emit TwitterMedia;;
        match w_twitter_media w with
        | Fails e =>
            eprint (lit "ERROR: Twitter media upload failed: " ++ e);; exit 7
        | Done _ =>
            emit (TwitterCreate post_text);;
            match w_twitter_create w with
            | Fails e =>
                eprint (lit "ERROR: Twitter post create failed: " ++ e);;
                exit 8
            | Done twitter_post_id => mret twitter_post_id
            end
        end
    end.

(** The body of the [try] of the Bluesky adapter (lines 622 to 645); its
    value is [(bluesky_uri, bluesky_url)], or the message of the exception
    that ends it. *)
Definition bluesky_try (w : world) (f : fields) (published : str)
    (template_path bluesky_template_path : str)
  : run (outcome (option str * option str)) :=
  fls ← files;
  let bsky_template_to_use :=
    if file_exists fls bluesky_template_path then bluesky_template_path
    else template_path in
  match _render_template_text fls bsky_template_to_use
          (template_context f published 300) 300 with
  | Fails e => mret (Fails e)
  | Done bluesky_text =>
      emit BlueskyLogin;;
      match w_bluesky_login w with
      | Fails e => mret (Fails e)
      | Done profile_ref =>
          emit BlueskyMedia;;
          match w_bluesky_media w with
          | Fails e => mret (Fails e)
          | Done _ =>
              emit (BlueskyCreate bluesky_text);;
              match w_bluesky_create w with
              | Fails e => mret (Fails e)
              | Done post =>
                  let uri := default JNull (dict_lookup (lit "uri") post) in
                  if truthy uri
                  then mret (Done (Some (py_str uri),
                                   _bluesky_web_url_from_at_uri (py_str uri)
                                     profile_ref))
                  else mret (Done (None, None))
              end
          end
      end
  end.

(** Lines 615 to 651: the Bluesky adapter. *)
Definition post_to_bluesky (w : world) (f : fields) (published : str)
    (bluesky_auth_path template_path bluesky_template_path : str)
  : run (option str * option str) :=
  fls ← files;
  if negb (file_exists fls bluesky_auth_path)
  then
    eprint (lit "ERROR: Bluesky auth file not found: " ++ bluesky_auth_path);;
    exit 10
  else
    r ← bluesky_try w f published template_path bluesky_template_path;
    match r with
    | Fails e => eprint (lit "ERROR: Bluesky post failed: " ++ e);; exit 11
    | Done ids => mret ids
    end.

(** What lines 474 to 555 leave to the rest of [main]. *)
Record plan := {
  p_history : list json;
  p_history_path : str;
  p_template_path : str;
  p_fields : fields;
  p_published : str;
  p_image_path : str;
  p_post_text : str
}.

(** Lines 474 to 555: the inputs, the chosen entry and the text of the
    post. *)
Definition prepare (a : args) (w : world) : run plan :=
  let manifest_path := Path (a_manifest a) in
  let images_dir := Path (a_images_dir a) in
  fls ← files;
  let history_path := resolve_history_path a fls in
  let template_path := resolve_template_path a fls in
  if negb (file_exists fls manifest_path)
  then eprint (lit "ERROR: manifest not found: " ++ manifest_path);; exit 2
  else
    manifest ← _load_json manifest_path;
    match manifest with
    | JList manifest =>
        history ← _load_history history_path;
        chosen ← choose a w manifest history;
        f ← lift (chosen_fields chosen);
        if is_empty (f_filename f) || is_empty (f_set_name f)
           || is_empty (f_set_url f) || is_empty (f_date_published f)
        then
          eprint (lit "ERROR: chosen entry missing required fields: "
                  ++ py_repr chosen);;
          exit 4
        else
          print (lit "Selected set: " ++ f_set_url f);;
          let image_path := path_join images_dir (f_filename f) in
          if negb (file_exists fls image_path)
          then
            eprint (lit "ERROR: image file not found: " ++ image_path);;
            exit 5
          else
            published ← lift (_fmt_publish_date (f_date_published f));
            match _render_template_text fls template_path
                    (template_context f published 280) 280 with
            | Fails e =>
                eprint (lit "ERROR: template render failed: " ++ e);; exit 9
            | Done post_text =>
                mret {| p_history := history;
                        p_history_path := history_path;
                        p_template_path := template_path;
                        p_fields := f;
                        p_published := published;
                        p_image_path := image_path;
                        p_post_text := post_text |}
            end
    | _ =>
        eprint (lit "ERROR: manifest.json must be a list of entries");;
        exit 2
    end.

(** Lines 557 to 572: the dry run. *)
Definition dry_run (a : args) (w : world) (p : plan) : run Z :=
  print (lit "DRY RUN - would post:" ++ [newline]);;
  print (p_post_text p);;
  print (newline :: lit "With image: " ++ p_image_path p);;
  (if a_record_dry_run a
   then
     _save_json (p_history_path p)
       (JList (p_history p ++ [dry_run_record (w_now w) (p_fields p)]));;
     print (newline :: lit "Recorded dry run in history: "
            ++ p_history_path p)
   else mret tt);;
  exit 0.

(** Lines 574 to 672: the posts, the record and the report. *)
Definition publish (a : args) (w : world) (p : plan) : run Z :=
  let twitter_auth_path :=
    match a_twitter_auth a with
    | Some (c :: path) => Path (c :: path)
    | _ => Path (a_auth a)
    end in
  let bluesky_auth_path := Path (a_bluesky_auth a) in
  let bluesky_template_path := Path (a_bluesky_template a) in
  twitter_post_id ←
    match a_platform a with
    | Twitter | Both => post_to_twitter w twitter_auth_path (p_post_text p)
    | Bluesky => mret JNull
    end;
  '(bluesky_uri, bluesky_url) ←
    match a_platform a with
    | Bluesky | Both =>
        post_to_bluesky w (p_fields p) (p_published p) bluesky_auth_path
          (p_template_path p) bluesky_template_path
    | Twitter => mret (None, None)
    end;
  _save_json (p_history_path p)
    (JList (p_history p
            ++ [post_record (w_now w) (p_fields p) twitter_post_id
                  bluesky_uri bluesky_url]));;
  print (lit "Posted throwback for set: " ++ f_set_name (p_fields p));;
  (if truthy twitter_post_id
   then print (lit "Twitter URL: https://x.com/i/web/status/"
               ++ py_str twitter_post_id)
   else mret tt);;
  (if some_text bluesky_url
   then print (lit "Bluesky URL: " ++ default [] bluesky_url)
   else if some_text bluesky_uri
   then print (lit "Bluesky URI: " ++ default [] bluesky_uri)
   else mret tt);;
  exit 0.

Definition main (a : args) (w : world) : run Z :=
  p ← prepare a w;
  if a_dry_run a then dry_run a w p else publish a w p.

(** The state a run starts in. *)
Definition start (fls : gmap str str) : state :=
  {| st_files := fls; st_trace := []; st_kill := None |}.
End Run.

(** ** Links in a Bluesky post *)

(** [s.rstrip(chars)]: the trailing code points that are in [chars] are
    removed. *)
Fixpoint lstrip_chars (chars s : str) : str :=
  match s with
  | [] => []
  | c :: s' => if existsb (N.eqb c) chars then lstrip_chars chars s' else s
  end.

Definition rstrip_chars (chars s : str) : str :=
  rev (lstrip_chars chars (rev s)).

(** The bytes of one code point in UTF-8.  A surrogate has none:
    [str.encode] raises [UnicodeEncodeError], a [ValueError]. *)
Definition utf8_char (c : char) : result (list N) :=
  (if c <? 128 then Ok [c]
   else if c <? 2048 then Ok [192 + c / 64; 128 + c mod 64]
   else if (55296 <=? c) && (c <=? 57343) then Raise ValueError
   else if c <? 65536
   then Ok [224 + c / 4096; 128 + (c / 64) mod 64; 128 + c mod 64]
   else Ok [240 + c / 262144; 128 + (c / 4096) mod 64;
            128 + (c / 64) mod 64; 128 + c mod 64])%N.

(** [s.encode("utf-8")] *)
Fixpoint encode_utf8 (s : str) : result (list N) :=
  match s with
  | [] => Ok []
  | c :: s' =>
      bytes ← utf8_char c;
      rest ← encode_utf8 s';
      Ok (bytes ++ rest)
  end.

(** The code points [\S+] takes at the start of [s]: all of them up to the
    first white space. *)
Fixpoint nonspace_run (s : str) : str :=
  match s with
  | [] => []
  | c :: s' => if isspace c then [] else c :: nonspace_run s'
  end.

(** The match of [https?://\S+] that starts at the first code point of
    [s]. *)
Definition match_url (s : str) : option str :=
  let scheme :=
    if has_prefix (lit "https://") s then Some (lit "https://")
    else if has_prefix (lit "http://") s then Some (lit "http://")
    else None in
  match scheme with
  | Some scheme =>
      match nonspace_run (drop (length scheme) s) with
      | [] => None
      | rest => Some (scheme ++ rest)
      end
  | None => None
  end.

(** [re.finditer(r"https?://\S+", text)]: the matches from left to right,
    each with the index it starts at.  The search resumes where a match
    ends: [skip] counts the code points of [s] that belong to the match
    found last. *)
Fixpoint finditer_from (skip start : nat) (s : str) : list (nat * str) :=
  match s with
  | [] => []
  | _ :: s' =>
      match skip with
      | S skip' => finditer_from skip' (S start) s'
      | O =>
          match match_url s with
          | Some found =>
              (start, found) :: finditer_from (pred (length found)) (S start) s'
          | None => finditer_from O (S start) s'
          end
      end
  end.

Definition finditer_urls (text : str) : list (nat * str) :=
  finditer_from 0 0 text.

(** A link facet: the bytes of the post text it covers and the address. *)
Record facet := {
  byteStart : nat;
  byteEnd : nat;
  uri : str
}.

Definition facet_json (f : facet) : json :=
  JDict [(lit "index",
          JDict [(lit "byteStart", JInt (Z.of_nat (byteStart f)));
                 (lit "byteEnd", JInt (Z.of_nat (byteEnd f)))]);
         (lit "features",
          JList [JDict [(lit "$type", JStr (lit "app.bsky.richtext.facet#link"));
                        (lit "uri", JStr (uri f))]])].

(** The body of the loop of [_bluesky_link_facets] for one match: nothing
    is appended for an address that is empty once its trailing punctuation
    is removed. *)
Definition link_facet (text : str) (start : nat) (raw_url : str)
  : result (option facet) :=
  let url := rstrip_chars (lit ".,;:!?)]}") raw_url in
  if is_empty url then Ok None
  else
    let end_ := (start + length url)%nat in
    byte_start ← encode_utf8 (take start text);
    byte_end ← encode_utf8 (take end_ text);
    Ok (Some {| byteStart := length byte_start;
                byteEnd := length byte_end;
                uri := url |}).

Fixpoint link_facets (text : str) (matches : list (nat * str))
  : result (list facet) :=
  match matches with
  | [] => Ok []
  | (start, raw_url) :: matches' =>
      f ← link_facet text start raw_url;
      facets ← link_facets text matches';
      Ok (match f with Some f => f :: facets | None => facets end)
  end.

Definition _bluesky_link_facets (text : str) : result (list json) :=
  facets ← link_facets text (finditer_urls text);
  Ok (map facet_json facets).

(** ** Credential files *)

(** A dictionary of strings, in insertion order. *)
Fixpoint str_lookup (k : str) (d : list (str * str)) : option str :=
  match d with
  | [] => None
  | (k', v) :: d' => if decide (k' = k) then Some v else str_lookup k d'
  end.

(** [d.setdefault(k, v)] *)
Definition setdefault (k v : str) (d : list (str * str)) : list (str * str) :=
  match str_lookup k d with
  | Some _ => d
  | None => d ++ [(k, v)]
  end.

Section Credentials.
Context `{Runtime}.

(** [[k for k in required if not auth.get(k)]] *)
Definition missing_keys (required : list str) (auth : list (str * json))
  : list str :=
  List.filter (λ k, negb (truthy (default JNull (dict_lookup k auth))))
    required.

(** [{k: str(v) for k, v in auth.items()}] *)
Definition str_values (auth : list (str * json)) : list (str * str) :=
  (λ kv, (kv.1, py_str kv.2)) <$> auth.

(** [_load_auth]; [Fails] is the [RuntimeError] it raises. *)
Definition _load_auth (auth_path : str) : run (outcome (list (str * str))) :=
  auth ← _load_json auth_path;
  match auth with
  | JDict auth =>
      let required := [lit "api_key"; lit "api_secret"; lit "access_token";
                       lit "access_token_secret"] in
      match missing_keys required auth with
      | [] => mret (Done (str_values auth))
      | missing =>
          mret (Fails (lit "Auth file missing required keys: "
                       ++ join (lit ", ") missing))
      end
  | _ => mret (Fails (lit "Auth file must be a JSON object."))
  end.

Definition _load_bluesky_auth (auth_path : str)
  : run (outcome (list (str * str))) :=
  auth ← _load_json auth_path;
  match auth with
  | JDict auth =>
      let required := [lit "identifier"; lit "app_password"] in
      match missing_keys required auth with
      | [] =>
          mret (Done (setdefault (lit "service") (lit "https://bsky.social")
                        (str_values auth)))
      | missing =>
          mret (Fails (lit "Bluesky auth missing required keys: "
                       ++ join (lit ", ") missing))
      end
  | _ => mret (Fails (lit "Bluesky auth file must be a JSON object."))
  end.
End Credentials.

(** ** Image preparation

    The files hold bytes here; [st_size] is their number. *)

(** What [_prepare_image_for_upload] calls and whose code is not the
    scripts'. *)
Class Host := {
  (** [shutil.which] *)
  which : str → option str;
  (** [tempfile.mkstemp(suffix=s)]: the name of the file it creates *)
  mkstemp : gmap str (list N) → str → str;
  (** [subprocess.run(args, check=True)]: the files once the command has
      run, [None] when its exit status is not 0 ([CalledProcessError]) *)
  subprocess_run : list str → gmap str (list N) → option (gmap str (list N));
  (** [p.suffix], [p.with_suffix(s)] and [str.lower] *)
  path_suffix : str → str;
  path_with_suffix : str → str → str;
  str_lower : str → str;
  (** [f"{n / (1024 * 1024):.2f}"] *)
  megabytes : Z → str
}.

(** How [_prepare_image_for_upload] ends: it returns
    [(upload_path, tmp_path)] or raises. *)
Inductive prepared :=
  | Returns (upload_path : str) (tmp_path : option str)
  | RuntimeError (msg : str)
  | FileNotFoundError
  | CalledProcessError.

Section ImagePreparation.
Context `{Host}.

(** [shutil.which("magick") or shutil.which("convert")] *)
Definition _magick_cmd : option str :=
  match which (lit "magick") with
  | Some (c :: path) => Some (c :: path)
  | _ => which (lit "convert")
  end.

(** The end of [_prepare_image_for_upload]: the size of the file made is
    checked. *)
Definition check_resized (tmp_path : str) (max_bytes : Z)
    (fls : gmap str (list N)) : prepared :=
  match fls !! tmp_path with
  | None => FileNotFoundError
  | Some resized =>
      if (max_bytes <? Z.of_nat (length resized))%Z
      then RuntimeError (lit "Resized image still too large: "
                         ++ megabytes (Z.of_nat (length resized))
                         ++ lit " MB > " ++ megabytes max_bytes ++ lit " MB")
      else Returns tmp_path (Some tmp_path)
  end.

(** [_prepare_image_for_upload]: what it returns or raises, the files it
    leaves and the lines it prints. *)
Definition _prepare_image_for_upload (image_path : str) (max_bytes : Z)
    (fls : gmap str (list N)) : prepared * gmap str (list N) * list str :=
  match fls !! image_path with
  | None => (FileNotFoundError, fls, [])
  | Some image =>
      if (Z.of_nat (length image) <=? max_bytes)%Z
      then (Returns image_path None, fls, [])
      else
        let printed :=
          [lit "Resizing before upload: " ++ path_name image_path ++ lit " ("
           ++ megabytes (Z.of_nat (length image)) ++ lit " MB > "
           ++ megabytes max_bytes ++ lit " MB)"] in
        match _magick_cmd with
        | Some (c :: cmd') =>
            let cmd := c :: cmd' in
            let suffix := str_lower (path_suffix image_path) in
            let tmp_path := mkstemp fls suffix in
            (* created empty by [mkstemp], closed, then unlinked *)
            let fls := delete tmp_path (<[tmp_path := []]> fls) in
            let extent := lit "jpeg:extent=" ++ str_of_Z max_bytes ++ lit "B" in
            if bool_decide (suffix = lit ".jpg")
               || bool_decide (suffix = lit ".jpeg")
            then
              match subprocess_run
                      [cmd; image_path; lit "-strip"; lit "-resize";
                       lit "2048x2048>"; lit "-define"; extent;
                       lit "-quality"; lit "92"; tmp_path] fls with
              | None => (CalledProcessError, fls, printed)
              | Some fls => (check_resized tmp_path max_bytes fls, fls, printed)
              end
            else if bool_decide (suffix = lit ".png")
            then
              match subprocess_run
                      [cmd; image_path; lit "-strip"; lit "-resize";
                       lit "2048x2048>"; lit "-define";
                       lit "png:compression-level=9"; tmp_path] fls with
              | None => (CalledProcessError, fls, printed)
              | Some fls =>
                  match fls !! tmp_path with
                  | None => (FileNotFoundError, fls, printed)
                  | Some resized =>
                      if (max_bytes <? Z.of_nat (length resized))%Z
                      then
                        let fls := delete tmp_path fls in
                        let tmp_path := path_with_suffix tmp_path (lit ".jpg") in
                        match subprocess_run
                                [cmd; image_path; lit "-strip"; lit "-resize";
                                 lit "2048x2048>"; lit "-background";
                                 lit "white"; lit "-alpha"; lit "remove";
                                 lit "-alpha"; lit "off"; lit "-define";
                                 extent; lit "-quality"; lit "92"; tmp_path]
                                fls with
                        | None => (CalledProcessError, fls, printed)
                        | Some fls =>
                            (check_resized tmp_path max_bytes fls, fls,
                             printed)
                        end
                      else (check_resized tmp_path max_bytes fls, fls, printed)
                  end
              end
            else
              (RuntimeError (lit "Unsupported image format for auto-resize: "
                             ++ path_suffix image_path), fls, printed)
        | _ =>
            (RuntimeError
               (lit "ImageMagick is required to resize large images "
                ++ lit "(magick/convert not found)."), fls, printed)
        end
  end.
End ImagePreparation.

(** ** A runtime for the examples

    Executable stand-ins for the library functions, used to run the model
    on concrete inputs.  They agree with CPython on the inputs the examples
    give them: ASCII text without HTML entities, ISO dates and times as
    [isoformat] writes them, JSON without escape sequences or duplicate
    keys, normalised relative paths, templates without placeholders, and
    choices in lists of length one. *)

Module Example.
#[local] Open Scope Z_scope.

(** Days since 1970-01-01 of a civil date, and [date.toordinal()]. *)
Definition days_from_civil (y m d : Z) : Z :=
  let y := if m <=? 2 then y - 1 else y in
  let era := y / 400 in
  let yoe := y - era * 400 in
  let doy := (153 * (if 2 <? m then m - 3 else m + 9) + 2) / 5 + d - 1 in
  let doe := yoe * 365 + yoe / 4 - yoe / 100 + doy in
  era * 146097 + doe - 719468.

Definition toordinal (y m d : Z) : Z := days_from_civil y m d + 719163.

(** The civil date [(year, month, day)] of an ordinal. *)
Definition civil (ordinal : Z) : Z * Z * Z :=
  let z := ordinal - 719163 + 719468 in
  let era := z / 146097 in
  let doe := z - era * 146097 in
  let yoe := (doe - doe / 1460 + doe / 36524 - doe / 146096) / 365 in
  let doy := doe - (365 * yoe + yoe / 4 - yoe / 100) in
  let mp := (5 * doy + 2) / 153 in
  let d := doy - (153 * mp + 2) / 5 + 1 in
  let m := if mp <? 10 then mp + 3 else mp - 9 in
  (yoe + era * 400 + (if m <=? 2 then 1 else 0), m, d).

Definition is_leap (y : Z) : bool :=
  (y mod 4 =? 0) && (negb (y mod 100 =? 0) || (y mod 400 =? 0)).

Definition days_in_month (y m : Z) : Z :=
  if m =? 2 then (if is_leap y then 29 else 28)
  else if (m =? 4) || (m =? 6) || (m =? 9) || (m =? 11) then 30
  else 31.

Definition digit (c : char) : option Z :=
  if ((48 <=? c) && (c <=? 57))%N then Some (Z.of_N c - 48) else None.

Fixpoint number_from (acc : Z) (s : str) : option Z :=
  match s with
  | [] => Some acc
  | c :: s' => d ← digit c; number_from (10 * acc + d) s'
  end.

(** A non-empty run of decimal digits. *)
Definition number (s : str) : option Z :=
  match s with
  | [] => None
  | _ => number_from 0 s
  end.

(** [YYYY-MM-DD] *)
Definition parse_date (s : str) : option Z :=
  match s with
  | [y1; y2; y3; y4; 45%N; m1; m2; 45%N; d1; d2] =>
      y ← number [y1; y2; y3; y4];
      m ← number [m1; m2];
      d ← number [d1; d2];
      if (1 <=? y) && (1 <=? m) && (m <=? 12) && (1 <=? d)
         && (d <=? days_in_month y m)
      then Some (toordinal y m d) else None
  | _ => None
  end.

(** [HH:MM:SS], in microseconds *)
Definition parse_clock (s : str) : option Z :=
  match s with
  | [h1; h2; 58%N; m1; m2; 58%N; s1; s2] =>
      h ← number [h1; h2];
      m ← number [m1; m2];
      sec ← number [s1; s2];
      if (h <? 24) && (m <? 60) && (sec <? 60)
      then Some (((h * 60 + m) * 60 + sec) * 1000000) else None
  | _ => None
  end.

(** [+HH:MM] or [-HH:MM], in microseconds *)
Definition parse_offset (s : str) : option Z :=
  match s with
  | [sign; h1; h2; 58%N; m1; m2] =>
      h ← number [h1; h2];
      m ← number [m1; m2];
      if negb ((h <? 24) && (m <? 60)) then None
      else if (sign =? 43)%N then Some ((h * 60 + m) * 60000000)
      else if (sign =? 45)%N then Some (- ((h * 60 + m) * 60000000))
      else None
  | _ => None
  end.

(** The time of day after the date: [THH:MM:SS], then [.ffffff] or nothing,
    then an offset or nothing. *)
Definition parse_time (s : str) : option (Z * option Z) :=
  match s with
  | 84%N :: rest =>
      clock ← parse_clock (take 8 rest);
      match drop 8 rest with
      | 46%N :: rest' =>
          us ← number (take 6 rest');
          if negb (length (take 6 rest') =? 6)%nat then None
          else match drop 6 rest' with
               | [] => Some (clock + us, None)
               | tz => off ← parse_offset tz; Some (clock + us, Some off)
               end
      | [] => Some (clock, None)
      | tz => off ← parse_offset tz; Some (clock, Some off)
      end
  | _ => None
  end.

Definition parse_iso (s : str) : option datetime :=
  ordinal ← parse_date (take 10 s);
  match drop 10 s with
  | [] => Some {| dt_ordinal := ordinal; dt_micro := 0; dt_offset := None |}
  | rest =>
      '(micro, off) ← parse_time rest;
      Some {| dt_ordinal := ordinal; dt_micro := micro; dt_offset := off |}
  end.

(** A number in at least [width] decimal digits. *)
Definition padded (width : nat) (z : Z) : str :=
  let digits := str_of_Z z in
  replicate (width - length digits) 48%N ++ digits.

Definition iso_date (ordinal : Z) : str :=
  let '(y, m, d) := civil ordinal in
  padded 4 y ++ lit "-" ++ padded 2 m ++ lit "-" ++ padded 2 d.

Definition iso_offset (off : Z) : str :=
  let minutes := Z.abs off / 60000000 in
  lit (if off <? 0 then "-" else "+")
  ++ padded 2 (minutes / 60) ++ lit ":" ++ padded 2 (minutes mod 60).

Definition format_iso (t : datetime) : str :=
  let seconds := dt_micro t / 1000000 in
  let us := dt_micro t mod 1000000 in
  iso_date (dt_ordinal t) ++ lit "T"
  ++ padded 2 (seconds / 3600) ++ lit ":"
  ++ padded 2 (seconds / 60 mod 60) ++ lit ":"
  ++ padded 2 (seconds mod 60)
  ++ (if us =? 0 then [] else lit "." ++ padded 6 us)
  ++ match dt_offset t with
     | None => []
     | Some off => iso_offset off
     end.

Definition month_abbr (m : Z) : str :=
  lit (nth (Z.to_nat (m - 1))
         ["Jan"; "Feb"; "Mar"; "Apr"; "May"; "Jun";
          "Jul"; "Aug"; "Sep"; "Oct"; "Nov"; "Dec"]%string "").

Definition format_b_d_Y (ordinal : Z) : str :=
  let '(y, m, d) := civil ordinal in
  month_abbr m ++ lit " " ++ padded 2 d ++ lit ", " ++ padded 4 y.

(** Lower case of ASCII letters. *)
Definition lower (s : str) : str :=
  (λ c, if ((65 <=? c) && (c <=? 90))%N then (c + 32)%N else c) <$> s.

(** [repr]: strings in single quotes, without escapes. *)
Fixpoint repr (v : json) : str :=
  match v with
  | JNull => lit "None"
  | JBool b => lit (if b then "True" else "False")
  | JInt z => str_of_Z z
  | JStr s => lit "'" ++ s ++ lit "'"
  | JList l => lit "[" ++ join (lit ", ") (List.map repr l) ++ lit "]"
  | JDict d =>
      lit "{"
      ++ join (lit ", ")
           (List.map (λ kv, lit "'" ++ fst kv ++ lit "': " ++ repr (snd kv))
              d)
      ++ lit "}"
  end.
Definition hex_digit (z : Z) : char :=
  if z <? 10 then Z.to_N (48 + z) else Z.to_N (87 + z).

(** One code point inside a JSON string, as [ensure_ascii=False] writes
    it. *)
Definition json_escape (c : char) : str :=
  if (c =? 34)%N then lit "\" ++ [34%N]
  else if (c =? 92)%N then lit "\\"
  else if (c =? 10)%N then lit "\n"
  else if (c =? 13)%N then lit "\r"
  else if (c =? 9)%N then lit "\t"
  else if (c =? 8)%N then lit "\b"
  else if (c =? 12)%N then lit "\f"
  else if (c <? 32)%N
  then lit "\u00" ++ [hex_digit (Z.of_N c / 16); hex_digit (Z.of_N c mod 16)]
  else [c].

Definition json_string (s : str) : str :=
  [34%N] ++ concat (json_escape <$> s) ++ [34%N].

Definition indentation (depth : nat) : str := replicate (2 * depth) 32%N.

(** The lines of a non-empty container, between its brackets. *)
Definition json_block (depth : nat) (open close : string) (items : list str)
  : str :=
  lit open ++ [newline]
  ++ join (lit "," ++ [newline])
       ((λ item, indentation (S depth) ++ item) <$> items)
  ++ [newline] ++ indentation depth ++ lit close.

(** [json.dumps(v, ensure_ascii=False, indent=2)] at nesting [depth]. *)
Fixpoint dumps_at (depth : nat) (v : json) : str :=
  match v with
  | JNull => lit "null"
  | JBool b => lit (if b then "true" else "false")
  | JInt z => str_of_Z z
  | JStr s => json_string s
  | JList [] => lit "[]"
  | JList l => json_block depth "[" "]" (List.map (dumps_at (S depth)) l)
  | JDict [] => lit "{}"
  | JDict d =>
      json_block depth "{" "}"
        (List.map
           (λ kv, json_string (fst kv) ++ lit ": " ++ dumps_at (S depth) (snd kv))
           d)
  end.

Definition dumps (v : json) : str := dumps_at 0 v.

Fixpoint skip_ws (s : str) : str :=
  match s with
  | c :: s' =>
      if ((c =? 32) || (c =? 10) || (c =? 13) || (c =? 9))%N
      then skip_ws s' else s
  | [] => []
  end.

(** The rest of a JSON string after its opening quote: the text up to the
    closing quote, without escape sequences or control characters. *)
Fixpoint parse_string (acc : str) (s : str) : option (str * str) :=
  match s with
  | [] => None
  | c :: s' =>
      if (c =? 34)%N then Some (rev acc, s')
      else if ((c =? 92) || (c <? 32))%N then None
      else parse_string (c :: acc) s'
  end.

Fixpoint span_digits (s : str) : str * str :=
  match s with
  | c :: s' =>
      match digit c with
      | Some _ => let '(ds, rest) := span_digits s' in (c :: ds, rest)
      | None => ([], s)
      end
  | [] => ([], [])
  end.

(** An integer without fraction or exponent. *)
Definition parse_int (s : str) : option (json * str) :=
  let '(negative, body) :=
    match s with
    | 45%N :: s' => (true, s')
    | _ => (false, s)
    end in
  let '(ds, rest) := span_digits body in
  match ds, rest with
  | 48%N :: _ :: _, _ => None
  | _, (46%N | 69%N | 101%N) :: _ => None
  | _, _ => z ← number ds; Some (JInt (if negative then - z else z), rest)
  end.

Fixpoint parse_value (fuel : nat) (s : str) : option (json * str) :=
  match fuel with
  | O => None
  | S fuel =>
      match skip_ws s with
      | 110%N :: 117%N :: 108%N :: 108%N :: rest => Some (JNull, rest)
      | 116%N :: 114%N :: 117%N :: 101%N :: rest => Some (JBool true, rest)
      | 102%N :: 97%N :: 108%N :: 115%N :: 101%N :: rest =>
          Some (JBool false, rest)
      | 34%N :: rest =>
          '(text, rest') ← parse_string [] rest; Some (JStr text, rest')
      | 91%N :: rest =>
          match skip_ws rest with
          | 93%N :: rest' => Some (JList [], rest')
          | _ => parse_items fuel [] rest
          end
      | 123%N :: rest =>
          match skip_ws rest with
          | 125%N :: rest' => Some (JDict [], rest')
          | _ => parse_members fuel [] rest
          end
      | rest => parse_int rest
      end
  end
with parse_items (fuel : nat) (acc : list json) (s : str)
  : option (json * str) :=
  match fuel with
  | O => None
  | S fuel =>
      '(v, rest) ← parse_value fuel s;
      match skip_ws rest with
      | 44%N :: rest' => parse_items fuel (v :: acc) rest'
      | 93%N :: rest' => Some (JList (rev (v :: acc)), rest')
      | _ => None
      end
  end
with parse_members (fuel : nat) (acc : list (str * json)) (s : str)
  : option (json * str) :=
  match fuel with
  | O => None
  | S fuel =>
      match skip_ws s with
      | 34%N :: rest =>
          '(k, rest1) ← parse_string [] rest;
          match skip_ws rest1, dict_lookup k acc with
          | 58%N :: rest2, None =>
              '(v, rest3) ← parse_value fuel rest2;
              match skip_ws rest3 with
              | 44%N :: rest' => parse_members fuel ((k, v) :: acc) rest'
              | 125%N :: rest' => Some (JDict (rev ((k, v) :: acc)), rest')
              | _ => None
              end
          | _, _ => None
          end
      | _ => None
      end
  end.

Definition loads (text : str) : option json :=
  '(v, rest) ← parse_value (2 * length text + 2) text;
  match skip_ws rest with
  | [] => Some v
  | _ => None
  end.

(** [a / b] for a relative [b], and [p.parent]. *)
Definition join_path (a b : str) : str := a ++ lit "/" ++ b.

Definition parent (p : str) : str :=
  match split_on 47 p with
  | [] | [_] => lit "."
  | pieces => join (lit "/") (removelast pieces)
  end.

(** A template without placeholders renders to itself. *)
Definition render (text : str) (ctx : context) : outcome str := Done text.

(** A generator is the number it draws from. *)
Definition seed (seed : str) : nat := length seed.
Definition below (g n : nat) : nat := (g mod n)%nat.

#[global] Instance runtime : Runtime := {|
  fromisoformat := parse_iso;
  isoformat := format_iso;
  strftime_b_d_Y := format_b_d_Y;
  html_unescape := id;
  casefold := lower;
  py_repr := repr;
  json_dumps := dumps;
  json_loads := loads;
  Path := id;
  path_join := join_path;
  path_parent := parent;
  rng := nat;
  seed_rng := seed;
  randbelow := below;
  jinja2_installed := true;
  jinja_render := render
|}.
End Example.

(** ** Vocabulary of the properties *)

(** The whole hashtags of a tag string, in their order. *)
Definition hashtags (tags : str) : list str :=
  List.filter (startswith hash_sign) (split tags).

(** [base], a blank line and the tags [kept] joined by single spaces stay
    within [max_len]. *)
Definition fits (base : str) (max_len : Z) (kept : list str) : Prop :=
  (len (base ++ two_newlines ++ join space kept) ≤ max_len)%Z.

Section Vocabulary.
Context `{Runtime}.

(** A record of [history] carries the timestamp [t] under the key [k], for
    a script that reads timestamps with [read]: its timestamp is not empty
    and parses to [t]. *)
Definition recorded_by (read : json → result json) (history : list json)
    (k : str) (t : datetime) : Prop :=
  ∃ h ts, h ∈ history ∧ history_key h = Ok k ∧ read h = Ok ts
          ∧ truthy ts = true ∧ parse_timestamp ts = Some t.

(** [t] is recorded under [k] and no timestamp recorded under [k] is later
    than [t]. *)
Definition most_recent_by (read : json → result json) (history : list json)
    (k : str) (t : datetime) : Prop :=
  recorded_by read history k t
  ∧ ∀ t', recorded_by read history k t' → dt_gt t' t = Ok false.

Definition recorded : list json → str → datetime → Prop :=
  recorded_by timestamp_of.
Definition most_recent : list json → str → datetime → Prop :=
  most_recent_by timestamp_of.

(** What the index [last] holds once the records [seen] are read. *)
Definition index_ok (read : json → result json) (last : gmap str datetime)
    (seen : list json) : Prop :=
  last !! ([] : str) = None
  ∧ ∀ k : str, k ≠ [] →
      match last !! k with
      | None => ∀ t, ¬ recorded_by read seen k t
      | Some t => most_recent_by read seen k t
      end.

(** The manifest loop appends [e]. *)
Definition eligible_entry (last : gmap str datetime) (threshold_days : Z)
    (now : datetime) (e : json) : bool :=
  match keeps last threshold_days now e with
  | Ok keep => keep
  | Raise _ => false
  end.
End Vocabulary.

(** The file operations of one complete [_save_json], in order. *)
Definition save_ops `{Runtime} (path tmp : str) (data : json) : list fs_op :=
  [Mkdir (path_parent path);
   OpenW tmp;
   Write tmp (json_dumps data);
   Write tmp [newline];
   Replace tmp path].


(** The events of the Bluesky adapter. *)
Definition is_bluesky (e : event) : bool :=
  match e with
  | BlueskyLogin | BlueskyMedia | BlueskyCreate _ => true
  | _ => false
  end.

(** No [--set-name] override is in force. *)
Definition no_override (a : args) : Prop :=
  match a_set_name a with
  | Some (_ :: _) => False
  | _ => True
  end.

(** The events that only print. *)
Definition is_output (e : event) : bool :=
  match e with
  | Stdout _ | Stderr _ => true
  | _ => false
  end.

(** [m] only prints: it leaves the files and the kill budget as they are,
    adds nothing but output to the trace, is never killed, and when it
    returns from [main] its exit status is one of [codes]. *)
Definition prints_only {A} (codes : list Z) (m : run A) : Prop :=
  ∀ st r st', m st = (r, st') →
    (∃ out, Forall (λ e, is_output e = true) out
            ∧ st' = {| st_files := st_files st;
                       st_trace := st_trace st ++ out;
                       st_kill := st_kill st |})
    ∧ r ≠ Killed
    ∧ ∀ code, r = Exit code → code ∈ codes.



(** The two diagnostics of a failed selection. *)
Definition no_such_name_message (name : str) : str :=
  lit "ERROR: no manifest entry found for set_name: " ++ name.

Definition no_eligible_message (threshold_days : Z) : str :=
  lit "No eligible sets found (threshold_days=" ++ str_of_Z threshold_days
  ++ lit ").".

(** A string, or nothing. *)
Definition text_or_none (v : json) : Prop :=
  match v with
  | JNull | JStr _ => True
  | _ => False
  end.

(** A dictionary whose [set_url] and [set_name] are strings or missing. *)
Definition keyed (e : json) : Prop :=
  ∃ d, e = JDict d
       ∧ text_or_none (default JNull (dict_lookup k_set_url d))
       ∧ text_or_none (default JNull (dict_lookup k_set_name d)).

(** The timestamp of the record [h], when it parses, is aware. *)
Definition aware_timestamp `{Runtime} (h : json) : Prop :=
  ∀ ts t, timestamp_of h = Ok ts → parse_timestamp ts = Some t →
          is_Some (dt_offset t).

(** ** Vocabulary of the further properties *)

(** The straight quote a typographic quote is replaced by; any other code
    point is kept. *)
Definition straight_quote (c : char) : char :=
  if existsb (N.eqb c) [8220; 8221; 8222; 171; 187]%N then 34%N
  else if existsb (N.eqb c) [8217; 8216; 8218; 96]%N then 39%N
  else c.

Definition typographic_quotes : list char :=
  [8220; 8221; 8222; 171; 187; 8217; 8216; 8218; 96]%N.

Definition slash : char := 47%N.

(** The punctuation that is not part of a link when it ends it. *)
Definition trailing_punctuation : str := lit ".,;:!?)]}".

(** [s] starts with [http://] or [https://]. *)
Definition has_scheme (s : str) : Prop :=
  has_prefix (lit "http://") s = true ∨ has_prefix (lit "https://") s = true.

(** [f] is a link of [text]: its address starts with a scheme, holds no
    white space, does not end with punctuation, and stands in [text] at
    the bytes [byteStart f] to [byteEnd f] of the UTF-8 encoding. *)
Definition facet_of (text : str) (f : facet) : Prop :=
  ∃ before after bytes_before bytes_uri,
    text = before ++ uri f ++ after
    ∧ encode_utf8 before = Ok bytes_before
    ∧ encode_utf8 (uri f) = Ok bytes_uri
    ∧ byteStart f = length bytes_before
    ∧ byteEnd f = (length bytes_before + length bytes_uri)%nat
    ∧ has_scheme (uri f)
    ∧ Forall (λ c, isspace c = false) (uri f)
    ∧ ∀ c, last (uri f) = Some c → c ∉ trailing_punctuation.

(** A match of the pattern in [text]: [found] stands at the index [start]
    and is what the pattern takes there. *)
Definition match_in (text : str) (m : nat * str) : Prop :=
  ∃ before after, text = before ++ m.2 ++ after
                  ∧ length before = m.1
                  ∧ match_url (m.2 ++ after) = Some m.2.

(** The facet of the match [m]: [facet_of] with the index of the match and
    the length of what it took. *)
Definition facet_at (text : str) (m : nat * str) (f : facet) : Prop :=
  ∃ before after bytes_before bytes_uri,
    text = before ++ uri f ++ after
    ∧ length before = m.1
    ∧ (0 < length (uri f) ≤ length m.2)%nat
    ∧ encode_utf8 before = Ok bytes_before
    ∧ encode_utf8 (uri f) = Ok bytes_uri
    ∧ byteStart f = length bytes_before
    ∧ byteEnd f = (length bytes_before + length bytes_uri)%nat
    ∧ has_scheme (uri f)
    ∧ Forall (λ c, isspace c = false) (uri f)
    ∧ ∀ c, last (uri f) = Some c → c ∉ trailing_punctuation.

(** Whether a [datetime] carries a UTC offset. *)
Definition aware (t : datetime) : bool :=
  match dt_offset t with
  | Some _ => true
  | None => false
  end.

(** The timestamp of the record [h], when it parses, is aware or naive as
    [b] says. *)
Definition timestamp_awareness `{Runtime} (b : bool) (h : json) : Prop :=
  ∀ ts t, timestamp_of h = Ok ts → parse_timestamp ts = Some t → aware t = b.

(** The record [r] counts for no set: its key is empty, or its timestamp,
    as [read] gives it, is missing, empty or does not parse. *)
Definition without_timestamp `{Runtime} (read : json → result json) (r : json)
  : Prop :=
  ∃ k ts, history_key r = Ok k ∧ read r = Ok ts
          ∧ (k = [] ∨ truthy ts = false ∨ parse_timestamp ts = None).

(** The normalised [set_name] of the entry [e] is [target]. *)
Definition matches_name `{Runtime} (target : str) (e : json) : Prop :=
  ∃ n, py_get e k_set_name = Ok n
       ∧ _normalized_set_name_for_match (py_str (py_or n (JStr []))) = target.

(** The events of the Twitter adapter, and those of either adapter. *)
Definition is_twitter (e : event) : bool :=
  match e with
  | TwitterInit | TwitterMedia | TwitterCreate _ => true
  | _ => false
  end.

Definition is_platform (e : event) : bool := is_twitter e || is_bluesky e.

(** Nothing of [new] is printed on the standard error. *)
Definition quiet (new : list event) : Prop :=
  Forall (λ e, match e with Stderr _ => False | _ => True end) new.

(** [m] reports its failures: when it returns from [main] with a status
    other than 0, the last thing it did was to print one line on the
    standard error, the only one; otherwise it prints nothing there.  The
    status is one of [codes]. *)
Definition reports {A} (codes : list Z) (m : run A) : Prop :=
  ∀ st r st', m st = (r, st') →
    ∃ new, st_trace st' = st_trace st ++ new
           ∧ match r with
             | Exit code =>
                 code ∈ codes
                 ∧ if bool_decide (code = 0%Z) then quiet new
                   else ∃ pre line, new = pre ++ [Stderr line] ∧ quiet pre
             | _ => quiet new
             end.

(** The history file of a run, and the record a run adds to it. *)
Definition written_record `{Runtime} (w : world) (f : fields) (record : json)
  : Prop :=
  (∃ twitter_post_id bluesky_uri bluesky_url,
     record = post_record (w_now w) f twitter_post_id bluesky_uri bluesky_url)
  ∨ record = dry_run_record (w_now w) f.

(** The file at [path] holds the JSON object [auth]. *)
Definition holds_object `{Runtime} (fls : gmap str str) (path : str)
    (auth : list (str * json)) : Prop :=
  ∃ text, fls !! path = Some text ∧ json_loads text = Some (JDict auth).

(** The key [k] of [auth] has a value that is not empty, null, zero or
    false. *)
Definition filled (auth : list (str * json)) (k : str) : Prop :=
  ∃ v, dict_lookup k auth = Some v ∧ truthy v = true.

(** ** Inputs of the examples *)

Module Sample.
Import Example.

Definition url_a : str := lit "https://rin.example/sets/alpha".
Definition url_b : str := lit "https://rin.example/sets/beta".

Definition entry_a : json :=
  JDict [(k_filename, JStr (lit "alpha.jpg"));
         (k_set_name, JStr (lit "Alpha"));
         (k_set_url, JStr url_a);
         (k_date_published, JStr (lit "2020-05-17T10:00:00"));
         (k_tags, JStr (lit "#alpha #studio"))].

Definition entry_b : json :=
  JDict [(k_filename, JStr (lit "beta.jpg"));
         (k_set_name, JStr (lit "Beta"));
         (k_set_url, JStr url_b);
         (k_date_published, JStr (lit "2021-11-02T09:30:00"));
         (k_tags, JStr (lit "#beta"))].

(** An entry with neither [set_url] nor [set_name]. *)
Definition entry_unnamed : json :=
  JDict [(k_filename, JStr (lit "gamma.jpg"))].

(** [entry_a] posted on 2024-01-01, and on 2024-01-02 (89 days before
    2024-03-31). *)
Definition posted_a_jan1 : json :=
  JDict [(lit "twitter_post_id", JStr (lit "1741"));
         (k_posted_at, JStr (lit "2024-01-01T08:00:00+00:00"));
         (k_filename, JStr (lit "alpha.jpg"));
         (k_set_name, JStr (lit "Alpha"));
         (k_set_url, JStr url_a)].

Definition posted_a_jan2 : json :=
  JDict [(lit "twitter_post_id", JStr (lit "1742"));
         (k_posted_at, JStr (lit "2024-01-02T23:59:59+00:00"));
         (k_filename, JStr (lit "alpha.jpg"));
         (k_set_name, JStr (lit "Alpha"));
         (k_set_url, JStr url_a)].

(** A record of the name [Alpha] under another address, posted on
    2024-03-30. *)
Definition posted_alpha_elsewhere : json :=
  JDict [(k_posted_at, JStr (lit "2024-03-30T12:00:00+00:00"));
         (k_set_name, JStr (lit "Alpha"));
         (k_set_url, JStr (lit "https://rin.example/sets/alpha-reissue"))].

(** A record of the older script: its timestamp is under [tweeted_at]. *)
Definition tweeted_b_mar1 : json :=
  JDict [(lit "tweet_id", JStr (lit "1650"));
         (k_tweeted_at, JStr (lit "2024-03-01T18:00:00+00:00"));
         (k_filename, JStr (lit "beta.jpg"));
         (k_set_name, JStr (lit "Beta"));
         (k_set_url, JStr url_b)].

(** 2024-03-31, five minutes after midnight, UTC: 90 days after
    2024-01-01. *)
Definition now : datetime :=
  {| dt_ordinal := toordinal 2024 3 31;
     dt_micro := 300000000;
     dt_offset := Some 0%Z |}.

Definition jan1 : datetime :=
  {| dt_ordinal := toordinal 2024 1 1;
     dt_micro := 28800000000;
     dt_offset := Some 0%Z |}.

(** The files of a run: a manifest of two entries, their images, a history
    in which [entry_a] was posted 89 days ago, a template and the two
    credential files. *)
Definition files : gmap str str :=
  list_to_map
    [(lit "Rin_Covers/manifest.json", dumps (JList [entry_a; entry_b]));
     (lit "Rin_Covers/alpha.jpg", lit "JFIF");
     (lit "Rin_Covers/beta.jpg", lit "JFIF");
     (lit "post_history.json", dumps (JList [posted_a_jan2]));
     (lit "twitter_template.j2", lit "Throwback to a favourite set");
     (lit "twitter_auth.json", lit "{}");
     (lit "bluesky_auth.json", lit "{}")].

(** The default command line: both platforms, threshold of 90 days. *)
Definition args_default : args :=
  {| a_manifest := lit "Rin_Covers/manifest.json";
     a_images_dir := lit "Rin_Covers";
     a_auth := lit "twitter_auth.json";
     a_twitter_auth := None;
     a_bluesky_auth := lit "bluesky_auth.json";
     a_history := lit "post_history.json";
     a_threshold_days := 90;
     a_set_name := None;
     a_seed := None;
     a_template := lit "twitter_template.j2";
     a_bluesky_template := lit "bluesky_template.j2";
     a_max_image_mb := 5;
     a_platform := Both;
     a_dry_run := false;
     a_record_dry_run := false |}.


(** [--set-name Gamma]: no entry of the manifest has this name. *)
Definition args_unknown_name : args :=
  {| a_manifest := lit "Rin_Covers/manifest.json";
     a_images_dir := lit "Rin_Covers";
     a_auth := lit "twitter_auth.json";
     a_twitter_auth := None;
     a_bluesky_auth := lit "bluesky_auth.json";
     a_history := lit "post_history.json";
     a_threshold_days := 90;
     a_set_name := Some (lit "Gamma");
     a_seed := None;
     a_template := lit "twitter_template.j2";
     a_bluesky_template := lit "bluesky_template.j2";
     a_max_image_mb := 5;
     a_platform := Both;
     a_dry_run := false;
     a_record_dry_run := false |}.

(** The files with a history in which both entries were posted within the
    last 90 days. *)
Definition files_all_recent : gmap str str :=
  <[lit "post_history.json" := dumps (JList [posted_a_jan2; tweeted_b_mar1])]>
    files.

(** A world in which every platform call succeeds. *)
Definition world_fine : world :=
  {| w_now := now;
     w_entropy := 7%nat;
     w_twitter_init := Done tt;
     w_twitter_media := Done tt;
     w_twitter_create := Done (JStr (lit "1800"));
     w_bluesky_login := Done (lit "rin.bsky.social");
     w_bluesky_media := Done tt;
     w_bluesky_create :=
       Done [(lit "uri", JStr (lit "at://did:plc:rin/app.bsky.feed.post/3kq"));
             (lit "cid", JStr (lit "bafy"))] |}.



(** A world in which the creation of the Bluesky post fails. *)
Definition world_bluesky_fails : world :=
  {| w_now := now;
     w_entropy := 7%nat;
     w_twitter_init := Done tt;
     w_twitter_media := Done tt;
     w_twitter_create := Done (JStr (lit "1800"));
     w_bluesky_login := Done (lit "rin.bsky.social");
     w_bluesky_media := Done tt;
     w_bluesky_create := Fails (lit "HTTP 500 calling createRecord") |}.
End Sample.

(** ** Inputs of the further examples *)

Module Cases.
Import Example Sample.

(** A post text with a link after an accented letter and before a comma,
    and the same in ASCII. *)
Definition linked_text : str :=
  [233%N; 32%N] ++ lit "see " ++ url_a ++ lit ", enjoy".

Definition plain_text : str := lit "See " ++ url_a ++ lit ", enjoy!".

(** The link of [linked_text]: two bytes for the accented letter, five for
    the rest before the address, thirty for the address. *)
Definition link_a : facet :=
  {| byteStart := 7; byteEnd := 37; uri := url_a |}.

(** [entry_a] posted on 2024-01-03, with a timestamp without UTC offset. *)
Definition posted_a_naive : json :=
  JDict [(k_posted_at, JStr (lit "2024-01-03T08:00:00"));
         (k_set_name, JStr (lit "Alpha"));
         (k_set_url, JStr url_a)].

Definition jan3_naive : datetime :=
  {| dt_ordinal := toordinal 2024 1 3;
     dt_micro := 28800000000;
     dt_offset := None |}.

(** A record of [entry_a] without timestamp. *)
Definition posted_a_undated : json :=
  JDict [(k_set_name, JStr (lit "Alpha")); (k_set_url, JStr url_a)].

(** The fields of [entry_b]. *)
Definition fields_b : fields :=
  {| f_filename := lit "beta.jpg";
     f_set_name := lit "Beta";
     f_set_url := url_b;
     f_date_published := lit "2021-11-02T09:30:00";
     f_tags := lit "#beta" |}.

(** 2024-06-29, noon UTC: 90 days after [now]. *)
Definition ninety_days_later : datetime :=
  {| dt_ordinal := toordinal 2024 6 29;
     dt_micro := 43200000000;
     dt_offset := Some 0%Z |}.

(** [--set-name ALPHA]: the entry posted 89 days ago. *)
Definition args_named : args :=
  {| a_manifest := lit "Rin_Covers/manifest.json";
     a_images_dir := lit "Rin_Covers";
     a_auth := lit "twitter_auth.json";
     a_twitter_auth := None;
     a_bluesky_auth := lit "bluesky_auth.json";
     a_history := lit "post_history.json";
     a_threshold_days := 90;
     a_set_name := Some (lit "ALPHA");
     a_seed := None;
     a_template := lit "twitter_template.j2";
     a_bluesky_template := lit "bluesky_template.j2";
     a_max_image_mb := 5;
     a_platform := Both;
     a_dry_run := false;
     a_record_dry_run := false |}.

(** [--dry-run] *)
Definition args_dry : args :=
  {| a_manifest := lit "Rin_Covers/manifest.json";
     a_images_dir := lit "Rin_Covers";
     a_auth := lit "twitter_auth.json";
     a_twitter_auth := None;
     a_bluesky_auth := lit "bluesky_auth.json";
     a_history := lit "post_history.json";
     a_threshold_days := 90;
     a_set_name := None;
     a_seed := None;
     a_template := lit "twitter_template.j2";
     a_bluesky_template := lit "bluesky_template.j2";
     a_max_image_mb := 5;
     a_platform := Both;
     a_dry_run := true;
     a_record_dry_run := false |}.

(** [--platform twitter] *)
Definition args_twitter : args :=
  {| a_manifest := lit "Rin_Covers/manifest.json";
     a_images_dir := lit "Rin_Covers";
     a_auth := lit "twitter_auth.json";
     a_twitter_auth := None;
     a_bluesky_auth := lit "bluesky_auth.json";
     a_history := lit "post_history.json";
     a_threshold_days := 90;
     a_set_name := None;
     a_seed := None;
     a_template := lit "twitter_template.j2";
     a_bluesky_template := lit "bluesky_template.j2";
     a_max_image_mb := 5;
     a_platform := Twitter;
     a_dry_run := false;
     a_record_dry_run := false |}.

(** The files with a history file that is not JSON. *)
Definition files_unreadable : gmap str str :=
  <[lit "post_history.json" := lit "[{"]> files.

(** Credential files: a numeric token, and a Bluesky service that is
    null. *)
Definition twitter_credentials : list (str * json) :=
  [(lit "api_key", JStr (lit "key"));
   (lit "api_secret", JStr (lit "secret"));
   (lit "access_token", JInt 42);
   (lit "access_token_secret", JStr (lit "token-secret"))].

Definition bluesky_credentials : list (str * json) :=
  [(lit "identifier", JStr (lit "rin.bsky.social"));
   (lit "app_password", JStr (lit "abcd-efgh"));
   (lit "service", JNull)].

Definition credential_files : gmap str str :=
  list_to_map
    [(lit "twitter_auth.json", dumps (JDict twitter_credentials));
     (lit "bluesky_auth.json", dumps (JDict bluesky_credentials))].

(** A host with ImageMagick, in which the command writes 5000 bytes for a
    PNG and 900 bytes for a JPEG at its last argument; the sizes in
    megabytes are right below 5243 bytes. *)
#[global] Instance host : Host := {|
  which := λ name,
    if bool_decide (name = lit "magick") then Some (lit "/usr/bin/magick")
    else None;
  mkstemp := λ _ suffix, lit "/tmp/tmpq3x7" ++ suffix;
  subprocess_run := λ command fls,
    match last command with
    | Some made =>
        Some (<[made := replicate
                          (if bool_decide (lit "-quality" ∈ command)
                           then 900 else 5000)%nat 0%N]> fls)
    | None => None
    end;
  path_suffix := λ p,
    match split_on 46 (path_name p) with
    | [] | [_] => []
    | pieces => 46%N :: default [] (last pieces)
    end;
  path_with_suffix := λ p suffix,
    match split_on 46 p with
    | [] | [_] => p ++ suffix
    | pieces => join [46%N] (removelast pieces) ++ suffix
    end;
  str_lower := lower;
  megabytes := λ _, lit "0.00"
|}.

(** An image of 4000 bytes. *)
Definition image_files : gmap str (list N) :=
  list_to_map [(lit "Rin_Covers/alpha.png", replicate 4000 0%N)].
End Cases.


(** * Properties *)

(** ** Strings *)

Lemma split_lstrip (s : str) : split (lstrip s) = split s.
Proof.
  unfold split. induction s as [|c s IH]; [done|].
  simpl. destruct (isspace c) eqn:Hc; [done|].
  simpl. by rewrite Hc.
Qed.

Lemma split_from_snoc_space (cur s : str) (c : char) :
  isspace c = true → split_from cur (s ++ [c]) = split_from cur s.
Proof.
  intros Hc. revert cur. induction s as [|d s IH]; intros cur; simpl.
  - rewrite Hc. by destruct cur.
  - destruct (isspace d); [destruct cur|]; by rewrite ?IH.
Qed.

Lemma lstrip_rev_split (cur s : str) :
  split_from cur (rev (lstrip (rev s))) = split_from cur s.
Proof.
  induction s as [|c s IH] using rev_ind; [done|].
  rewrite rev_app_distr. simpl. destruct (isspace c) eqn:Hc.
  - by rewrite IH, split_from_snoc_space.
  - simpl. by rewrite rev_involutive.
Qed.

Lemma split_strip (s : str) : split (strip s) = split s.
Proof.
  rewrite <- (split_lstrip s). unfold strip, rstrip, split.
  apply lstrip_rev_split.
Qed.

(** ** Tag fitting *)

Lemma fit_loop_spec (base : str) (max_len : Z) (tag_list : list str) :
  ∀ kept0, ∃ new rest,
    tag_list = new ++ rest
    ∧ fit_loop base max_len kept0 tag_list = kept0 ++ new
    ∧ (∀ n, (0 < n ≤ length new)%nat →
         fits base max_len (kept0 ++ take n new))
    ∧ (∀ t rest', rest = t :: rest' →
         ¬ fits base max_len (kept0 ++ new ++ [t])).
Proof.
  induction tag_list as [|t l IH]; intros kept0.
  - exists [], []. split_and!; try done.
    + simpl. by rewrite app_nil_r.
    + intros n [? ?]; simpl in *; lia.
  - cbn [fit_loop].
    destruct (Z.leb_spec (len (base ++ two_newlines ++ join space (kept0 ++ [t])))
                max_len) as [Hfit|Hover].
    + destruct (IH (kept0 ++ [t])) as (new & rest & -> & Hr & Hin & Hstop).
      exists (t :: new), rest. split_and!; [done| |..].
      * by rewrite Hr, <- app_assoc.
      * intros [|n] [? Hn]; [lia|]. simpl in Hn.
        destruct n as [|n].
        { simpl. by rewrite take_0. }
        replace (kept0 ++ take (S (S n)) (t :: new))
          with ((kept0 ++ [t]) ++ take (S n) new)
          by (by rewrite <- app_assoc).
        apply Hin. lia.
      * intros t' rest' ->.
        replace (kept0 ++ (t :: new) ++ [t'])
          with ((kept0 ++ [t]) ++ new ++ [t'])
          by (by rewrite <- app_assoc).
        by eapply Hstop.
    + exists [], (t :: l). split_and!; try done.
      * by rewrite app_nil_r.
      * intros n [? ?]; simpl in *; lia.
      * intros t' rest' [= <- <-]. unfold fits. cbn [app]. lia.
Qed.

(** C5, as the code has it.  When the stripped tag string fits after [base]
    and a blank line, [_fit_tags] returns it unchanged; otherwise it returns
    the hashtags [kept] joined by single spaces, where [kept] is a prefix of
    the whole hashtags of the tag string in their order, every non-empty
    prefix of [kept] fits, and the hashtag after [kept], if any, does not
    fit. *)
Theorem fit_tags_greedy_prefix (base tags : str) (max_len : Z) :
  let stripped := strip tags in
  let whole_fits :=
    stripped ≠ [] ∧ (len (base ++ two_newlines ++ stripped) ≤ max_len)%Z in
  (whole_fits → _fit_tags base tags max_len = stripped)
  ∧ (¬ whole_fits →
     ∃ kept rest,
       hashtags tags = kept ++ rest
       ∧ _fit_tags base tags max_len = join space kept
       ∧ (∀ n, (0 < n ≤ length kept)%nat → fits base max_len (take n kept))
       ∧ (∀ t rest', rest = t :: rest' → ¬ fits base max_len (kept ++ [t]))).
Proof.
  intros stripped whole_fits. subst whole_fits. unfold _fit_tags.
  fold stripped. unfold hashtags. rewrite <- (split_strip tags). fold stripped.
  destruct stripped as [|c s] eqn:Hs.
  - split; [by intros [? _]|]. intros _. exists [], []. split_and!; try done.
    intros n [? ?]; simpl in *; lia.
  - destruct (Z.leb_spec (len (base ++ two_newlines ++ c :: s)) max_len)
      as [Hfit|Hover].
    + split; [done|]. intros Hn. destruct Hn. by split.
    + split; [intros [_ ?]; lia|]. intros _.
      destruct (fit_loop_spec base max_len
                  (List.filter (startswith hash_sign) (split (c :: s))) [])
        as (new & rest & Heq & Hr & Hin & Hstop).
      exists new, rest. by rewrite Hr.
Qed.

(** Room for two of four tags: the first two, joined by one space. *)
Example fit_tags_first_two_of_four :
  _fit_tags (lit "hello") (lit "#aa #bb #cc #dd") 14 = lit "#aa #bb".
Proof. vm_compute. reflexivity. Qed.

(** The loop ends at the first tag that does not fit: [#b] is dropped
    although it would fit after [#a]. *)
Example fit_tags_stops_at_first_overflow :
  _fit_tags (lit "x") (lit "#a #toolongtag #b") 10 = lit "#a".
Proof. vm_compute. reflexivity. Qed.

(** C5, as stated, fails: with room for everything, a tag string holding a
    word that is not a hashtag is returned whole, which is not a run of the
    hashtags of the string joined by spaces. *)
Lemma fit_tags_keeps_plain_words :
  _fit_tags (lit "") (lit "foo #a") 100 = lit "foo #a"
  ∧ hashtags (lit "foo #a") = [lit "#a"]
  ∧ ¬ ∃ kept, kept `prefix_of` hashtags (lit "foo #a")
        ∧ _fit_tags (lit "") (lit "foo #a") 100 = join space kept.
Proof.
  split_and!; [done..|].
  intros (kept & [rest Hp] & He).
  change (hashtags (lit "foo #a")) with [lit "#a"] in Hp.
  change (_fit_tags (lit "") (lit "foo #a") 100) with (lit "foo #a") in He.
  destruct kept as [|t [|t' kept]]; simplify_eq/=.
Qed.

(** ** The index of last posts *)

Lemma dt_gt_irrefl (t : datetime) : dt_gt t t = Ok false.
Proof.
  unfold dt_gt. destruct (dt_offset t); f_equal.
  - apply Z.ltb_irrefl.
  - rewrite !Z.ltb_irrefl. by rewrite andb_false_r.
Qed.

Lemma dt_gt_chain (t old new : datetime) :
  dt_gt t old = Ok false → dt_gt new old = Ok true → dt_gt t new = Ok false.
Proof.
  unfold dt_gt.
  destruct (dt_offset t), (dt_offset old), (dt_offset new); try done;
    intros [= Ht] [= Hn]; f_equal; lia.
Qed.

Section Index.
Context `{Runtime}.
Variable read : json → result json.

Lemma recorded_by_snoc (seen : list json) (h : json) (k : str) (t : datetime) :
  recorded_by read (seen ++ [h]) k t ↔
  recorded_by read seen k t
  ∨ ∃ ts, history_key h = Ok k ∧ read h = Ok ts ∧ truthy ts = true
          ∧ parse_timestamp ts = Some t.
Proof.
  unfold recorded_by. split.
  - intros (h' & ts & [Hin| ->%list_elem_of_singleton]%elem_of_app & ?); eauto 10.
  - intros [(h' & ts & Hin & ?)|(ts & ?)].
    + exists h', ts. rewrite elem_of_app. eauto.
    + exists h, ts. rewrite elem_of_app, list_elem_of_singleton. eauto.
Qed.

Lemma index_ok_empty : index_ok read ∅ [].
Proof.
  split; [done|]. intros k _. rewrite lookup_empty.
  intros t (h & ts & Hin & _). by apply elem_of_nil in Hin.
Qed.

Lemma index_update_ok (last last' : gmap str datetime) (seen : list json)
    (h : json) (key : str) (ts : json) :
  history_key h = Ok key → read h = Ok ts →
  index_update last key ts = Ok last' →
  index_ok read last seen → index_ok read last' (seen ++ [h]).
Proof.
  intros Hkey Hts Hup [Hnil Hok].
  assert (Hskip : ∀ k : str, k ≠ [] →
            (key = k → truthy ts = true → parse_timestamp ts = None) →
            match last !! k with
            | None => ∀ t, ¬ recorded_by read (seen ++ [h]) k t
            | Some t => most_recent_by read (seen ++ [h]) k t
            end).
  { intros k Hk Hno. specialize (Hok k Hk).
    assert (Hsame : ∀ t, recorded_by read (seen ++ [h]) k t
                         ↔ recorded_by read seen k t).
    { intros t. rewrite recorded_by_snoc. split; [|by left].
      intros [?|(ts' & Hk' & Hts' & Htr & Hp)]; [done|].
      rewrite Hkey in Hk'. rewrite Hts in Hts'. simplify_eq.
      rewrite Hno in Hp; done. }
    destruct (last !! k) as [t|].
    - destruct Hok as [Hrec Hmax]. split; [by apply Hsame|].
      intros t' Ht'. by apply Hmax, Hsame.
    - intros t Ht. by eapply Hok, Hsame. }
  unfold index_update in Hup.
  destruct (truthy (JStr key)) eqn:Hkne; simpl in Hup.
  2:{ simplify_eq. split; [done|]. intros k Hk.
      apply Hskip; [done|]. intros <-. by destruct key. }
  assert (Hkey_ne : key ≠ []) by (by intros ->).
  destruct (truthy ts) eqn:Htruthy; simpl in Hup.
  2:{ simplify_eq. split; [done|]. intros k Hk. by apply Hskip. }
  destruct (parse_timestamp ts) as [when|] eqn:Hparse.
  2:{ simplify_eq. split; [done|]. intros k Hk. by apply Hskip. }
  assert (Hother : ∀ k : str, k ≠ [] → key ≠ k →
            match last !! k with
            | None => ∀ t, ¬ recorded_by read (seen ++ [h]) k t
            | Some t => most_recent_by read (seen ++ [h]) k t
            end).
  { intros k Hk Hne. apply Hskip; [done|]. by intros ->. }
  assert (Hnew : ∀ t, recorded_by read (seen ++ [h]) key t
                      ↔ recorded_by read seen key t ∨ t = when).
  { intros t. rewrite recorded_by_snoc. split.
    - intros [?|(ts' & _ & Hts' & _ & Hp)]; [by left|right].
      rewrite Hts in Hts'. by simplify_eq.
    - intros [?| ->]; [by left|right]. by exists ts. }
  specialize (Hok key Hkey_ne) as Hold.
  destruct (last !! key) as [old|] eqn:Hlast.
  - destruct (dt_gt when old) as [newer|] eqn:Hgt; simpl in Hup; [|done].
    destruct Hold as [Hrec Hmax]. destruct newer; simplify_eq.
    + split; [by rewrite lookup_insert_ne|]. intros k Hk.
      destruct (decide (key = k)) as [<-|Hne].
      * rewrite lookup_insert_eq. split; [apply Hnew; by right|].
        intros t' [Ht'| ->]%Hnew; [|apply dt_gt_irrefl].
        eapply dt_gt_chain; [by apply Hmax|done].
      * rewrite lookup_insert_ne by done. by apply Hother.
    + split; [done|]. intros k Hk.
      destruct (decide (key = k)) as [<-|Hne]; [|by apply Hother].
      rewrite Hlast. split; [apply Hnew; by left|].
      intros t' [Ht'| ->]%Hnew; [by apply Hmax|done].
  - simplify_eq. split; [by rewrite lookup_insert_ne|]. intros k Hk.
    destruct (decide (key = k)) as [<-|Hne].
    + rewrite lookup_insert_eq. split; [apply Hnew; by right|].
      intros t' [Ht'| ->]%Hnew; [by apply Hold in Ht'|apply dt_gt_irrefl].
    + rewrite lookup_insert_ne by done. by apply Hother.
Qed.

Lemma index_from_ok (history seen : list json) (last last' : gmap str datetime) :
  index_from read last history = Ok last' →
  index_ok read last seen → index_ok read last' (seen ++ history).
Proof.
  revert seen last. induction history as [|h history IH]; intros seen last.
  - intros [= <-]. by rewrite app_nil_r.
  - cbn [index_from]. intros Hrun Hok.
    destruct (history_key h) as [key|] eqn:Hkey; simpl in Hrun; [|done].
    destruct (read h) as [ts|] eqn:Hts; simpl in Hrun; [|done].
    destruct (index_update last key ts) as [last1|] eqn:Hup;
      simpl in Hrun; [|done].
    replace (seen ++ h :: history) with ((seen ++ [h]) ++ history)
      by (by rewrite <- app_assoc).
    eapply IH; [done|]. by eapply index_update_ok.
Qed.
End Index.

Section Locality.
Context `{Runtime}.
Variable read : json → result json.

Lemma index_update_other (last last' : gmap str datetime) (key k : str)
    (ts : json) :
  index_update last key ts = Ok last' → key ≠ k → last' !! k = last !! k.
Proof.
  unfold index_update. intros Hup Hne.
  repeat case_match; simplify_eq/=; try done;
    try (by rewrite lookup_insert_ne).
  destruct (dt_gt _ _) as [[]|]; simplify_eq/=; [|done].
  by rewrite lookup_insert_ne.
Qed.

Lemma index_update_same (la la' lb lb' : gmap str datetime) (key : str)
    (ts : json) :
  index_update la key ts = Ok la' → index_update lb key ts = Ok lb' →
  la !! key = lb !! key → la' !! key = lb' !! key.
Proof.
  unfold index_update. intros Ha Hb Heq. rewrite <- Heq in Hb.
  destruct (negb (truthy (JStr key)) || negb (truthy ts)); [by simplify_eq|].
  destruct (parse_timestamp ts) as [when|]; [|by simplify_eq].
  destruct (la !! key) as [old|] eqn:Hla.
  - destruct (dt_gt when old) as [[]|]; simplify_eq/=.
    + by rewrite !lookup_insert_eq.
    + by rewrite Hla, <- Heq.
  - simplify_eq. by rewrite !lookup_insert_eq.
Qed.

Lemma index_from_agree (k : str) (history : list json) :
  ∀ la lb la' lb' : gmap str datetime,
    la !! k = lb !! k →
    index_from read la history = Ok la' →
    index_from read lb history = Ok lb' →
    la' !! k = lb' !! k.
Proof.
  induction history as [|h history IH]; intros la lb la' lb' Heq.
  - by intros [= <-] [= <-].
  - cbn [index_from].
    destruct (history_key h) as [key|]; [|done].
    destruct (read h) as [ts|]; [|done]. simpl.
    destruct (index_update la key ts) as [la1|] eqn:Ha; [|done].
    destruct (index_update lb key ts) as [lb1|] eqn:Hb; [|done]. simpl.
    apply IH. destruct (decide (key = k)) as [->|Hne].
    + by eapply index_update_same.
    + by rewrite (index_update_other _ _ _ _ _ Ha Hne),
                 (index_update_other _ _ _ _ _ Hb Hne).
Qed.

Lemma index_from_app (last : gmap str datetime) (a b : list json) :
  index_from read last (a ++ b)
  = index_from read last a ≫= λ last', index_from read last' b.
Proof.
  revert last. induction a as [|h a IH]; intros last; [done|].
  cbn [index_from app].
  destruct (history_key h); [|done]. destruct (read h); [|done]. simpl.
  destruct (index_update last _ _); [|done]. simpl. apply IH.
Qed.

(** A record under another key leaves the index of [k] as it is. *)
Lemma index_from_skip (k kr : str) (r : json) (h1 h2 : list json)
    (last last' : gmap str datetime) :
  history_key r = Ok kr → kr ≠ k →
  index_from read ∅ (h1 ++ h2) = Ok last →
  index_from read ∅ (h1 ++ r :: h2) = Ok last' →
  last' !! k = last !! k.
Proof.
  intros Hkr Hne. rewrite !index_from_app.
  destruct (index_from read ∅ h1) as [l1|]; [|done]. simpl.
  rewrite Hkr. simpl.
  destruct (read r) as [ts|]; [|done]. simpl.
  destruct (index_update l1 kr ts) as [l1'|] eqn:Hup; [|done]. simpl.
  intros Ha Hb. eapply (index_from_agree k h2 l1' l1); [|done..].
  by eapply index_update_other.
Qed.
End Locality.

(** ** The eligibility engine *)

Section Engine.
Context `{Runtime}.

Lemma keeps_spec (last : gmap str datetime) (th : Z) (now : datetime)
    (e : json) (keep : bool) :
  keeps last th now e = Ok keep →
  ∃ k, entry_key e = Ok k
       ∧ (keep = true ↔
          k ≠ [] ∧ match last !! k with
                   | None => True
                   | Some t => (th ≤ _days_ago t now)%Z
                   end).
Proof.
  unfold keeps. destruct (entry_key e) as [k|]; [|done]. simpl.
  intros Hk. exists k. split; [done|].
  destruct k as [|c k].
  { assert (keep = false) as -> by congruence. split; [done|by intros [? _]]. }
  destruct (last !! _) as [t|].
  - assert (keep = (th <=? _days_ago t now)%Z) as -> by congruence.
    rewrite Z.leb_le. split; [done|by intros [_ ?]].
  - assert (keep = true) as -> by congruence. done.
Qed.

Lemma eligible_from_filter (last : gmap str datetime) (th : Z) (now : datetime)
    (manifest res : list json) :
  eligible_from last th now manifest = Ok res →
  res = filter (λ e, eligible_entry last th now e = true) manifest
  ∧ ∀ e, e ∈ manifest → ∃ keep, keeps last th now e = Ok keep.
Proof.
  revert res. induction manifest as [|e manifest IH]; intros res.
  - intros [= <-]. split; [done|]. by intros e ?%elem_of_nil.
  - cbn [eligible_from].
    destruct (keeps last th now e) as [keep|] eqn:Hkeep; [|done]. simpl.
    destruct (eligible_from last th now manifest) as [rest|]; [|done]. simpl.
    intros [= <-]. destruct (IH rest eq_refl) as [-> Hall]. split.
    + assert (eligible_entry last th now e = keep) as He
        by (unfold eligible_entry; by rewrite Hkeep).
      rewrite filter_cons, He. destruct keep; by case_decide.
    + intros e' [->|?]%elem_of_cons; eauto.
Qed.

Lemma eligible_entries_spec (manifest history : list json) (th : Z)
    (now : datetime) (res : list json) :
  _eligible_entries manifest history th now = Ok res →
  ∃ last,
    index_from timestamp_of ∅ history = Ok last
    ∧ index_ok timestamp_of last history
    ∧ res = filter (λ e, eligible_entry last th now e = true) manifest
    ∧ ∀ e, e ∈ manifest →
        ∃ k, entry_key e = Ok k
             ∧ (e ∈ res ↔
                k ≠ [] ∧ match last !! k with
                         | None => True
                         | Some t => (th ≤ _days_ago t now)%Z
                         end).
Proof.
  unfold _eligible_entries.
  destruct (index_from timestamp_of ∅ history) as [last|] eqn:Hlast; [|done].
  simpl. intros [-> Hall]%eligible_from_filter.
  exists last. split_and!; [done| |done|].
  - apply (index_from_ok timestamp_of history [] ∅ last Hlast).
    apply index_ok_empty.
  - intros e He. destruct (Hall e He) as [keep Hkeep].
    destruct (keeps_spec _ _ _ _ _ Hkeep) as (k & Hk & Hiff).
    exists k. split; [done|]. rewrite list_elem_of_filter.
    unfold eligible_entry. rewrite Hkeep. rewrite <- Hiff. tauto.
Qed.
End Engine.

(** ** The eligibility function returns *)

Section Returns.
Context `{Runtime}.

Lemma keyed_history_key (h : json) : keyed h → ∃ k, history_key h = Ok k.
Proof.
  intros (d & -> & Hu & Hn). unfold history_key. simpl.
  destruct (default JNull (dict_lookup k_set_url d)) as [| | |[|c u]| |],
           (default JNull (dict_lookup k_set_name d)) as [| | |[|c' n]| |];
    try done; cbn; eauto.
Qed.

Lemma keyed_entry_key (e : json) : keyed e → ∃ k, entry_key e = Ok k.
Proof.
  intros (d & -> & Hu & Hn). unfold entry_key. simpl.
  destruct (default JNull (dict_lookup k_set_url d)) as [| | |[|c u]| |],
           (default JNull (dict_lookup k_set_name d)) as [| | |[|c' n]| |];
    try done; cbn; eauto.
Qed.

Lemma index_update_returns (last : gmap str datetime) (key : str) (ts : json) :
  map_Forall (λ _ t, is_Some (dt_offset t)) last →
  (∀ t, parse_timestamp ts = Some t → is_Some (dt_offset t)) →
  ∃ last', index_update last key ts = Ok last'
           ∧ map_Forall (λ _ t, is_Some (dt_offset t)) last'.
Proof.
  intros Hlast Hts. unfold index_update.
  destruct (negb (truthy (JStr key)) || negb (truthy ts)); [by eauto|].
  destruct (parse_timestamp ts) as [when|]; [|by eauto].
  destruct (Hts when eq_refl) as [off Hoff].
  assert (map_Forall (λ _ t, is_Some (dt_offset t)) (<[key := when]> last))
    by (apply map_Forall_insert_2; [by exists off|done]).
  destruct (last !! key) as [old|] eqn:Hold; [|by eauto].
  destruct (Hlast key old Hold) as [off' Hoff'].
  unfold dt_gt. rewrite Hoff, Hoff'. simpl.
  destruct (_ <? _)%Z; eauto.
Qed.

Lemma index_from_returns (history : list json) :
  Forall keyed history → Forall aware_timestamp history →
  ∀ last, map_Forall (λ _ t, is_Some (dt_offset t)) last →
          ∃ last', index_from timestamp_of last history = Ok last'.
Proof.
  induction history as [|h history IH]; intros Hkeyed Haware last Hlast;
    [by eauto|].
  apply Forall_cons in Hkeyed as [Hh Hkeyed].
  apply Forall_cons in Haware as [Ha Haware].
  cbn [index_from].
  destruct (keyed_history_key h Hh) as [key ->]. simpl.
  destruct Hh as (d & -> & _). unfold timestamp_of at 1. simpl.
  destruct (index_update_returns last key
              (py_or (default JNull (dict_lookup k_posted_at d))
                     (default JNull (dict_lookup k_tweeted_at d))) Hlast)
    as (last1 & -> & Hlast1).
  { intros t. by apply Ha. }
  simpl. by apply IH.
Qed.

Lemma eligible_from_returns (last : gmap str datetime) (th : Z)
    (now : datetime) (manifest : list json) :
  Forall keyed manifest → ∃ res, eligible_from last th now manifest = Ok res.
Proof.
  induction 1 as [|e manifest He _ [res IH]]; [by eauto|].
  cbn [eligible_from]. unfold keeps.
  destruct (keyed_entry_key e He) as [k ->]. simpl. rewrite IH.
  destruct k; [by eauto|]. destruct (last !! _); simpl; eauto.
Qed.

(** On a manifest and a history of dictionaries whose [set_url] and
    [set_name] are strings or missing, with history timestamps that are
    aware whenever they parse, the eligibility function returns a list. *)
Lemma eligible_entries_returns (manifest history : list json) (th : Z)
    (now : datetime) :
  Forall keyed manifest → Forall keyed history →
  Forall aware_timestamp history →
  ∃ res, _eligible_entries manifest history th now = Ok res.
Proof.
  intros Hm Hh Ha. unfold _eligible_entries.
  destruct (index_from_returns history Hh Ha ∅) as [last ->].
  { apply map_Forall_empty. }
  simpl. by apply eligible_from_returns.
Qed.
End Returns.

Section EligibilityProperties.
Context `{Runtime}.

(** C2, as the code has it.  Whenever the eligibility function returns,
    an entry of the manifest with identity key [k] is never eligible when
    [k] is empty; with a non-empty key it is eligible when no timestamp is
    recorded under [k], and otherwise it is eligible if and only if the
    number of calendar days from the date of a most recent recorded
    timestamp to the date of [now] is at least [threshold_days]. *)
Theorem eligible_iff_threshold_days (manifest history : list json)
    (threshold_days : Z) (now : datetime) (res : list json) (e : json)
    (k : str) :
  _eligible_entries manifest history threshold_days now = Ok res →
  e ∈ manifest →
  entry_key e = Ok k →
  (k = [] → e ∉ res)
  ∧ (k ≠ [] → (∀ t, ¬ recorded history k t) → e ∈ res)
  ∧ (k ≠ [] → (∃ t, recorded history k t) →
     ∃ t, most_recent history k t
          ∧ (e ∈ res ↔ (threshold_days ≤ _days_ago t now)%Z)).
Proof.
  intros (last & _ & [_ Hok] & _ & Hall)%eligible_entries_spec He Hk.
  destruct (Hall e He) as (k' & Hk' & Hiff). rewrite Hk in Hk'.
  injection Hk' as <-. split_and!.
  - intros ->. rewrite Hiff. by intros [? _].
  - intros Hne Hnone. apply Hiff. split; [done|].
    specialize (Hok k Hne). destruct (last !! k) as [t|]; [|done].
    destruct Hok as [Hrec _]. by apply Hnone in Hrec.
  - intros Hne [t0 Hrec]. specialize (Hok k Hne).
    destruct (last !! k) as [t|]; [|by apply Hok in Hrec].
    exists t. split; [done|]. rewrite Hiff. tauto.
Qed.

(** C6.  Whenever the eligibility function returns, every entry of the
    manifest has its [set_url] and [set_name] stripped, and its identity key
    is the stripped [set_url] when that is not empty and the stripped
    [set_name] otherwise: the entry is excluded when that key is empty,
    is otherwise eligible exactly when the index of last posts has nothing
    under that key or a timestamp old enough; and a history record whose
    own key differs from that key, whatever its [set_name], changes nothing
    to the eligibility of the entry. *)
Theorem identity_key_is_url_then_name (manifest history : list json)
    (threshold_days : Z) (now : datetime) (res : list json) (e : json) :
  _eligible_entries manifest history threshold_days now = Ok res →
  e ∈ manifest →
  ∃ set_url set_name last,
    field e k_set_url = Ok set_url
    ∧ field e k_set_name = Ok set_name
    ∧ index_from timestamp_of ∅ history = Ok last
    ∧ let key := match set_url with [] => set_name | _ => set_url end in
      (key = [] → e ∉ res)
      ∧ (key ≠ [] →
         (e ∈ res ↔ match last !! key with
                    | None => True
                    | Some t => (threshold_days ≤ _days_ago t now)%Z
                    end))
      ∧ ∀ h1 h2 r kr res',
          history = h1 ++ h2 →
          history_key r = Ok kr → kr ≠ key →
          _eligible_entries manifest (h1 ++ r :: h2) threshold_days now
          = Ok res' →
          (e ∈ res' ↔ e ∈ res).
Proof.
  intros Hres He.
  destruct (eligible_entries_spec _ _ _ _ _ Hres)
    as (last & Hlast & _ & _ & Hall).
  destruct (Hall e He) as (k & Hk & Hiff).
  unfold entry_key in Hk. fold (field e k_set_url) in Hk.
  destruct (py_get e k_set_url) as [vu|] eqn:Hvu; [|done]. simpl in Hk.
  destruct (method_strip (py_or vu (JStr []))) as [set_url|] eqn:Hu; [|done].
  simpl in Hk.
  destruct (py_get e k_set_name) as [vn|] eqn:Hvn; [|done]. simpl in Hk.
  destruct (method_strip (py_or vn (JStr []))) as [set_name|] eqn:Hn; [|done].
  simpl in Hk. injection Hk as <-.
  exists set_url, set_name, last. unfold field. rewrite Hvu, Hvn. simpl.
  split_and!; [done..| | |].
  - intros Hempty. rewrite Hiff. tauto.
  - intros Hne. rewrite Hiff. tauto.
  - intros h1 h2 r kr res' -> Hkr Hkne Hres'.
    destruct (eligible_entries_spec _ _ _ _ _ Hres')
      as (last' & Hlast' & _ & _ & Hall').
    destruct (Hall' e He) as (k' & Hk' & Hiff').
    assert (entry_key e
            = Ok (match set_url with [] => set_name | _ => set_url end))
      as Hkey by (unfold entry_key; by rewrite Hvu, Hvn; simpl; rewrite Hu, Hn).
    rewrite Hkey in Hk'. injection Hk' as <-.
    rewrite Hiff, Hiff'.
    by rewrite (index_from_skip timestamp_of _ kr r h1 h2 last last' Hkr Hkne
                  Hlast Hlast').
Qed.

(** C8.  Whenever the eligibility function returns, its result is the
    manifest filtered by the eligibility test, in manifest order: a
    subsequence of the manifest. *)
Theorem eligible_keeps_manifest_order (manifest history : list json)
    (threshold_days : Z) (now : datetime) (res : list json) :
  _eligible_entries manifest history threshold_days now = Ok res →
  ∃ last,
    index_from timestamp_of ∅ history = Ok last
    ∧ res = filter (λ e, eligible_entry last threshold_days now e = true)
              manifest
    ∧ res `sublist_of` manifest.
Proof.
  intros (last & Hlast & _ & -> & _)%eligible_entries_spec.
  exists last. split_and!; [done..|]. apply sublist_filter.
Qed.

Lemma index_from_ext (read1 read2 : json → result json) (history : list json) :
  (∀ h, h ∈ history → read1 h = read2 h) →
  ∀ last, index_from read1 last history = index_from read2 last history.
Proof.
  induction history as [|h history IH]; intros Hext last; [done|].
  cbn [index_from]. rewrite (Hext h) by apply list_elem_of_here.
  destruct (history_key h); [|done]. simpl.
  destruct (read2 h); [|done]. simpl.
  destruct (index_update last _ _); [|done]. simpl.
  apply IH. intros h' Hh'. apply Hext. by apply list_elem_of_further.
Qed.

(** C10.  On a history whose records have no [posted_at] field, the
    eligibility function of [rin_throwback_post.py] and that of
    [rin_throwback_tweet.py] give the same result (the same list, or the
    same exception), for every manifest, threshold and time. *)
Theorem legacy_history_same_eligibility (manifest history : list json)
    (threshold_days : Z) (now : datetime) :
  (∀ h d, h ∈ history → h = JDict d → dict_lookup k_posted_at d = None) →
  _eligible_entries manifest history threshold_days now
  = Tweet._eligible_entries manifest history threshold_days now.
Proof.
  intros Hlegacy. unfold _eligible_entries, Tweet._eligible_entries.
  rewrite (index_from_ext timestamp_of Tweet.timestamp_of history); [done|].
  intros h Hh. unfold timestamp_of, Tweet.timestamp_of.
  destruct h as [| | | | |d]; try done.
  simpl. by rewrite (Hlegacy (JDict d) d Hh eq_refl).
Qed.
End EligibilityProperties.

(** ** Examples of eligibility *)

Section EligibilityExamples.
Import Sample.

(** Posted exactly 90 calendar days ago: eligible again. *)
Example posted_90_days_ago_eligible :
  _eligible_entries [entry_a; entry_b] [posted_a_jan1] 90 now
  = Ok [entry_a; entry_b].
Proof. vm_compute. reflexivity. Qed.

(** Posted 89 calendar days ago, though more than 88 days and 23 hours
    before: not eligible. *)
Example posted_89_days_ago_not_eligible :
  _eligible_entries [entry_a; entry_b] [posted_a_jan1; posted_a_jan2] 90 now
  = Ok [entry_b].
Proof. vm_compute. reflexivity. Qed.

(** C2, as stated, fails: an entry without [set_url] and [set_name] has
    no history record, and is not eligible. *)
Lemma entry_without_key_not_eligible :
  ∃ res, _eligible_entries [entry_unnamed] [] 90 now = Ok res
         ∧ (∀ k t, ¬ recorded [] k t)
         ∧ entry_unnamed ∉ res.
Proof.
  exists []. split_and!.
  - vm_compute. reflexivity.
  - intros k t (h & ts & Hin & _). by apply elem_of_nil in Hin.
  - by intros ?%elem_of_nil.
Qed.

(** The threshold on the sample manifest: [entry_a], last posted 90 days
    before [now]. *)
Lemma eligible_iff_threshold_days_witness :
  _eligible_entries [entry_a; entry_b] [posted_a_jan1] 90 now
  = Ok [entry_a; entry_b]
  ∧ entry_a ∈ [entry_a; entry_b]
  ∧ entry_key entry_a = Ok url_a
  ∧ (url_a = [] → entry_a ∉ [entry_a; entry_b])
  ∧ (url_a ≠ [] → (∀ t, ¬ recorded [posted_a_jan1] url_a t) →
     entry_a ∈ [entry_a; entry_b])
  ∧ (url_a ≠ [] → (∃ t, recorded [posted_a_jan1] url_a t) →
     ∃ t, most_recent [posted_a_jan1] url_a t
          ∧ (entry_a ∈ [entry_a; entry_b] ↔ (90 ≤ _days_ago t now)%Z)).
Proof.
  assert (H1 : _eligible_entries [entry_a; entry_b] [posted_a_jan1] 90 now
               = Ok [entry_a; entry_b]) by (vm_compute; reflexivity).
  assert (H2 : entry_a ∈ [entry_a; entry_b]) by apply list_elem_of_here.
  assert (H3 : entry_key entry_a = Ok url_a) by (vm_compute; reflexivity).
  split; [exact H1|]. split; [exact H2|]. split; [exact H3|].
  exact (eligible_iff_threshold_days _ _ _ _ _ _ _ H1 H2 H3).
Defined.
End EligibilityExamples.

(** ** The atomic history write *)

Lemma split_on_plain (sep : char) (t : str) :
  Forall (λ c, c ≠ sep) t → split_on sep t = [t].
Proof.
  induction 1 as [|c t Hc _ IH]; [done|]. simpl.
  destruct (N.eqb_spec c sep); [done|]. by rewrite IH.
Qed.

Lemma split_on_app_plain (sep : char) (s t : str) :
  Forall (λ c, c ≠ sep) t →
  ∃ dirs name, split_on sep s = dirs ++ [name]
               ∧ split_on sep (s ++ t) = dirs ++ [name ++ t].
Proof.
  intros Ht. induction s as [|c s (dirs & name & Hs & Hst)].
  - exists [], []. simpl. by rewrite (split_on_plain sep t Ht).
  - simpl. destruct (c =? sep)%N.
    + exists ([] :: dirs), name. by rewrite Hs, Hst.
    + rewrite Hs, Hst. destruct dirs as [|d dirs].
      * by exists [], (c :: name).
      * by exists ((c :: d) :: dirs), name.
Qed.

Lemma tmp_path_differs (path : str) : path ++ lit ".tmp" ≠ path.
Proof.
  intros Heq. apply (f_equal length) in Heq.
  rewrite length_app in Heq. simpl in Heq. lia.
Qed.

Section AtomicWrite.
Context `{Runtime}.

(** A save that nothing interrupts. *)
Lemma save_json_completes (path : str) (data : json) (st : state) :
  st_kill st = None →
  _save_json path data st =
  match with_tmp_suffix path with
  | Ok tmp =>
      (Next tt,
       {| st_files :=
            <[path := json_dumps data ++ [newline]]> (delete tmp (st_files st));
          st_trace := st_trace st ++ (Fs <$> save_ops path tmp data);
          st_kill := None |})
  | Raise e =>
      (Uncaught e,
       {| st_files := st_files st;
          st_trace := st_trace st ++ [Fs (Mkdir (path_parent path))];
          st_kill := None |})
  end.
Proof.
  destruct st as [fls tr kill]. simpl. intros ->. unfold _save_json.
  destruct (with_tmp_suffix path) as [tmp|e];
    cbv [mbind run_bind fs lift apply_op st_files st_trace st_kill
         fmap option_fmap option_map]; [|done].
  rewrite !lookup_insert_eq. simpl.
  rewrite !delete_insert_eq. by rewrite <- !app_assoc.
Qed.
Ltac run_save H :=
  cbv [mbind run_bind fs lift apply_op st_files st_trace st_kill
       fmap option_fmap option_map] in H;
  rewrite ?lookup_insert_eq in H; simpl in H;
  rewrite ?lookup_insert_eq in H; simpl in H;
  injection H as <- <-; simpl.

Ltac not_among :=
  let Hin := fresh in
  intros Hin;
  repeat (apply elem_of_cons in Hin as [?|Hin]; [done|]);
  by apply elem_of_nil in Hin.

Ltac finish_save :=
  try done;
  first
    [ by (simpl; rewrite <- ?app_assoc, ?app_nil_r)
    | apply prefix_take
    | apply prefix_nil
    | intros _; split; [done|]; by rewrite lookup_insert_eq
    | intros _; split; [not_among|]; by rewrite ?lookup_insert_ne
    | intros _ _; split_and!; try done;
      by rewrite ?lookup_insert_eq, ?lookup_insert_ne ].

(** C4.  [_save_json] performs, in this order, the creation of the
    directory, the opening of [path.tmp] for writing, the writing of the
    JSON text and of a final newline to it, and the renaming of [path.tmp]
    over [path]; [path.tmp] lies in the directory of [path].  A save that
    completes leaves the new content at [path].  A save that does not
    complete, being killed after any number of these operations, has not
    renamed anything and leaves the content of [path] as it was; killed
    after the fourth operation, it leaves the whole new content at
    [path.tmp]. *)
Theorem save_json_is_atomic (path : str) (data : json) (st st' : state)
    (r : step unit) :
  _save_json path data st = (r, st') →
  let tmp := path ++ lit ".tmp" in
  let content := json_dumps data ++ [newline] in
  ∃ done : list fs_op,
    st_trace st' = st_trace st ++ (Fs <$> done)
    ∧ done `prefix_of` save_ops path tmp data
    ∧ (∃ dirs name, split_on 47 path = dirs ++ [name]
                    ∧ split_on 47 tmp = dirs ++ [name ++ lit ".tmp"])
    ∧ (r = Next tt →
       done = save_ops path tmp data ∧ st_files st' !! path = Some content)
    ∧ (r ≠ Next tt →
       (Replace tmp path ∉ done)
       ∧ st_files st' !! path = st_files st !! path)
    ∧ (path_name path ≠ [] → st_kill st = Some 4%nat →
       r = Killed ∧ length done = 4%nat
       ∧ st_files st' !! tmp = Some content
       ∧ st_files st' !! path = st_files st !! path).
Proof.
  intros Hrun tmp content.
  pose proof (tmp_path_differs path) as Hdiff. fold tmp in Hdiff.
  assert (Hsib : ∃ dirs name, split_on 47 path = dirs ++ [name]
                   ∧ split_on 47 tmp = dirs ++ [name ++ lit ".tmp"])
    by (apply split_on_app_plain; by repeat constructor).
  destruct st as [fls tr kill]. unfold _save_json, with_tmp_suffix in Hrun.
  destruct (path_name path) as [|c name] eqn:Hname.
  - destruct kill as [[|k]|]; run_save Hrun;
      [exists [] | exists (take 1 (save_ops path tmp data)) ..];
      split_and!; finish_save.
  - fold tmp in Hrun.
    destruct kill as [[|[|[|[|[|k]]]]]|]; run_save Hrun;
      [ exists (take 0 (save_ops path tmp data))
      | exists (take 1 (save_ops path tmp data))
      | exists (take 2 (save_ops path tmp data))
      | exists (take 3 (save_ops path tmp data))
      | exists (take 4 (save_ops path tmp data))
      | exists (save_ops path tmp data) .. ];
      split_and!; finish_save.
Qed.
End AtomicWrite.

(** ** Runs that only print *)

Lemma prints_only_ret {A} (codes : list Z) (a : A) : prints_only codes (mret a).
Proof.
  intros [fls tr kill] r st' [= <- <-]. split_and!; [|done..].
  exists []. by rewrite app_nil_r.
Qed.

Lemma prints_only_exit {A} (codes : list Z) (code : Z) :
  code ∈ codes → prints_only codes (exit code : run A).
Proof.
  intros Hin [fls tr kill] r st' [= <- <-]. split_and!; [|done|congruence].
  exists []. by rewrite app_nil_r.
Qed.

Lemma prints_only_lift {A} (codes : list Z) (x : result A) :
  prints_only codes (lift x).
Proof.
  intros [fls tr kill] r st'. unfold lift.
  destruct x; intros [= <- <-]; (split_and!; [|done..]);
    exists []; by rewrite app_nil_r.
Qed.

Lemma prints_only_files (codes : list Z) : prints_only codes files.
Proof.
  intros [fls tr kill] r st' [= <- <-]. split_and!; [|done..].
  exists []. by rewrite app_nil_r.
Qed.

Lemma prints_only_print (codes : list Z) (line : str) :
  prints_only codes (print line).
Proof.
  intros st r st' [= <- <-]. split_and!; [|done..].
  exists [Stdout line]. split; [by repeat constructor|done].
Qed.

Lemma prints_only_eprint (codes : list Z) (line : str) :
  prints_only codes (eprint line).
Proof.
  intros st r st' [= <- <-]. split_and!; [|done..].
  exists [Stderr line]. split; [by repeat constructor|done].
Qed.

Lemma prints_only_bind {A B} (codes : list Z) (m : run A) (f : A → run B) :
  prints_only codes m → (∀ a, prints_only codes (f a)) →
  prints_only codes (m ≫= f).
Proof.
  intros Hm Hf st r st'. unfold mbind, run_bind.
  destruct (m st) as [r1 st1] eqn:Hrun.
  destruct (Hm _ _ _ Hrun) as ((out1 & Hout1 & ->) & Hk & Hcodes).
  destruct r1 as [a|code|e|]; [|intros [= <- <-]..|done].
  - intros Hrun2.
    destruct (Hf a _ _ _ Hrun2) as ((out2 & Hout2 & ->) & Hk2 & Hcodes2).
    split_and!; [|done..]. exists (out1 ++ out2). simpl.
    split; [by apply Forall_app|]. by rewrite app_assoc.
  - split_and!; [by exists out1|done|]. intros code' [= <-]. by apply Hcodes.
  - split_and!; [by exists out1|done..].
Qed.

Create HintDb prints.

#[local] Hint Resolve prints_only_ret prints_only_lift prints_only_files
  prints_only_print prints_only_eprint : prints.

Ltac prints_only :=
  repeat first
    [ progress eauto with prints
    | apply prints_only_exit; by repeat constructor
    | apply prints_only_bind; [|intros]
    | case_match ].

(** The innermost test or call a hypothesis is waiting for. *)
Ltac inner_case H :=
  match type of H with
  | context [match ?x with _ => _ end] =>
      lazymatch x with
      | context [match _ with _ => _ end] => fail
      | _ => destruct x eqn:?
      end
  end.

Ltac run_red H :=
  cbv [mbind run_bind mret run_ret files exit lift emit print eprint
       st_files st_trace st_kill] in H.

Ltac run_cases H :=
  run_red H;
  repeat first [ discriminate H | inner_case H; run_red H ].

Section Prepare.
Context `{Runtime}.

Lemma load_json_prints_only (codes : list Z) (path : str) :
  prints_only codes (_load_json path).
Proof. unfold _load_json. prints_only. Qed.

Lemma load_history_prints_only (codes : list Z) (path : str) :
  prints_only codes (_load_history path).
Proof.
  unfold _load_history. prints_only; apply load_json_prints_only.
Qed.

Lemma choose_prints_only (a : args) (w : world) (manifest history : list json) :
  prints_only [3%Z] (choose a w manifest history).
Proof. unfold choose. prints_only. Qed.

Lemma prepare_prints_only (a : args) (w : world) :
  prints_only [2; 3; 4; 5; 9]%Z (prepare a w).
Proof.
  unfold prepare.
  assert (Hchoose : ∀ m h, prints_only [2; 3; 4; 5; 9]%Z (choose a w m h)).
  { intros m h st r st' Hrun.
    destruct (choose_prints_only a w m h st r st' Hrun) as (? & ? & Hc).
    split_and!; [done..|]. intros code ->. specialize (Hc code eq_refl).
    apply list_elem_of_singleton in Hc as ->. by repeat constructor. }
  prints_only; first [apply load_json_prints_only
                     |apply load_history_prints_only|apply Hchoose].
Qed.
Lemma load_json_same_state (path : str) (st st' : state) (r : step json) :
  _load_json path st = (r, st') → st' = st.
Proof.
  unfold _load_json, files, mbind, run_bind, lift, mret, run_ret.
  repeat case_match; by intros [= <- <-].
Qed.

Lemma load_history_same_state (path : str) (st st' : state)
    (r : step (list json)) :
  _load_history path st = (r, st') → st' = st.
Proof.
  unfold _load_history, files, mbind at 1, run_bind at 1.
  destruct (negb _); [by intros [= <- <-]|].
  unfold mbind, run_bind.
  destruct (_load_json path st) as [r1 st1] eqn:Hload.
  apply load_json_same_state in Hload as ->.
  destruct r1; by intros [= <- <-].
Qed.

(** What [prepare] hands over: the history it loaded at the start, and
    where it loaded it from. *)
Lemma prepare_plan (a : args) (w : world) (st st' : state) (p : plan) :
  prepare a w st = (Next p, st') →
  p_history_path p = resolve_history_path a (st_files st)
  ∧ _load_history (p_history_path p) st = (Next (p_history p), st).
Proof.
  intros Hrun. unfold prepare in Hrun. run_cases Hrun.
  injection Hrun as <- <-. simpl.
  repeat match goal with
         | Hl : _load_json _ _ = _ |- _ =>
             pose proof (load_json_same_state _ _ _ _ Hl); subst; clear Hl
         end.
  match goal with
  | Hl : _load_history _ _ = _ |- _ =>
      pose proof (load_history_same_state _ _ _ _ Hl); subst
  end.
  done.
Qed.
End Prepare.

(** ** The posts and the record *)

Ltac publish_cases H :=
  run_red H;
  repeat first
    [ discriminate H
    | rewrite save_json_completes in H by reflexivity
    | inner_case H; run_red H ].




Lemma output_not_bluesky (out : list event) :
  Forall (λ e, is_output e = true) out →
  Forall (λ e, is_bluesky e = false) out.
Proof. intros Hout. eapply Forall_impl; [exact Hout|]. by intros []. Qed.

Section Publish.
Context `{Runtime}.



End Publish.

(** ** The run orchestrator *)

Section Orchestrator.
Context `{Runtime}.




(** A failed selection ends [main] as it ends [choose]. *)
Lemma main_exits_with_choose (a : args) (w : world) (fls : gmap str str)
    (manifest history : list json) (code : Z) (st' : state) :
  file_exists fls (Path (a_manifest a)) = true →
  _load_json (Path (a_manifest a)) (start fls)
  = (Next (JList manifest), start fls) →
  _load_history (resolve_history_path a fls) (start fls)
  = (Next history, start fls) →
  choose a w manifest history (start fls) = (Exit code, st') →
  main a w (start fls) = (Exit code, st').
Proof.
  intros Hex Hm Hh Hc. unfold main, prepare.
  unfold mbind at 1 2, run_bind at 1 2, files at 1.
  change (st_files (start fls)) with fls. rewrite Hex. cbn [negb].
  unfold mbind at 1, run_bind at 1. rewrite Hm.
  unfold mbind at 1, run_bind at 1. rewrite Hh.
  unfold mbind at 1, run_bind at 1. by rewrite Hc.
Qed.

(** C9, as the code has it.  An override name that matches no entry and an
    empty eligible list both end the run with exit status 3; they differ by
    the diagnostic printed on the error stream. *)
Theorem selection_failures_exit_3 (a : args) (w : world) (fls : gmap str str)
    (manifest history : list json) :
  file_exists fls (Path (a_manifest a)) = true →
  _load_json (Path (a_manifest a)) (start fls)
  = (Next (JList manifest), start fls) →
  _load_history (resolve_history_path a fls) (start fls)
  = (Next history, start fls) →
  (∀ name, a_set_name a = Some name → name ≠ [] →
     matching (_normalized_set_name_for_match name) manifest = Ok [] →
     main a w (start fls)
     = (Exit 3, {| st_files := fls;
                   st_trace := [Stderr (no_such_name_message name)];
                   st_kill := None |}))
  ∧ (no_override a →
     _eligible_entries manifest history (a_threshold_days a) (w_now w) = Ok [] →
     main a w (start fls)
     = (Exit 3, {| st_files := fls;
                   st_trace := [Stderr (no_eligible_message (a_threshold_days a))];
                   st_kill := None |}))
  ∧ (∀ name threshold_days,
       no_such_name_message name ≠ no_eligible_message threshold_days).
Proof.
  intros Hex Hm Hh. split_and!.
  - intros name Hname Hne Hnone.
    apply (main_exits_with_choose a w fls manifest history); [done..|].
    unfold choose. rewrite Hname. destruct name as [|c name]; [done|].
    cbv [mbind run_bind lift]. by rewrite Hnone.
  - intros Ho Hnone.
    apply (main_exits_with_choose a w fls manifest history); [done..|].
    unfold choose, no_override in *.
    destruct (a_set_name a) as [[|c name]|]; try done;
      cbv [mbind run_bind lift]; by rewrite Hnone.
  - intros name threshold_days Heq. apply (f_equal head) in Heq.
    vm_compute in Heq. discriminate.
Qed.
End Orchestrator.

(** ** The properties on the sample inputs *)

Section SampleRuns.
Import Sample.

(** A record with the name of [entry_a] under another address does not
    keep [entry_a] from being eligible. *)
Example name_collision_ignored :
  _eligible_entries [entry_a; entry_b] [posted_alpha_elsewhere] 90 now
  = Ok [entry_a; entry_b].
Proof. vm_compute. reflexivity. Qed.

(** The identity key of [entry_a], last posted 89 days before [now]. *)
Lemma identity_key_is_url_then_name_witness :
  _eligible_entries [entry_a; entry_b] [posted_a_jan2] 90 now = Ok [entry_b]
  ∧ entry_a ∈ [entry_a; entry_b]
  ∧ ∃ set_url set_name last,
      field entry_a k_set_url = Ok set_url
      ∧ field entry_a k_set_name = Ok set_name
      ∧ index_from timestamp_of ∅ [posted_a_jan2] = Ok last
      ∧ let key := match set_url with [] => set_name | _ => set_url end in
        (key = [] → entry_a ∉ [entry_b])
        ∧ (key ≠ [] →
           (entry_a ∈ [entry_b] ↔ match last !! key with
                                  | None => True
                                  | Some t => (90 ≤ _days_ago t now)%Z
                                  end))
        ∧ ∀ h1 h2 r kr res',
            [posted_a_jan2] = h1 ++ h2 →
            history_key r = Ok kr → kr ≠ key →
            _eligible_entries [entry_a; entry_b] (h1 ++ r :: h2) 90 now
            = Ok res' →
            (entry_a ∈ res' ↔ entry_a ∈ [entry_b]).
Proof.
  assert (H1 : _eligible_entries [entry_a; entry_b] [posted_a_jan2] 90 now
               = Ok [entry_b]) by (vm_compute; reflexivity).
  assert (H2 : entry_a ∈ [entry_a; entry_b]) by apply list_elem_of_here.
  split; [exact H1|]. split; [exact H2|].
  exact (identity_key_is_url_then_name _ _ _ _ _ _ H1 H2).
Defined.

(** The order of a manifest of three entries, the second without key. *)
Lemma eligible_keeps_manifest_order_witness :
  _eligible_entries [entry_a; entry_unnamed; entry_b] [posted_a_jan1] 90 now
  = Ok [entry_a; entry_b]
  ∧ ∃ last,
      index_from timestamp_of ∅ [posted_a_jan1] = Ok last
      ∧ [entry_a; entry_b]
        = filter (λ e, eligible_entry last 90 now e = true)
            [entry_a; entry_unnamed; entry_b]
      ∧ [entry_a; entry_b] `sublist_of` [entry_a; entry_unnamed; entry_b].
Proof.
  assert (H1 : _eligible_entries [entry_a; entry_unnamed; entry_b]
                 [posted_a_jan1] 90 now = Ok [entry_a; entry_b])
    by (vm_compute; reflexivity).
  split; [exact H1|].
  exact (eligible_keeps_manifest_order _ _ _ _ _ H1).
Defined.

(** The two scripts on a history written by the older one. *)
Lemma legacy_history_same_eligibility_witness :
  (∀ h d, h ∈ [tweeted_b_mar1] → h = JDict d →
          dict_lookup k_posted_at d = None)
  ∧ _eligible_entries [entry_a; entry_b] [tweeted_b_mar1] 90 now
    = Tweet._eligible_entries [entry_a; entry_b] [tweeted_b_mar1] 90 now.
Proof.
  assert (H1 : ∀ h d, h ∈ [tweeted_b_mar1] → h = JDict d →
                      dict_lookup k_posted_at d = None).
  { intros h d Hin%list_elem_of_singleton Hd. subst h.
    injection Hd as <-. vm_compute. reflexivity. }
  split; [exact H1|].
  exact (legacy_history_same_eligibility _ _ _ _ H1).
Defined.

(** The legacy record counts: [entry_b], tweeted 30 days ago, is not
    eligible for either script. *)
Example legacy_record_counts :
  _eligible_entries [entry_a; entry_b] [tweeted_b_mar1] 90 now = Ok [entry_a]
  ∧ Tweet._eligible_entries [entry_a; entry_b] [tweeted_b_mar1] 90 now
    = Ok [entry_a].
Proof. split; vm_compute; reflexivity. Qed.

(** A process killed after the four operations that write the temporary
    file. *)
Lemma save_json_is_atomic_witness :
  let st := {| st_files := files; st_trace := []; st_kill := Some 4%nat |} in
  let path := lit "post_history.json" in
  let data := JList [posted_a_jan2; posted_a_jan1] in
  let st' := snd (_save_json path data st) in
  _save_json path data st = (Killed, st')
  ∧ st_files st' !! path = files !! path
  ∧ st_files st' !! (path ++ lit ".tmp") = Some (json_dumps data ++ [newline]).
Proof.
  intros st path data st'.
  assert (H1 : _save_json path data st = (Killed, st'))
    by (vm_compute; reflexivity).
  split; [exact H1|].
  destruct (save_json_is_atomic path data st st' Killed H1)
    as (done & _ & _ & _ & _ & _ & Hkill).
  destruct Hkill as (_ & _ & Htmp & Hpath);
    [vm_compute; discriminate|reflexivity|].
  split; [exact Hpath|exact Htmp].
Defined.




(** The history a second run loads after the first: the record of
    2024-01-02 it had, then the record of the run. *)
Example history_after_a_run :
  let st' := snd (main args_default world_fine (start files)) in
  _load_history (lit "post_history.json") (start (st_files st'))
  = (Next [posted_a_jan2;
           post_record now
             {| f_filename := lit "beta.jpg";
                f_set_name := lit "Beta";
                f_set_url := url_b;
                f_date_published := lit "2021-11-02T09:30:00";
                f_tags := lit "#beta" |}
             (JStr (lit "1800"))
             (Some (lit "at://did:plc:rin/app.bsky.feed.post/3kq"))
             (Some (lit "https://bsky.app/profile/rin.bsky.social/post/3kq"))],
     start (st_files st')).
Proof. vm_compute. reflexivity. Qed.


(** C9, as stated, fails: the run whose override name matches nothing and
    the run without eligible entry return the same exit status, 3. *)
Lemma selection_failures_same_exit_status :
  main args_unknown_name world_fine (start files)
  = (Exit 3, {| st_files := files;
                st_trace := [Stderr (no_such_name_message (lit "Gamma"))];
                st_kill := None |})
  ∧ main args_default world_fine (start files_all_recent)
    = (Exit 3, {| st_files := files_all_recent;
                  st_trace := [Stderr (no_eligible_message 90)];
                  st_kill := None |})
  ∧ fst (main args_unknown_name world_fine (start files))
    = fst (main args_default world_fine (start files_all_recent)).
Proof. split_and!; vm_compute; reflexivity. Qed.

(** The run with [--set-name Gamma]. *)
Lemma selection_failures_exit_3_witness :
  file_exists files (Path (a_manifest args_unknown_name)) = true
  ∧ _load_json (Path (a_manifest args_unknown_name)) (start files)
    = (Next (JList [entry_a; entry_b]), start files)
  ∧ _load_history (resolve_history_path args_unknown_name files) (start files)
    = (Next [posted_a_jan2], start files)
  ∧ main args_unknown_name world_fine (start files)
    = (Exit 3, {| st_files := files;
                  st_trace := [Stderr (no_such_name_message (lit "Gamma"))];
                  st_kill := None |}).
Proof.
  assert (H1 : file_exists files (Path (a_manifest args_unknown_name)) = true)
    by (vm_compute; reflexivity).
  assert (H2 : _load_json (Path (a_manifest args_unknown_name)) (start files)
               = (Next (JList [entry_a; entry_b]), start files))
    by (vm_compute; reflexivity).
  assert (H3 : _load_history (resolve_history_path args_unknown_name files)
                 (start files)
               = (Next [posted_a_jan2], start files))
    by (vm_compute; reflexivity).
  split; [exact H1|]. split; [exact H2|]. split; [exact H3|].
  destruct (selection_failures_exit_3 args_unknown_name world_fine files
              [entry_a; entry_b] [posted_a_jan2] H1 H2 H3) as (Hname & _ & _).
  apply (Hname (lit "Gamma")).
  - reflexivity.
  - discriminate.
  - vm_compute. reflexivity.
Defined.
End SampleRuns.

(** * Further properties *)

(** ** More on strings *)

Lemma lstrip_snoc (l : str) (c : char) :
  isspace c = false → lstrip (l ++ [c]) = lstrip l ++ [c].
Proof.
  intros Hc. induction l as [|d l IH]; simpl.
  - by rewrite Hc.
  - by destruct (isspace d).
Qed.

Lemma lstrip_head (s : str) (c : char) (s' : str) :
  lstrip s = c :: s' → isspace c = false.
Proof.
  induction s as [|d s IH]; simpl; [done|].
  destruct (isspace d) eqn:Hd; [done|]. by intros [= <- _].
Qed.

Lemma lstrip_fixed (c : char) (s : str) :
  isspace c = false → lstrip (c :: s) = c :: s.
Proof. intros Hc. simpl. by rewrite Hc. Qed.

Lemma lstrip_idem (s : str) : lstrip (lstrip s) = lstrip s.
Proof.
  destruct (lstrip s) as [|c s'] eqn:Hs; [done|].
  apply lstrip_fixed. by eapply lstrip_head.
Qed.

Lemma rstrip_cons (c : char) (s : str) :
  isspace c = false → rstrip (c :: s) = c :: rstrip s.
Proof.
  intros Hc. unfold rstrip. simpl. rewrite lstrip_snoc by done.
  by rewrite rev_app_distr.
Qed.

Lemma lstrip_strip (s : str) : lstrip (strip s) = strip s.
Proof.
  unfold strip. destruct (lstrip s) as [|c s'] eqn:Hs; [done|].
  apply lstrip_head in Hs. rewrite rstrip_cons by done.
  by apply lstrip_fixed.
Qed.

Lemma rstrip_idem (s : str) : rstrip (rstrip s) = rstrip s.
Proof. unfold rstrip. by rewrite rev_involutive, lstrip_idem. Qed.

Lemma strip_idem (s : str) : strip (strip s) = strip s.
Proof.
  unfold strip at 1. rewrite lstrip_strip. unfold strip.
  apply rstrip_idem.
Qed.

Lemma lstrip_take (n : nat) (s : str) :
  lstrip s = s → lstrip (take n s) = take n s.
Proof.
  destruct s as [|c s]; [by rewrite take_nil|].
  intros Hs. destruct n as [|n]; [done|].
  simpl. assert (isspace c = false) as -> by by eapply lstrip_head.
  done.
Qed.

(** ** Typographic quotes *)

Lemma normalize_quotes_cons (c : char) (s : str) :
  _normalize_quotes (c :: s) = straight_quote c :: _normalize_quotes s.
Proof.
  unfold _normalize_quotes, replace_char. rewrite !fmap_cons. f_equal.
  unfold straight_quote. cbn [existsb].
  repeat match goal with
         | |- context [(c =? ?a)%N] =>
             destruct (N.eqb_spec c a) as [->|?]; [by vm_compute|]
         end.
  by vm_compute.
Qed.

Lemma normalize_quotes_fmap (text : str) :
  _normalize_quotes text = straight_quote <$> text.
Proof.
  induction text as [|c s IH]; [done|].
  by rewrite normalize_quotes_cons, IH.
Qed.

Lemma straight_quote_plain (c : char) :
  straight_quote c ∉ typographic_quotes.
Proof.
  unfold straight_quote. cbn [existsb].
  repeat match goal with
         | |- context [(c =? ?a)%N] =>
             destruct (N.eqb_spec c a) as [->|?];
             [by apply (bool_decide_unpack _); vm_compute|]
         end.
  cbn [orb]. unfold typographic_quotes.
  rewrite !elem_of_cons, elem_of_nil. intuition congruence.
Qed.

Lemma straight_quote_idem (c : char) :
  straight_quote (straight_quote c) = straight_quote c.
Proof.
  pose proof (straight_quote_plain c) as Hc.
  generalize dependent (straight_quote c). intros d Hd.
  unfold typographic_quotes in Hd.
  rewrite !elem_of_cons, elem_of_nil in Hd.
  unfold straight_quote. cbn [existsb].
  repeat match goal with
         | |- context [(d =? ?a)%N] =>
             destruct (N.eqb_spec d a) as [->|?]; [exfalso; tauto|]
         end.
  done.
Qed.

(** X1.  [_normalize_quotes] replaces each of the nine typographic quotes
    by its straight form, code point by code point, and keeps every other
    code point: the length of the text is kept, no typographic quote
    remains, and normalising twice is normalising once. *)
Theorem normalize_quotes_straightens (text : str) :
  _normalize_quotes text = straight_quote <$> text
  ∧ length (_normalize_quotes text) = length text
  ∧ Forall (λ c, c ∉ typographic_quotes) (_normalize_quotes text)
  ∧ _normalize_quotes (_normalize_quotes text) = _normalize_quotes text.
Proof.
  rewrite !normalize_quotes_fmap. split_and!.
  - done.
  - by rewrite length_fmap.
  - apply Forall_fmap, Forall_forall. intros c _. apply straight_quote_plain.
  - rewrite <- list_fmap_compose. apply list_fmap_ext.
    intros _ c _. apply straight_quote_idem.
Qed.

(** ** The rendered text *)

Section Rendering.
Context `{Runtime}.

(** X2.  For a limit [max_len] that is not negative, the text
    [_render_post_text] returns is the first [max_len] code points of the
    stripped rendering of the template: it is never longer than [max_len],
    it does not start with white space, and it is the whole stripped
    rendering when that fits. *)
Theorem render_post_text_within_limit (fls : gmap str str)
    (template_path : str) (ctx : context) (max_len : Z) (out : str) :
  (0 ≤ max_len)%Z →
  _render_post_text fls template_path ctx max_len = Done out →
  (len out ≤ max_len)%Z
  ∧ lstrip out = out
  ∧ ∃ text rendered,
      fls !! template_path = Some text
      ∧ jinja_render text ctx = Done rendered
      ∧ out = take (Z.to_nat max_len) (strip rendered)
      ∧ ((len (strip rendered) ≤ max_len)%Z → out = strip rendered).
Proof.
  intros Hmax. unfold _render_post_text.
  destruct jinja2_installed; [|done]. simpl.
  destruct (fls !! template_path) as [text|]; [|done].
  destruct (jinja_render text ctx) as [rendered|] eqn:Hrender; [|done].
  assert (take (Z.to_nat max_len) (strip rendered) = out →
          (len out ≤ max_len)%Z ∧ lstrip out = out) as Hout.
  { intros <-. split.
    - unfold len. rewrite length_take. lia.
    - apply lstrip_take, lstrip_strip. }
  destruct (Z.ltb_spec max_len (len (strip rendered))) as [Hlong|Hshort];
    intros [= <-]; unfold len in *.
  - destruct (Hout eq_refl) as [Hlen Hlead]. split; [done|]. split; [done|].
    exists text, rendered. split_and!; try done. lia.
  - assert (take (Z.to_nat max_len) (strip rendered) = strip rendered) as Htake
      by (apply take_ge; lia).
    destruct (Hout Htake) as [Hlen Hlead]. split; [done|]. split; [done|].
    exists text, rendered. by split_and!.
Qed.
End Rendering.

(** ** The fitted tags stay within the limit *)

(** X3.  Whenever [_fit_tags] returns tags, [base], a blank line and these
    tags stay within [max_len]. *)
Theorem fit_tags_within_limit (base tags : str) (max_len : Z) :
  _fit_tags base tags max_len ≠ [] →
  (len (base ++ two_newlines ++ _fit_tags base tags max_len) ≤ max_len)%Z.
Proof.
  unfold _fit_tags.
  destruct (strip tags) as [|c stripped] eqn:Hstrip; [done|].
  destruct (Z.leb_spec (len (base ++ two_newlines ++ c :: stripped)) max_len)
    as [Hfit|Hover]; [done|].
  destruct (fit_loop_spec base max_len
              (List.filter (startswith hash_sign) (split (c :: stripped))) [])
    as (new & rest & _ & -> & Hfits & _).
  simpl. intros Hnew.
  destruct new as [|t new]; [done|].
  specialize (Hfits (length (t :: new))).
  rewrite firstn_all in Hfits. apply Hfits. simpl. lia.
Qed.

(** ** The web address of a Bluesky post *)

Lemma has_prefix_spec (prefix s : str) :
  has_prefix prefix s = true ↔ ∃ rest, s = prefix ++ rest.
Proof.
  revert s. induction prefix as [|a prefix IH]; intros s; simpl.
  - split; [by exists s|done].
  - destruct s as [|b s].
    + split; [done|]. by intros [? ?].
    + rewrite andb_true_iff, N.eqb_eq, IH. split.
      * intros [-> [rest ->]]. by exists rest.
      * intros [rest [= -> ->]]. split; [done|]. by exists rest.
Qed.

Lemma split_on_not_nil (sep : char) (s : str) : split_on sep s ≠ [].
Proof.
  induction s as [|c s IH]; [done|]. simpl.
  destruct (c =? sep)%N; [done|]. by destruct (split_on sep s).
Qed.

Lemma split_on_spec (sep : char) (s : str) :
  s = join [sep] (split_on sep s)
  ∧ Forall (Forall (λ c, c ≠ sep)) (split_on sep s).
Proof.
  induction s as [|c s [IHj IHf]]; [by repeat constructor|]. simpl.
  destruct (N.eqb_spec c sep) as [->|Hc].
  - split.
    + destruct (split_on sep s) eqn:Hs; [by apply split_on_not_nil in Hs|].
      simpl. by rewrite IHj at 1.
    + by repeat constructor.
  - destruct (split_on sep s) as [|piece pieces] eqn:Hs;
      [by apply split_on_not_nil in Hs|].
    apply Forall_cons in IHf as [Hpiece Hpieces]. split.
    + rewrite IHj at 1. by destruct pieces.
    + by repeat constructor.
Qed.

Lemma split_on_join (sep : char) (pieces : list str) :
  pieces ≠ [] → Forall (Forall (λ c, c ≠ sep)) pieces →
  split_on sep (join [sep] pieces) = pieces.
Proof.
  induction pieces as [|p pieces IH]; [done|]. intros _ Hall.
  apply Forall_cons in Hall as [Hp Hall].
  destruct pieces as [|q pieces].
  - simpl. by apply split_on_plain.
  - specialize (IH ltac:(done) Hall).
    change (join [sep] (p :: q :: pieces))
      with (p ++ [sep] ++ join [sep] (q :: pieces)).
    generalize dependent (join [sep] (q :: pieces)). intros rest IH.
    induction Hp as [|c p Hc Hp IHp].
    + simpl. rewrite N.eqb_refl. by rewrite IH.
    + simpl. apply N.eqb_neq in Hc. rewrite Hc.
      simpl in IHp. by rewrite IHp.
Qed.

(** X4.  [_bluesky_web_url_from_at_uri] returns an address exactly for an
    AT URI [at://<authority>/app.bsky.feed.post/<rkey>] whose authority and
    record key hold no slash and whose record key is not empty; the
    address is [https://bsky.app/profile/<profile_ref>/post/<rkey>],
    whatever the authority, which may be empty. *)
Theorem bluesky_web_url_iff (at_uri profile_ref url : str) :
  _bluesky_web_url_from_at_uri at_uri profile_ref = Some url ↔
  ∃ authority rkey,
    at_uri = lit "at://" ++ authority ++ lit "/app.bsky.feed.post/" ++ rkey
    ∧ (slash ∉ authority) ∧ (slash ∉ rkey) ∧ rkey ≠ []
    ∧ url = lit "https://bsky.app/profile/" ++ profile_ref
            ++ lit "/post/" ++ rkey.
Proof.
  unfold _bluesky_web_url_from_at_uri, slash.
  assert (lit "/app.bsky.feed.post/"
          = [47%N] ++ lit "app.bsky.feed.post" ++ [47%N]) as Hlit
    by reflexivity.
  split.
  - destruct (has_prefix (lit "at://") at_uri) eqn:Hprefix; [|done].
    apply has_prefix_spec in Hprefix as [rest ->].
    rewrite drop_app_length. cbn [negb].
    pose proof (split_on_spec 47%N rest) as [Hjoin Hplain].
    destruct (split_on 47 rest) as [|authority [|collection [|rkey [|]]]];
      try done.
    case_bool_decide as Hcollection; [|done]. cbn [negb orb].
    destruct rkey as [|c rkey]; [done|]. intros [= <-].
    exists authority, (c :: rkey).
    apply Forall_cons in Hplain as [Ha Hplain].
    apply Forall_cons in Hplain as [_ Hplain].
    apply Forall_cons in Hplain as [Hr _].
    split_and!; try done.
    + rewrite Hjoin, Hcollection, Hlit. cbn [join].
      by rewrite <- !app_assoc.
    + rewrite Forall_forall in Ha. intros Hin. by apply (Ha _ Hin).
    + rewrite Forall_forall in Hr. intros Hin. by apply (Hr _ Hin).
  - intros (authority & rkey & -> & Ha & Hr & Hne & ->).
    assert (has_prefix (lit "at://")
              (lit "at://" ++ authority ++ lit "/app.bsky.feed.post/" ++ rkey)
            = true) as -> by (apply has_prefix_spec; eauto).
    rewrite drop_app_length. cbn [negb].
    replace (authority ++ lit "/app.bsky.feed.post/" ++ rkey)
      with (join [47%N] [authority; lit "app.bsky.feed.post"; rkey])
      by (rewrite Hlit; cbn [join]; by rewrite <- !app_assoc).
    rewrite split_on_join; [|done|].
    + rewrite bool_decide_eq_true_2 by done. cbn [negb orb].
      by destruct rkey.
    + apply Forall_cons; split; [|apply Forall_cons; split;
                                    [|apply Forall_cons; split; [|done]]].
      * apply Forall_forall. intros c Hc ->. by apply Ha.
      * by apply (bool_decide_unpack _); vm_compute.
      * apply Forall_forall. intros c Hc ->. by apply Hr.
Qed.

(** ** Link facets *)

Lemma encode_utf8_app (a b : str) :
  encode_utf8 (a ++ b)
  = match encode_utf8 a, encode_utf8 b with
    | Ok x, Ok y => Ok (x ++ y)
    | Raise e, _ => Raise e
    | Ok _, Raise e => Raise e
    end.
Proof.
  induction a as [|c a IH]; simpl.
  - by destruct (encode_utf8 b).
  - destruct (utf8_char c) as [bytes|]; simpl; [|done].
    rewrite IH. destruct (encode_utf8 a), (encode_utf8 b); simpl; try done.
    by rewrite app_assoc.
Qed.



Lemma encode_utf8_ascii (s : str) :
  Forall (λ c, (c < 128)%N) s → encode_utf8 s = Ok s.
Proof.
  induction 1 as [|c s Hc _ IH]; [done|]. simpl. unfold utf8_char.
  apply N.ltb_lt in Hc. rewrite Hc. simpl. by rewrite IH.
Qed.

Lemma encode_utf8_returns (s : str) :
  Forall (λ c, ¬ (55296 ≤ c ≤ 57343)%N) s → ∃ bytes, encode_utf8 s = Ok bytes.
Proof.
  induction 1 as [|c s Hc _ [bytes IH]]; [by eexists|]. simpl.
  rewrite IH. unfold utf8_char.
  destruct (c <? 128)%N; [by eexists|].
  destruct (c <? 2048)%N; [by eexists|].
  destruct (N.leb_spec 55296 c), (N.leb_spec c 57343); simpl;
    try (exfalso; apply Hc; lia);
    destruct (c <? 65536)%N; by eexists.
Qed.

Lemma nonspace_run_spec (s : str) :
  ∃ rest, s = nonspace_run s ++ rest
          ∧ Forall (λ c, isspace c = false) (nonspace_run s).
Proof.
  induction s as [|c s (rest & IH & Hrun)]; [by exists []|]. simpl.
  destruct (isspace c) eqn:Hc.
  - by exists (c :: s).
  - exists rest. split; [by rewrite IH at 1|by constructor].
Qed.

Lemma match_url_spec (s found : str) :
  match_url s = Some found →
  ∃ scheme body rest,
    found = scheme ++ body ∧ s = found ++ rest
    ∧ (scheme = lit "http://" ∨ scheme = lit "https://")
    ∧ body ≠ [] ∧ Forall (λ c, isspace c = false) body.
Proof.
  unfold match_url.
  assert (∀ scheme,
            has_prefix scheme s = true →
            match nonspace_run (drop (length scheme) s) with
            | [] => None
            | rest => Some (scheme ++ rest)
            end = Some found →
            ∃ body rest, found = scheme ++ body ∧ s = found ++ rest
                         ∧ body ≠ [] ∧ Forall (λ c, isspace c = false) body)
    as Hscheme.
  { intros scheme [tail ->]%has_prefix_spec. rewrite drop_app_length.
    destruct (nonspace_run_spec tail) as (rest & Htail & Hrun).
    destruct (nonspace_run tail) as [|c body] eqn:Hbody; [done|].
    intros [= <-]. exists (c :: body), rest.
    split_and!; try done. rewrite Htail at 1. by rewrite <- app_assoc. }
  destruct (has_prefix (lit "https://") s) eqn:Hs.
  - intros (body & rest & ? & ? & ? & ?)%Hscheme; [|done].
    exists (lit "https://"), body, rest. split_and!; auto.
  - destruct (has_prefix (lit "http://") s) eqn:Hp; [|done].
    intros (body & rest & ? & ? & ? & ?)%Hscheme; [|done].
    exists (lit "http://"), body, rest. split_and!; auto.
Qed.

Lemma lstrip_chars_spec (chars s : str) :
  ∃ removed, s = removed ++ lstrip_chars chars s
             ∧ ∀ c, head (lstrip_chars chars s) = Some c →
                    existsb (N.eqb c) chars = false.
Proof.
  induction s as [|c s (removed & IH & Hhead)]; [by exists []|]. simpl.
  destruct (existsb (N.eqb c) chars) eqn:Hc.
  - exists (c :: removed). split; [by rewrite IH at 1|done].
  - exists []. split; [done|]. by intros ? [= <-].
Qed.

Lemma lstrip_chars_keeps (chars l r : str) (c : char) :
  existsb (N.eqb c) chars = false →
  ∃ l', lstrip_chars chars (l ++ c :: r) = l' ++ c :: r.
Proof.
  intros Hc. induction l as [|d l [l' IH]]; simpl.
  - rewrite Hc. by exists [].
  - destruct (existsb (N.eqb d) chars); [by exists l'|by exists (d :: l)].
Qed.

Lemma last_rev {A} (l : list A) : last (rev l) = head l.
Proof. destruct l as [|x l]; [done|]. simpl. by rewrite last_snoc. Qed.

Lemma rstrip_chars_spec (chars s : str) :
  ∃ removed, s = rstrip_chars chars s ++ removed
             ∧ ∀ c, last (rstrip_chars chars s) = Some c →
                    existsb (N.eqb c) chars = false.
Proof.
  unfold rstrip_chars.
  destruct (lstrip_chars_spec chars (rev s)) as (removed & Hs & Hhead).
  exists (rev removed). split.
  - rewrite <- rev_app_distr, <- Hs. by rewrite rev_involutive.
  - intros c. rewrite last_rev. apply Hhead.
Qed.

Lemma rstrip_chars_keeps (chars p body : str) (c : char) :
  existsb (N.eqb c) chars = false →
  ∃ body', rstrip_chars chars (p ++ c :: body) = p ++ c :: body'.
Proof.
  intros Hc. unfold rstrip_chars.
  rewrite rev_app_distr. simpl. rewrite <- app_assoc. simpl.
  destruct (lstrip_chars_keeps chars (rev body) (rev p) c Hc) as [l' ->].
  exists (rev l'). rewrite rev_app_distr. simpl.
  by rewrite rev_involutive, <- app_assoc.
Qed.

Lemma finditer_from_matches (text : str) (s : str) :
  ∀ skip start before,
    text = before ++ s → length before = start →
    Forall (match_in text) (finditer_from skip start s).
Proof.
  induction s as [|c s IH]; intros skip start before Htext Hlen; [done|].
  assert (Forall (match_in text) (finditer_from 0 (S start) s)
          ∧ ∀ k, Forall (match_in text) (finditer_from k (S start) s))
    as [Hnext Hskip].
  { split; [|intros k]; apply (IH _ _ (before ++ [c]));
      rewrite <- ?app_assoc, ?length_app; simpl; try done; lia. }
  simpl. destruct skip as [|skip]; [|done].
  destruct (match_url (c :: s)) as [found|] eqn:Hfound; [|done].
  constructor; [|done].
  destruct (match_url_spec _ _ Hfound) as (_ & _ & rest & _ & Hs & _).
  exists before, rest. simpl. by rewrite <- Hs.
Qed.


Lemma finditer_from_nil (s : str) (start : nat) :
  finditer_from 0 start s = [] ↔ ∀ a b, s = a ++ b → match_url b = None.
Proof.
  revert start. induction s as [|c s IH]; intros start; simpl.
  - split; [|done]. intros _ a b Hab. symmetry in Hab.
    apply app_eq_nil in Hab as [_ ->]. done.
  - destruct (match_url (c :: s)) as [found|] eqn:Hfound.
    + split; [done|]. intros Hnone. specialize (Hnone [] (c :: s) eq_refl).
      congruence.
    + rewrite IH. split.
      * intros Hnone [|d a] b Hab; simpl in Hab; [by subst|].
        injection Hab as _ ->. by eapply Hnone.
      * intros Hnone a b ->. by apply (Hnone (c :: a) b).
Qed.

Lemma existsb_eqb_elem_of (c : char) (l : str) :
  existsb (N.eqb c) l = true ↔ c ∈ l.
Proof.
  induction l as [|d l IH]; simpl.
  - split; [done|]. by intros ?%elem_of_nil.
  - rewrite orb_true_iff, N.eqb_eq, IH, elem_of_cons. done.
Qed.

Lemma facet_at_of (text : str) (m : nat * str) (f : facet) :
  facet_at text m f → facet_of text f.
Proof.
  intros (before & after & bb & bu & ? & ? & ? & ? & ? & ? & ? & ? & ? & ?).
  exists before, after, bb, bu. by split_and!.
Qed.

Lemma link_facet_spec (text : str) (m : nat * str) (o : option facet) :
  match_in text m → link_facet text m.1 m.2 = Ok o →
  ∃ f, o = Some f ∧ facet_at text m f.
Proof.
  destruct m as [start raw]. simpl.
  intros (before & after & Htext & Hlen & Hfound). simpl in *.
  destruct (match_url_spec _ _ Hfound)
    as (scheme & body & _ & Hraw & _ & Hscheme & Hbody & Hplain).
  assert (∃ p, scheme = p ++ [47%N]
               ∧ Forall (λ c, isspace c = false) scheme
               ∧ (has_prefix (lit "http://") scheme = true
                  ∨ has_prefix (lit "https://") scheme = true))
    as (p & Hp & Hschemeplain & Hhas).
  { destruct Hscheme as [-> | ->].
    - exists (lit "http:/"). split_and!; [done| |by left].
      by apply (bool_decide_unpack _); vm_compute.
    - exists (lit "https:/"). split_and!; [done| |by right].
      by apply (bool_decide_unpack _); vm_compute. }
  unfold link_facet.
  destruct (rstrip_chars_spec (lit ".,;:!?)]}") raw) as (removed & Hurl & Hlast).
  destruct (rstrip_chars_keeps (lit ".,;:!?)]}") p body 47%N eq_refl)
    as [body' Hkeeps].
  assert (raw = p ++ 47%N :: body) as Hrawp.
  { rewrite Hraw, Hp. by rewrite <- app_assoc. }
  set (url := rstrip_chars (lit ".,;:!?)]}") raw) in *.
  assert (url = scheme ++ body') as Hurlscheme.
  { unfold url. rewrite Hrawp at 1. rewrite Hp, <- app_assoc. exact Hkeeps. }
  destruct url as [|c url'] eqn:Hurl'.
  { rewrite Hp in Hurlscheme. by destruct p. }
  cbn [is_empty]. rewrite <- Hurl'. rewrite <- Hurl' in Hurlscheme, Hurl, Hlast.
  clear Hurl' Hkeeps. simpl.
  assert (take start text = before) as ->.
  { rewrite Htext. by apply take_app_length'. }
  assert (take (start + length url) text = before ++ url) as ->.
  { rewrite Htext, Hurl, <- !app_assoc, app_assoc.
    apply take_app_length'. rewrite length_app. lia. }
  rewrite encode_utf8_app.
  destruct (encode_utf8 before) as [bb|] eqn:Hbb; simpl; [|done].
  destruct (encode_utf8 url) as [bu|] eqn:Hbu; simpl; [|done].
  intros [= <-]. eexists. split; [done|].
  exists before, (removed ++ after), bb, bu. simpl.
  assert (Forall (λ c, isspace c = false) raw) as Hrawplain.
  { rewrite Hraw. by apply Forall_app. }
  split_and!; try done.
  - by rewrite Htext, Hurl, <- app_assoc.
  - rewrite Hurlscheme, length_app. destruct Hscheme as [-> | ->]; simpl; lia.
  - pose proof (f_equal length Hurl) as Hlength.
    rewrite length_app in Hlength. lia.
  - by rewrite length_app.
  - rewrite Hurlscheme. destruct Hscheme as [-> | ->]; [left|right];
      apply has_prefix_spec; eauto.
  - rewrite Hurl in Hrawplain. by apply Forall_app in Hrawplain as [? _].
  - intros d Hd. apply Hlast in Hd. unfold trailing_punctuation.
    rewrite <- existsb_eqb_elem_of. by rewrite Hd.
Qed.

Lemma link_facets_spec (text : str) (matches : list (nat * str)) :
  Forall (match_in text) matches →
  ∀ facets, link_facets text matches = Ok facets →
            Forall2 (facet_at text) matches facets.
Proof.
  induction 1 as [|[start raw] matches Hm _ IH]; intros facets; simpl.
  - intros [= <-]. constructor.
  - destruct (link_facet text start raw) as [o|] eqn:Ho; simpl; [|done].
    destruct (link_facets text matches) as [fs|]; simpl; [|done].
    destruct (link_facet_spec text (start, raw) o Hm Ho) as (f & -> & Hf).
    intros [= <-]. constructor; [done|]. by apply IH.
Qed.



Lemma link_facets_of_text (text : str) (js : list json) :
  _bluesky_link_facets text = Ok js →
  ∃ facets, js = facet_json <$> facets
            ∧ Forall2 (facet_at text) (finditer_urls text) facets.
Proof.
  unfold _bluesky_link_facets.
  destruct (link_facets text (finditer_urls text)) as [facets|] eqn:Hfacets;
    simpl; [|done].
  intros [= <-]. exists facets. split; [done|].
  eapply link_facets_spec; [|done].
  by apply (finditer_from_matches text text 0 0 []).
Qed.

Lemma link_facets_returns (text : str) (matches : list (nat * str)) :
  Forall (λ c, ¬ (55296 ≤ c ≤ 57343)%N) text →
  ∃ facets, link_facets text matches = Ok facets.
Proof.
  intros Htext. induction matches as [|[start raw] matches [facets IH]];
    [by eexists|].
  simpl. unfold link_facet.
  destruct (is_empty _); simpl.
  - rewrite IH. by eexists.
  - destruct (encode_utf8_returns (take start text)) as [bs ->];
      [by apply Forall_take|].
    simpl.
    destruct (encode_utf8_returns
                (take (start + length (rstrip_chars (lit ".,;:!?)]}") raw))
                   text)) as [be ->]; [by apply Forall_take|].
    simpl. rewrite IH. by eexists.
Qed.

Lemma match_url_none (s : str) :
  match_url s = None ↔
  ∀ scheme c after,
    s = scheme ++ c :: after →
    scheme = lit "http://" ∨ scheme = lit "https://" → isspace c = true.
Proof.
  split.
  - intros Hnone scheme c after -> Hscheme.
    destruct (isspace c) eqn:Hc; [done|]. exfalso.
    unfold match_url in Hnone.
    destruct Hscheme as [-> | ->].
    + assert (has_prefix (lit "https://") (lit "http://" ++ c :: after)
              = false) as Hs by by vm_compute.
      assert (has_prefix (lit "http://") (lit "http://" ++ c :: after)
              = true) as Hp by (apply has_prefix_spec; eauto).
      rewrite Hs, Hp, drop_app_length in Hnone. simpl in Hnone.
      by rewrite Hc in Hnone.
    + assert (has_prefix (lit "https://") (lit "https://" ++ c :: after)
              = true) as Hs by (apply has_prefix_spec; eauto).
      rewrite Hs, drop_app_length in Hnone. simpl in Hnone.
      by rewrite Hc in Hnone.
  - intros Hspace. destruct (match_url s) as [found|] eqn:Hfound; [|done].
    destruct (match_url_spec _ _ Hfound)
      as (scheme & body & rest & -> & -> & Hscheme & Hbody & Hplain).
    destruct body as [|c body]; [done|].
    apply Forall_cons in Hplain as [Hc _].
    rewrite (Hspace scheme c (body ++ rest)) in Hc; [done| |done].
    by rewrite <- app_assoc.
Qed.

(** X5.  Every facet [_bluesky_link_facets] returns is a link of the text:
    its address starts with [http://] or [https://], holds no white space,
    does not end with one of [.,;:!?)]}], and stands in the text at the
    bytes [byteStart] to [byteEnd] of its UTF-8 encoding.  Every match of
    the pattern gives a facet: the test for an empty address skips
    none. *)
Theorem link_facets_cover_links (text : str) (js : list json) :
  _bluesky_link_facets text = Ok js →
  ∃ facets, js = facet_json <$> facets
            ∧ Forall (facet_of text) facets
            ∧ length facets = length (finditer_urls text).
Proof.
  intros (facets & -> & Hfacets)%link_facets_of_text.
  exists facets. split_and!; [done| |].
  - apply Forall_forall. intros f [i Hf]%list_elem_of_lookup_1.
    destruct (Forall2_lookup_r _ _ _ _ f Hfacets Hf) as (m & _ & Hm).
    by eapply facet_at_of.
  - symmetry. by eapply Forall2_length.
Qed.


(** X7.  [_bluesky_link_facets] returns no facet exactly when nowhere in
    the text [http://] or [https://] is followed by a code point that is
    not white space. *)
Theorem no_facet_iff_no_link (text : str) :
  _bluesky_link_facets text = Ok [] ↔
  ∀ before scheme c after,
    text = before ++ scheme ++ c :: after →
    scheme = lit "http://" ∨ scheme = lit "https://" → isspace c = true.
Proof.
  assert (finditer_urls text = [] ↔
          ∀ before scheme c after,
            text = before ++ scheme ++ c :: after →
            scheme = lit "http://" ∨ scheme = lit "https://" →
            isspace c = true) as <-.
  { unfold finditer_urls. rewrite finditer_from_nil. split.
    - intros Hnone before scheme c after Htext.
      specialize (Hnone _ _ Htext). rewrite match_url_none in Hnone.
      by apply (Hnone scheme c after).
    - intros Hspace a b ->. apply match_url_none.
      intros scheme c after -> Hscheme.
      by apply (Hspace a scheme c after). }
  split.
  - intros (facets & Hjs & Hfacets)%link_facets_of_text.
    destruct facets; [|done]. apply Forall2_length in Hfacets.
    by destruct (finditer_urls text).
  - unfold _bluesky_link_facets. by intros ->.
Qed.

(** X8.  On a text without surrogate code points [_bluesky_link_facets]
    returns: the encoding to UTF-8 is all that can make it raise. *)
Theorem link_facets_returns_without_surrogates (text : str) :
  Forall (λ c, ¬ (55296 ≤ c ≤ 57343)%N) text →
  ∃ js, _bluesky_link_facets text = Ok js.
Proof.
  intros Htext. unfold _bluesky_link_facets.
  destruct (link_facets_returns text (finditer_urls text) Htext) as [fs ->].
  by eexists.
Qed.

(** X9.  On an ASCII text the byte offsets of a facet are indices of the
    text: the address is [text[byteStart:byteEnd]]. *)
Theorem link_facets_of_ascii_text (text : str) :
  Forall (λ c, (c < 128)%N) text →
  ∃ facets,
    _bluesky_link_facets text = Ok (facet_json <$> facets)
    ∧ Forall (λ f, uri f = take (byteEnd f - byteStart f)
                             (drop (byteStart f) text)) facets.
Proof.
  intros Hascii.
  destruct (link_facets_returns text (finditer_urls text)) as [fs Hfs].
  { eapply Forall_impl; [exact Hascii|]. intros c Hc. simpl in Hc. lia. }
  exists fs. split; [unfold _bluesky_link_facets; by rewrite Hfs|].
  eapply link_facets_spec in Hfs;
    [|by apply (finditer_from_matches text text 0 0 [])].
  apply Forall_forall. intros f [i Hf]%list_elem_of_lookup_1.
  destruct (Forall2_lookup_r _ _ _ _ f Hfs Hf)
    as (m & _ & before & after & bb & bu & Htext & _ & _ & Hbb & Hbu & -> & ->
        & _).
  rewrite Htext in Hascii.
  apply Forall_app in Hascii as [Hbefore Huri%Forall_app].
  destruct Huri as [Huri _].
  rewrite encode_utf8_ascii in Hbb, Hbu by done.
  injection Hbb as <-. injection Hbu as <-.
  rewrite Htext at 1. rewrite drop_app_length.
  rewrite Nat.add_comm, Nat.add_sub.
  by rewrite take_app_length.
Qed.

(** ** More on the eligibility engine *)

Section Monotone.
Context `{Runtime}.

Lemma eligible_from_monotone (last : gmap str datetime) (th1 th2 : Z)
    (now1 now2 : datetime) (manifest : list json) :
  (th2 - dt_ordinal now2 ≤ th1 - dt_ordinal now1)%Z →
  ∀ res1, eligible_from last th1 now1 manifest = Ok res1 →
          ∃ res2, eligible_from last th2 now2 manifest = Ok res2
                  ∧ res1 `sublist_of` res2.
Proof.
  intros Hle. induction manifest as [|e manifest IH]; intros res1; simpl.
  - intros [= <-]. by exists [].
  - unfold keeps. destruct (entry_key e) as [k|]; simpl; [|done].
    destruct (eligible_from last th1 now1 manifest) as [r1|] eqn:Hr1;
      [|by destruct k; [|destruct (last !! _)]; simpl].
    destruct (IH r1 eq_refl) as (r2 & -> & Hsub).
    destruct k as [|c k]; simpl.
    { intros [= <-]. by exists r2. }
    destruct (last !! (c :: k)) as [when|]; simpl.
    + unfold _days_ago.
      destruct (Z.leb_spec th1 (dt_ordinal now1 - dt_ordinal when)),
               (Z.leb_spec th2 (dt_ordinal now2 - dt_ordinal when));
        intros [= <-]; eexists; (split; [done|]);
        first [done | by constructor | lia].
    + intros [= <-]. eexists. split; [done|]. by constructor.
Qed.

Lemma eligible_entries_monotone (manifest history : list json) (th1 th2 : Z)
    (now1 now2 : datetime) (res1 : list json) :
  (th2 - dt_ordinal now2 ≤ th1 - dt_ordinal now1)%Z →
  _eligible_entries manifest history th1 now1 = Ok res1 →
  ∃ res2, _eligible_entries manifest history th2 now2 = Ok res2
          ∧ res1 `sublist_of` res2.
Proof.
  intros Hle. unfold _eligible_entries.
  destruct (index_from timestamp_of ∅ history) as [last|]; simpl; [|done].
  by apply eligible_from_monotone.
Qed.

(** X10.  Lowering [threshold_days] never removes an entry: what is
    eligible with the higher threshold is, in the same order, among what is
    eligible with the lower one, and the function returns for the lower
    threshold when it does for the higher. *)
Theorem lower_threshold_keeps_eligible (manifest history : list json)
    (low high : Z) (now : datetime) (res : list json) :
  (low ≤ high)%Z →
  _eligible_entries manifest history high now = Ok res →
  ∃ res', _eligible_entries manifest history low now = Ok res'
          ∧ res `sublist_of` res'.
Proof. intros Hle. apply eligible_entries_monotone. lia. Qed.

(** X11.  Time never removes an entry: what is eligible at [now] is, in
    the same order, among what is eligible at any time whose date is the
    same or later. *)
Theorem later_date_keeps_eligible (manifest history : list json)
    (threshold_days : Z) (now later : datetime) (res : list json) :
  (dt_ordinal now ≤ dt_ordinal later)%Z →
  _eligible_entries manifest history threshold_days now = Ok res →
  ∃ res', _eligible_entries manifest history threshold_days later = Ok res'
          ∧ res `sublist_of` res'.
Proof. intros Hle. apply eligible_entries_monotone. lia. Qed.
End Monotone.

(** ** Naive and aware timestamps *)

Lemma dt_gt_aware (a b : datetime) (r : bool) :
  dt_gt a b = Ok r → aware a = aware b.
Proof. unfold dt_gt, aware. by destruct (dt_offset a), (dt_offset b). Qed.

Lemma dt_gt_mixed (a b : datetime) :
  aware a ≠ aware b → dt_gt a b = Raise TypeError.
Proof. unfold dt_gt, aware. by destruct (dt_offset a), (dt_offset b). Qed.

Lemma dt_gt_uniform (a b : datetime) :
  aware a = aware b → ∃ r, dt_gt a b = Ok r.
Proof.
  unfold dt_gt, aware. destruct (dt_offset a), (dt_offset b); by eauto.
Qed.

Section Awareness.
Context `{Runtime}.
Variable read : json → result json.

Lemma index_update_aware (last last' : gmap str datetime) (key : str)
    (ts : json) :
  index_update last key ts = Ok last' →
  ∀ k t, last !! k = Some t → ∃ t', last' !! k = Some t' ∧ aware t' = aware t.
Proof.
  unfold index_update. intros Hupdate k t Hk.
  destruct (negb (truthy (JStr key)) || negb (truthy ts));
    [injection Hupdate as <-; by eauto|].
  destruct (parse_timestamp ts) as [when|];
    [|injection Hupdate as <-; by eauto].
  destruct (decide (key = k)) as [->|Hne].
  - rewrite Hk in Hupdate.
    destruct (dt_gt when t) as [newer|] eqn:Hgt; simpl in Hupdate; [|done].
    injection Hupdate as <-. apply dt_gt_aware in Hgt.
    destruct newer; [|by eauto]. rewrite lookup_insert_eq. by eauto.
  - destruct (last !! key) as [old|].
    + destruct (dt_gt when old) as [newer|]; simpl in Hupdate; [|done].
      injection Hupdate as <-.
      destruct newer; rewrite ?lookup_insert_ne by done; eauto.
    + injection Hupdate as <-. rewrite lookup_insert_ne by done. eauto.
Qed.

Lemma index_from_aware (history : list json) :
  ∀ last last', index_from read last history = Ok last' →
  ∀ k t, last !! k = Some t → ∃ t', last' !! k = Some t' ∧ aware t' = aware t.
Proof.
  induction history as [|h history IH]; intros last last'; simpl.
  - intros [= <-] k t Hk. by eauto.
  - destruct (history_key h) as [key|]; simpl; [|done].
    destruct (read h) as [ts|]; simpl; [|done].
    destruct (index_update last key ts) as [last1|] eqn:Hupdate; simpl;
      [|done].
    intros Hrest k t Hk.
    destruct (index_update_aware _ _ _ _ Hupdate k t Hk) as (t1 & Hk1 & <-).
    by eapply IH.
Qed.

Lemma index_update_records (last last' : gmap str datetime) (key : str)
    (ts : json) (when : datetime) :
  key ≠ [] → truthy ts = true → parse_timestamp ts = Some when →
  index_update last key ts = Ok last' →
  ∃ t', last' !! key = Some t' ∧ aware t' = aware when.
Proof.
  intros Hkey Hts Hwhen. unfold index_update. rewrite Hts, Hwhen.
  destruct key as [|c key]; [done|]. cbn [truthy negb orb].
  destruct (last !! _) as [old|] eqn:Hold; intros Hupdate.
  - destruct (dt_gt when old) as [newer|] eqn:Hgt; simpl in Hupdate; [|done].
    injection Hupdate as <-. apply dt_gt_aware in Hgt.
    destruct newer; [rewrite lookup_insert_eq|]; eauto.
  - injection Hupdate as <-. rewrite lookup_insert_eq. eauto.
Qed.

Lemma index_update_mixed (last : gmap str datetime) (key : str) (ts : json)
    (when old : datetime) :
  key ≠ [] → truthy ts = true → parse_timestamp ts = Some when →
  last !! key = Some old → aware when ≠ aware old →
  index_update last key ts = Raise TypeError.
Proof.
  intros Hkey Hts Hwhen Hold Hmixed. unfold index_update.
  rewrite Hts, Hwhen, Hold. destruct key as [|c key]; [done|].
  cbn [truthy negb orb]. by rewrite dt_gt_mixed.
Qed.

Lemma index_from_without (last : gmap str datetime) (r : json)
    (rest : list json) :
  without_timestamp read r →
  index_from read last (r :: rest) = index_from read last rest.
Proof.
  intros (k & ts & Hk & Hts & Hnone). simpl. rewrite Hk, Hts. simpl.
  assert (index_update last k ts = Ok last) as ->; [|done].
  unfold index_update. destruct Hnone as [-> | [-> | Hparse]]; [done| |].
  - by rewrite orb_true_r.
  - rewrite Hparse. by destruct (_ || _).
Qed.

Lemma index_from_drop (last : gmap str datetime) (r : json)
    (pre post : list json) :
  without_timestamp read r →
  index_from read last (pre ++ r :: post) = index_from read last (pre ++ post).
Proof.
  intros Hr. rewrite !index_from_app.
  destruct (index_from read last pre) as [last1|]; simpl; [|done].
  by apply index_from_without.
Qed.
End Awareness.

Section MoreEligibility.
Context `{Runtime}.

(** X12.  A history that holds, under one key that is not empty, a
    timestamp with a UTC offset and one without makes [_eligible_entries]
    raise, whatever the manifest and the other records; the exception is
    [TypeError] when the records before the second of the two are read
    without one. *)
Theorem mixed_timestamps_raise (manifest pre mid post : list json)
    (h1 h2 : json) (k : str) (t1 t2 : datetime) (threshold_days : Z)
    (now : datetime) :
  k ≠ [] → recorded [h1] k t1 → recorded [h2] k t2 → aware t1 ≠ aware t2 →
  ∃ e, _eligible_entries manifest (pre ++ h1 :: mid ++ h2 :: post)
         threshold_days now = Raise e
       ∧ ((∃ last, index_from timestamp_of ∅ (pre ++ h1 :: mid) = Ok last) →
          e = TypeError).
Proof.
  intros Hk (? & ts1 & ->%list_elem_of_singleton & Hk1 & Hr1 & Hts1 & Hp1)
            (? & ts2 & ->%list_elem_of_singleton & Hk2 & Hr2 & Hts2 & Hp2)
            Hmixed.
  unfold _eligible_entries.
  replace (pre ++ h1 :: mid ++ h2 :: post)
    with ((pre ++ h1 :: mid) ++ h2 :: post) by by rewrite <- app_assoc.
  rewrite (index_from_app timestamp_of ∅ (pre ++ h1 :: mid)).
  destruct (index_from timestamp_of ∅ (pre ++ h1 :: mid)) as [last|e]
    eqn:Hlast; simpl.
  - assert (∃ old, last !! k = Some old ∧ aware old = aware t1)
      as (old & Hold & Haware).
    { rewrite index_from_app in Hlast.
      destruct (index_from timestamp_of ∅ pre) as [last0|]; simpl in Hlast;
        [|done].
      rewrite Hk1, Hr1 in Hlast. simpl in Hlast.
      destruct (index_update last0 k ts1) as [last1|] eqn:Hupdate;
        simpl in Hlast; [|done].
      destruct (index_update_records _ _ _ _ _ Hk Hts1 Hp1 Hupdate)
        as (t' & Ht' & <-).
      by eapply index_from_aware. }
    rewrite Hk2, Hr2. simpl.
    rewrite (index_update_mixed last k ts2 t2 old) by congruence.
    simpl. by eauto.
  - exists e. split; [done|]. by intros [? ?].
Qed.

(** X13.  A record whose key is empty, or whose timestamp is missing, empty
    or does not parse, counts for nothing: with or without it, wherever it
    stands in the history, [_eligible_entries] gives the same result. *)
Theorem records_without_timestamp_ignored (manifest pre post : list json)
    (r : json) (threshold_days : Z) (now : datetime) :
  without_timestamp timestamp_of r →
  _eligible_entries manifest (pre ++ r :: post) threshold_days now
  = _eligible_entries manifest (pre ++ post) threshold_days now.
Proof.
  intros Hr. unfold _eligible_entries. by rewrite index_from_drop.
Qed.

Lemma post_record_lookups (now : datetime) (f : fields)
    (twitter_post_id : json) (bluesky_uri bluesky_url : option str) :
  let record := post_record now f twitter_post_id bluesky_uri bluesky_url in
  py_get record k_set_url = Ok (JStr (f_set_url f))
  ∧ py_get record k_set_name = Ok (JStr (f_set_name f))
  ∧ py_get record k_posted_at = Ok (JStr (isoformat now))
  ∧ py_get record k_tweeted_at = Ok JNull.
Proof. by split_and!. Qed.

Lemma dry_run_record_lookups (now : datetime) (f : fields) :
  let record := dry_run_record now f in
  py_get record k_set_url = Ok (JStr (f_set_url f))
  ∧ py_get record k_set_name = Ok (JStr (f_set_name f))
  ∧ py_get record k_posted_at = Ok (JStr (isoformat now))
  ∧ py_get record k_tweeted_at = Ok JNull.
Proof. by split_and!. Qed.

Lemma record_key (record : json) (set_url set_name : str) :
  py_get record k_set_url = Ok (JStr set_url) →
  py_get record k_set_name = Ok (JStr set_name) →
  history_key record
  = Ok (strip (match set_url with [] => set_name | _ => set_url end)).
Proof.
  intros Hu Hn. unfold history_key. rewrite Hu, Hn. simpl.
  by destruct set_url, set_name.
Qed.

Lemma record_without_tweeted_at (record : json) (set_url set_name : str) :
  py_get record k_set_url = Ok (JStr set_url) →
  py_get record k_set_name = Ok (JStr set_name) →
  py_get record k_tweeted_at = Ok JNull →
  without_timestamp Tweet.timestamp_of record.
Proof.
  intros Hu Hn Ht. eexists _, JNull. split_and!.
  - by eapply record_key.
  - done.
  - by right; left.
Qed.

(** X14.  The eligibility function of [rin_throwback_tweet.py] does not
    see the records [rin_throwback_post.py] writes, for a post or for a
    recorded dry run: they carry [posted_at] and no [tweeted_at], so its
    result is the same with or without such a record. *)
Theorem tweet_script_ignores_post_records (manifest pre post : list json)
    (record : json) (posted : datetime) (f : fields) (twitter_post_id : json)
    (bluesky_uri bluesky_url : option str) (threshold_days : Z)
    (now : datetime) :
  record = post_record posted f twitter_post_id bluesky_uri bluesky_url
  ∨ record = dry_run_record posted f →
  Tweet._eligible_entries manifest (pre ++ record :: post) threshold_days now
  = Tweet._eligible_entries manifest (pre ++ post) threshold_days now.
Proof.
  intros Hrecord. unfold Tweet._eligible_entries.
  rewrite index_from_drop; [done|].
  destruct Hrecord as [-> | ->].
  - destruct (post_record_lookups posted f twitter_post_id bluesky_uri
                bluesky_url) as (? & ? & _ & ?).
    by eapply record_without_tweeted_at.
  - destruct (dry_run_record_lookups posted f) as (? & ? & _ & ?).
    by eapply record_without_tweeted_at.
Qed.

(** X15.  Once the record of a run for the entry [chosen] is appended to
    the history the run loaded, in which every timestamp of the set is
    older than the run, and provided [isoformat] gives a text that
    [fromisoformat] reads back, [chosen] is eligible again exactly when
    [threshold_days] calendar days have passed since the run. *)
Theorem posted_set_rests (manifest loaded : list json) (chosen record : json)
    (f : fields) (posted : datetime) (twitter_post_id : json)
    (bluesky_uri bluesky_url : option str) (threshold_days : Z)
    (now : datetime) (res : list json) :
  chosen_fields chosen = Ok f → f_set_url f ≠ [] →
  record = post_record posted f twitter_post_id bluesky_uri bluesky_url
  ∨ record = dry_run_record posted f →
  isoformat posted ≠ [] → fromisoformat (isoformat posted) = Some posted →
  (∀ t, recorded loaded (f_set_url f) t → dt_gt posted t = Ok true) →
  chosen ∈ manifest →
  _eligible_entries manifest (loaded ++ [record]) threshold_days now = Ok res →
  (chosen ∈ res ↔ (threshold_days ≤ _days_ago posted now)%Z).
Proof.
  intros Hf Hurl Hrecord Hiso Hparse Holder Hin
    (last & _ & [_ Hok] & _ & Hall)%eligible_entries_spec.
  destruct (Hall chosen Hin) as (k & Hk & ->).
  assert (k = f_set_url f ∧ strip (f_set_url f) = f_set_url f) as [-> Hstrip].
  { revert Hf Hk. unfold chosen_fields, entry_key, field.
    destruct (py_get chosen k_filename) as [v1|]; simpl; [|done].
    destruct (method_strip (py_or v1 (JStr []))) as [s1|]; simpl; [|done].
    destruct (py_get chosen k_set_name) as [v2|]; simpl; [|done].
    destruct (method_strip (py_or v2 (JStr []))) as [s2|]; simpl; [|done].
    destruct (py_get chosen k_set_url) as [v3|]; simpl; [|done].
    destruct (method_strip (py_or v3 (JStr []))) as [s3|] eqn:Hs3; simpl;
      [|done].
    destruct (py_get chosen k_date_published) as [v4|]; simpl; [|done].
    destruct (method_strip (py_or v4 (JStr []))) as [s4|]; simpl; [|done].
    destruct (py_get chosen k_tags) as [v5|]; simpl; [|done].
    destruct (method_strip (py_or v5 (JStr []))) as [s5|]; simpl; [|done].
    intros [= <-] [= <-]. simpl in *. split; [by destruct s3|].
    destruct (py_or v3 (JStr [])); try done. injection Hs3 as <-.
    apply strip_idem. }
  assert (recorded (loaded ++ [record]) (f_set_url f) posted) as Hposted.
  { apply recorded_by_snoc. right. exists (JStr (isoformat posted)).
    assert (py_get record k_set_url = Ok (JStr (f_set_url f))
            ∧ py_get record k_set_name = Ok (JStr (f_set_name f))
            ∧ py_get record k_posted_at = Ok (JStr (isoformat posted))
            ∧ py_get record k_tweeted_at = Ok JNull) as (Hu & Hn & Hp & Ht).
    { destruct Hrecord as [-> | ->];
        [apply post_record_lookups|apply dry_run_record_lookups]. }
    split_and!.
    - rewrite (record_key _ _ _ Hu Hn). destruct (f_set_url f); [done|].
      by rewrite Hstrip.
    - unfold timestamp_of. rewrite Hp, Ht. simpl. unfold py_or. simpl.
      by destruct (isoformat posted).
    - simpl. by destruct (isoformat posted).
    - done. }
  specialize (Hok (f_set_url f) Hurl).
  destruct (last !! f_set_url f) as [t|].
  - destruct Hok as [Ht Hmost].
    assert (t = posted) as ->; [|tauto].
    apply recorded_by_snoc in Ht as [Ht | (ts & _ & Hts & _ & Hpt)].
    + apply Holder in Ht. specialize (Hmost posted Hposted). congruence.
    + assert (py_get record k_posted_at = Ok (JStr (isoformat posted))
              ∧ py_get record k_tweeted_at = Ok JNull) as [Hp Htw].
      { destruct Hrecord as [-> | ->]; by split. }
      unfold timestamp_of in Hts. rewrite Hp, Htw in Hts. simpl in Hts.
      unfold py_or in Hts. simpl in Hts.
      destruct (isoformat posted) eqn:Hi; [done|].
      injection Hts as <-. simpl in Hpt. congruence.
  - by destruct (Hok posted).
Qed.
End MoreEligibility.

Section UniformTimestamps.
Context `{Runtime}.

Lemma index_update_uniform (b : bool) (last : gmap str datetime) (key : str)
    (ts : json) :
  map_Forall (λ _ t, aware t = b) last →
  (∀ t, parse_timestamp ts = Some t → aware t = b) →
  ∃ last', index_update last key ts = Ok last'
           ∧ map_Forall (λ _ t, aware t = b) last'.
Proof.
  intros Hlast Hts. unfold index_update.
  destruct (negb (truthy (JStr key)) || negb (truthy ts)); [by eauto|].
  destruct (parse_timestamp ts) as [when|]; [|by eauto].
  specialize (Hts when eq_refl).
  assert (map_Forall (λ _ t, aware t = b) (<[key := when]> last))
    by by apply map_Forall_insert_2.
  destruct (last !! key) as [old|] eqn:Hold; [|by eauto].
  destruct (dt_gt_uniform when old) as [newer ->].
  { rewrite Hts. symmetry. by apply (Hlast key old). }
  simpl. destruct newer; eauto.
Qed.

Lemma index_from_uniform (b : bool) (history : list json) :
  Forall keyed history → Forall (timestamp_awareness b) history →
  ∀ last, map_Forall (λ _ t, aware t = b) last →
          ∃ last', index_from timestamp_of last history = Ok last'.
Proof.
  induction history as [|h history IH]; intros Hkeyed Haware last Hlast;
    [by eauto|].
  apply Forall_cons in Hkeyed as [Hh Hkeyed].
  apply Forall_cons in Haware as [Ha Haware].
  cbn [index_from].
  destruct (keyed_history_key h Hh) as [key ->]. simpl.
  destruct Hh as (d & -> & _). unfold timestamp_of at 1. simpl.
  destruct (index_update_uniform b last key
              (py_or (default JNull (dict_lookup k_posted_at d))
                     (default JNull (dict_lookup k_tweeted_at d))) Hlast)
    as (last1 & -> & Hlast1).
  { intros t. by apply Ha. }
  simpl. by apply IH.
Qed.

(** X16.  On a manifest and a history of dictionaries whose [set_url] and
    [set_name] are strings or missing, with history timestamps that, when
    they parse, all carry a UTC offset or all carry none,
    [_eligible_entries] returns a list. *)
Theorem eligibility_returns_on_uniform_timestamps (manifest history : list json)
    (threshold_days : Z) (now : datetime) (b : bool) :
  Forall keyed manifest → Forall keyed history →
  Forall (timestamp_awareness b) history →
  ∃ res, _eligible_entries manifest history threshold_days now = Ok res.
Proof.
  intros Hm Hh Ha. unfold _eligible_entries.
  destruct (index_from_uniform b history Hh Ha ∅) as [last ->].
  { apply map_Forall_empty. }
  simpl. by apply eligible_from_returns.
Qed.
End UniformTimestamps.

(** ** The selection *)

Section Selection.
Context `{Runtime}.

Lemma matching_first (target : str) (manifest : list json) :
  ∀ chosen more,
    matching target manifest = Ok (chosen :: more) →
    ∃ before after,
      manifest = before ++ chosen :: after
      ∧ matches_name target chosen
      ∧ Forall (λ e, ¬ matches_name target e) before.
Proof.
  induction manifest as [|e manifest IH]; intros chosen more; simpl; [done|].
  destruct (py_get e k_set_name) as [n|] eqn:Hn; simpl; [|done].
  destruct (matching target manifest) as [matches|]; simpl; [|done].
  case_bool_decide as Hmatch.
  - intros [= <- <-]. exists [], manifest. split_and!; [done| |done].
    by exists n.
  - intros [= ->].
    destruct (IH chosen more eq_refl) as (before & after & -> & Hc & Hb).
    exists (e :: before), after. split_and!; [done..|].
    constructor; [|done]. intros (n' & Hn' & Hm). congruence.
Qed.

(** X17.  With [--set-name], the entry chosen is the first entry of the
    manifest whose normalised [set_name] is the normalised name asked for,
    and the choice is the same whatever the history, the clock, the
    threshold and the random generator. *)
Theorem override_takes_first_match (a : args) (w : world)
    (manifest history : list json) (name : str) (st st' : state)
    (chosen : json) :
  a_set_name a = Some name → name ≠ [] →
  choose a w manifest history st = (Next chosen, st') →
  (∃ before after,
     manifest = before ++ chosen :: after
     ∧ matches_name (_normalized_set_name_for_match name) chosen
     ∧ Forall (λ e, ¬ matches_name (_normalized_set_name_for_match name) e)
         before)
  ∧ ∀ w' history', choose a w' manifest history' st = (Next chosen, st').
Proof.
  intros Hname Hne. unfold choose. rewrite Hname.
  destruct name as [|c name]; [done|].
  set (target := _normalized_set_name_for_match (c :: name)).
  intros Hrun. split; [|done].
  run_cases Hrun; injection Hrun as <- _;
    match goal with
    | Hm : matching _ _ = Ok _ |- _ => exact (matching_first _ _ _ _ Hm)
    end.
Qed.

(** X18.  Without [--set-name], the entry chosen is one of the eligible
    entries, hence one of the manifest, and choosing changes nothing. *)
Theorem chosen_is_eligible (a : args) (w : world)
    (manifest history : list json) (st st' : state) (chosen : json) :
  no_override a →
  choose a w manifest history st = (Next chosen, st') →
  st' = st
  ∧ ∃ eligible,
      _eligible_entries manifest history (a_threshold_days a) (w_now w)
      = Ok eligible
      ∧ chosen ∈ eligible ∧ chosen ∈ manifest.
Proof.
  unfold no_override, choose. intros Hno Hrun.
  assert (∀ eligible,
            _eligible_entries manifest history (a_threshold_days a) (w_now w)
            = Ok eligible →
            chosen ∈ eligible → chosen ∈ manifest) as Hsub.
  { intros eligible (last & _ & _ & -> & _)%eligible_entries_spec.
    by intros [_ ?]%list_elem_of_filter. }
  destruct (a_set_name a) as [[|c name]|]; [|done|];
    run_cases Hrun; injection Hrun as <- <-;
    (split; [done|]); eexists; (split; [done|]);
    match goal with
    | Hc : choice _ _ = Ok _ |- _ =>
        unfold choice in Hc; destruct (_ !! _) eqn:Hlookup; [|done];
        injection Hc as <-; apply list_elem_of_lookup_2 in Hlookup
    end; eauto.
Qed.
End Selection.

(** ** Files written and read back *)

Ltac save_steps H :=
  cbv [mbind run_bind fs lift apply_op st_files st_trace st_kill
       fmap option_fmap option_map] in H;
  rewrite ?lookup_insert_eq in H; simpl in H;
  rewrite ?lookup_insert_eq in H; simpl in H;
  injection H as <- <-; simpl.

Section SaveAndLoad.
Context `{Runtime}.

(** X19.  What an uninterrupted [_save_json] writes at a path with a name
    is what [_load_json] then reads there, and what [_load_history] reads
    when it is a list, provided [json.loads] reads back what [json.dumps]
    writes followed by a newline. *)
Theorem saved_history_is_read_back (path : str) (data : json) (st : state) :
  st_kill st = None → path_name path ≠ [] →
  json_loads (json_dumps data ++ [newline]) = Some data →
  ∃ st', _save_json path data st = (Next tt, st')
         ∧ _load_json path st' = (Next data, st')
         ∧ _load_history path st'
           = (Next (match data with JList l => l | _ => [] end), st').
Proof.
  intros Hkill Hname Hloads. rewrite save_json_completes by done.
  unfold with_tmp_suffix. destruct (path_name path); [done|].
  eexists. split; [done|].
  assert (∀ st', st_files st' !! path
                 = Some (json_dumps data ++ [newline] : str) →
                 _load_json path st' = (Next data, st')) as Hload.
  { intros st' Hfile. unfold _load_json, files, mbind, run_bind.
    by rewrite Hfile, Hloads. }
  split.
  - apply Hload. simpl. by rewrite lookup_insert_eq.
  - unfold _load_history, files, file_exists, mbind at 1, run_bind at 1.
    cbn [st_files]. rewrite lookup_insert_eq. cbn [negb].
    unfold mbind, run_bind. rewrite Hload; [done|].
    cbn [st_files]. by rewrite lookup_insert_eq.
Qed.

(** X20.  Complete or killed at any point, [_save_json] leaves every file
    other than [path] and [path.tmp] as it was; when it completes, no file
    is left at [path.tmp].  It raises [ValueError] exactly for a path
    without a name, unless it is killed before its first operation. *)
Theorem save_json_touches_two_paths (path : str) (data : json)
    (st st' : state) (r : step unit) :
  _save_json path data st = (r, st') →
  (∀ p, p ≠ path → p ≠ path ++ lit ".tmp" →
        st_files st' !! p = st_files st !! p)
  ∧ (r = Next tt → st_files st' !! (path ++ lit ".tmp") = None)
  ∧ (r = Uncaught ValueError ↔ path_name path = [] ∧ st_kill st ≠ Some 0%nat).
Proof.
  intros Hrun.
  pose proof (tmp_path_differs path) as Hdiff.
  destruct st as [fls tr kill]. unfold _save_json, with_tmp_suffix in Hrun.
  destruct (path_name path) as [|c name] eqn:Hname.
  - destruct kill as [[|k]|]; save_steps Hrun; split_and!; try done;
      split; try done; by intros [_ ?].
  - destruct kill as [[|[|[|[|[|k]]]]]|]; save_steps Hrun;
      (split_and!;
       [ intros p Hp Htmp;
         by rewrite ?lookup_insert_ne, ?lookup_delete_ne,
                    ?lookup_insert_ne by done
       | try done; intros _;
         by rewrite lookup_insert_ne, lookup_delete_eq by done
       | split; [done|by intros [? _]] ]).
Qed.
End SaveAndLoad.

(** ** Whole runs *)

Lemma exit_zero_or_not (r : step Z) : r = Exit 0 ∨ r ≠ Exit 0.
Proof.
  destruct r as [z|code|e|]; try by right.
  destruct (decide (code = 0%Z)) as [->|Hcode]; [by left|right].
  by intros [= ->].
Qed.

Ltac outcome_goal :=
  intros;
  first
    [ done
    | congruence
    | by repeat constructor
    | split; [done|by repeat constructor]
    | by eexists
    | eexists _, _, _, _; split_and!; [done|reflexivity|by intros|by intros] ].

Section Outcomes.
Context `{Runtime}.

Lemma publish_outcome (a : args) (w : world) (p : plan) (st st' : state)
    (r : step Z) :
  st_kill st = None →
  publish a w p st = (r, st') →
  ∃ new,
    st_trace st' = st_trace st ++ new
    ∧ (a_platform a = Twitter → Forall (λ e, is_bluesky e = false) new)
    ∧ (a_platform a = Bluesky → Forall (λ e, is_twitter e = false) new)
    ∧ (r ≠ Exit 0 → st_files st' = st_files st)
    ∧ (r = Exit 0 →
       ∃ tid uri url tmp,
         with_tmp_suffix (p_history_path p) = Ok tmp
         ∧ st_files st'
           = <[p_history_path p :=
                 json_dumps
                   (JList (p_history p
                           ++ [post_record (w_now w) (p_fields p) tid uri url]))
                 ++ [newline]]>
               (delete tmp (st_files st))
         ∧ (a_platform a = Twitter → uri = None ∧ url = None)
         ∧ (a_platform a = Bluesky → tid = JNull)).
Proof.
  destruct st as [fls tr kill]. simpl. intros -> Hrun.
  unfold publish, post_to_twitter, post_to_bluesky, bluesky_try in Hrun.
  generalize dependent (match a_twitter_auth a with
                        | Some (c :: path) => Path (c :: path)
                        | _ => Path (a_auth a)
                        end).
  intros twitter_auth_path Hrun.
  publish_cases Hrun; injection Hrun as <- <-;
    cbn [st_files st_trace st_kill]; rewrite <- ?app_assoc;
    (eexists; split; [reflexivity|]);
    split_and!; outcome_goal.
Qed.

Lemma dry_run_outcome (a : args) (w : world) (p : plan) (st st' : state)
    (r : step Z) :
  st_kill st = None →
  dry_run a w p st = (r, st') →
  ∃ new,
    st_trace st' = st_trace st ++ new
    ∧ Forall (λ e, is_platform e = false) new
    ∧ (r ≠ Exit 0 → st_files st' = st_files st)
    ∧ (a_record_dry_run a = false →
       st_files st' = st_files st ∧ Forall (λ e, is_output e = true) new)
    ∧ (r = Exit 0 → a_record_dry_run a = true →
       ∃ tmp,
         with_tmp_suffix (p_history_path p) = Ok tmp
         ∧ st_files st'
           = <[p_history_path p :=
                 json_dumps
                   (JList (p_history p
                           ++ [dry_run_record (w_now w) (p_fields p)]))
                 ++ [newline]]>
               (delete tmp (st_files st))).
Proof.
  destruct st as [fls tr kill]. simpl. intros -> Hrun.
  unfold dry_run in Hrun.
  publish_cases Hrun; injection Hrun as <- <-;
    cbn [st_files st_trace st_kill]; rewrite <- ?app_assoc;
    (eexists; split; [reflexivity|]);
    split_and!; outcome_goal.
Qed.
End Outcomes.

Section WholeRuns.
Context `{Runtime}.

Lemma load_json_next (path : str) (st st' : state) (v : json) :
  _load_json path st = (Next v, st') →
  ∃ text, st_files st !! path = Some text ∧ json_loads text = Some v.
Proof.
  unfold _load_json, files, mbind, run_bind, lift, mret, run_ret.
  destruct (st_files st !! path) as [text|]; [|done].
  destruct (json_loads text) as [v'|] eqn:Hloads; [|done].
  intros [= <- _]. by exists text.
Qed.

Lemma choose_member (a : args) (w : world) (manifest history : list json)
    (st st' : state) (chosen : json) :
  choose a w manifest history st = (Next chosen, st') → chosen ∈ manifest.
Proof.
  unfold choose. intros Hrun.
  assert (∀ eligible,
            _eligible_entries manifest history (a_threshold_days a) (w_now w)
            = Ok eligible →
            chosen ∈ eligible → chosen ∈ manifest) as Hsub.
  { intros eligible (last & _ & _ & -> & _)%eligible_entries_spec.
    by intros [_ ?]%list_elem_of_filter. }
  run_cases Hrun; injection Hrun as <- _;
    match goal with
    | Hm : matching _ _ = Ok _ |- _ =>
        destruct (matching_first _ _ _ _ Hm) as (before & after & -> & _);
        apply elem_of_app; right; by left
    | Hc : choice _ _ = Ok _ |- _ =>
        unfold choice in Hc; destruct (_ !! _) eqn:Hlookup; [|done];
        injection Hc as <-; apply list_elem_of_lookup_2 in Hlookup;
        by eapply Hsub
    end.
Qed.

(** What [prepare] chose: an entry of the manifest it read, with the
    fields a post needs. *)
Lemma prepare_chosen (a : args) (w : world) (st st' : state) (p : plan) :
  prepare a w st = (Next p, st') →
  ∃ text manifest chosen,
    st_files st !! Path (a_manifest a) = Some text
    ∧ json_loads text = Some (JList manifest)
    ∧ chosen ∈ manifest
    ∧ chosen_fields chosen = Ok (p_fields p)
    ∧ f_set_url (p_fields p) ≠ [].
Proof.
  intros Hrun. unfold prepare in Hrun. run_cases Hrun.
  injection Hrun as <- <-. simpl.
  repeat match goal with
         | Hl : _load_json _ _ = (_, ?s) |- _ =>
             pose proof (load_json_same_state _ _ _ _ Hl); subst s;
             apply load_json_next in Hl as (text & Htext & Hloads)
         | Hl : _load_history _ _ = (_, ?s) |- _ =>
             pose proof (load_history_same_state _ _ _ _ Hl); subst s;
             clear Hl
         | Hc : choose _ _ _ _ _ = _ |- _ => apply choose_member in Hc
         end.
  eexists _, _, _. split_and!; try done.
  match goal with
  | Hb : _ || _ = false |- _ =>
      apply orb_false_iff in Hb as [[[_ _]%orb_false_iff Hu]%orb_false_iff _]
  end.
  by destruct (f_set_url _).
Qed.

(** The two ways a run goes: [prepare] ends it, having changed nothing and
    only printed, or hands a plan to the dry run or to the posts. *)
Lemma main_cases (a : args) (w : world) (fls : gmap str str) (r : step Z)
    (st' : state) :
  main a w (start fls) = (r, st') →
  ∃ out,
    Forall (λ e, is_output e = true) out
    ∧ let st1 := {| st_files := fls; st_trace := out; st_kill := None |} in
      (st' = st1 ∧ r ≠ Exit 0)
      ∨ ∃ p, prepare a w (start fls) = (Next p, st1)
             ∧ (if a_dry_run a then dry_run a w p else publish a w p) st1
               = (r, st').
Proof.
  unfold main, mbind, run_bind.
  destruct (prepare a w (start fls)) as [rp st1] eqn:Hprepare.
  destruct (prepare_prints_only a w _ _ _ Hprepare)
    as ((out & Hout & ->) & Hkilled & Hcodes).
  intros Hrun. exists out. split; [done|]. simpl.
  destruct rp as [p|code|e|]; try done.
  - right. by exists p.
  - injection Hrun as <- <-. left. split; [done|].
    specialize (Hcodes code eq_refl). intros [= ->].
    by repeat (apply elem_of_cons in Hcodes as [?|Hcodes]; [done|]);
       apply elem_of_nil in Hcodes.
  - injection Hrun as <- <-. by left.
Qed.

(** The files after a run: as they were, or with the history file
    rewritten to hold the loaded history and one more record. *)
Lemma main_files (a : args) (w : world) (fls : gmap str str) (r : step Z)
    (st' : state) :
  main a w (start fls) = (r, st') →
  let history_path := resolve_history_path a fls in
  (st_files st' = fls
   ∧ (r = Exit 0 → a_dry_run a = true ∧ a_record_dry_run a = false))
  ∨ (r = Exit 0
     ∧ (a_dry_run a = false ∨ a_record_dry_run a = true)
     ∧ ∃ p record tmp out,
         prepare a w (start fls)
         = (Next p, {| st_files := fls; st_trace := out; st_kill := None |})
         ∧ written_record w (p_fields p) record
         ∧ with_tmp_suffix history_path = Ok tmp
         ∧ st_files st'
           = <[history_path :=
                 json_dumps (JList (p_history p ++ [record])) ++ [newline]]>
               (delete tmp fls)).
Proof.
  intros (out & _ & [[-> Hr] | (p & Hprepare & Hrun)])%main_cases history_path.
  { left. by split. }
  destruct (prepare_plan _ _ _ _ _ Hprepare) as [Hpath _]. simpl in Hpath.
  fold history_path in Hpath.
  destruct (a_dry_run a) eqn:Hdry.
  - apply dry_run_outcome in Hrun as (new & _ & _ & Hfail & Hplain & Hsave);
      [|done].
    simpl in *. destruct (a_record_dry_run a) eqn:Hrecord.
    + destruct (exit_zero_or_not r) as [->|Hr].
      * right. split; [done|]. split; [by right|].
        destruct (Hsave eq_refl eq_refl) as (tmp & Htmp & ->).
        rewrite Hpath in *. eexists p, _, tmp, out. split_and!; try done.
        by right.
      * left. split; [by apply Hfail|done].
    + left. by destruct (Hplain eq_refl).
  - apply publish_outcome in Hrun as (new & _ & _ & _ & Hfail & Hsave);
      [|done].
    simpl in *. destruct (exit_zero_or_not r) as [->|Hr].
    + right. split; [done|]. split; [by left|].
      destruct (Hsave eq_refl) as (tid & uri & url & tmp & Htmp & -> & _).
      rewrite Hpath in *. eexists p, _, tmp, out. split_and!; try done.
      left. by exists tid, uri, url.
    + left. split; [by apply Hfail|done].
Qed.

(** X21.  The temporary images of the platform adapters apart, which a
    run leaves to them, a run changes no file unless it returns 0, none at
    all in a dry run that is not recorded, and never a file other than the
    history file and its temporary sibling: the manifest, the images, the
    templates and the credentials are as they were. *)
Theorem run_writes_only_history (a : args) (w : world) (fls : gmap str str)
    (r : step Z) (st' : state) :
  main a w (start fls) = (r, st') →
  let history_path := resolve_history_path a fls in
  (r ≠ Exit 0 → st_files st' = fls)
  ∧ (a_dry_run a = true → a_record_dry_run a = false → st_files st' = fls)
  ∧ ∀ path, path ≠ history_path → path ≠ history_path ++ lit ".tmp" →
            st_files st' !! path = fls !! path.
Proof.
  intros [[-> Hdry] | (-> & Hsaves & p & record & tmp & out & _ & _ & Htmp
                       & ->)]%main_files history_path; [done|].
  split_and!; [done|destruct Hsaves; congruence|].
  intros path Hpath Hnot. fold history_path in Htmp.
  unfold with_tmp_suffix in Htmp.
  destruct (path_name history_path); [done|]. injection Htmp as <-.
  by rewrite lookup_insert_ne, lookup_delete_ne.
Qed.

Lemma output_not_platform (out : list event) :
  Forall (λ e, is_output e = true) out →
  Forall (λ e, is_platform e = false) out.
Proof. intros Hout. eapply Forall_impl; [done|]. by intros []. Qed.

Lemma output_not_twitter (out : list event) :
  Forall (λ e, is_output e = true) out →
  Forall (λ e, is_twitter e = false) out.
Proof. intros Hout. eapply Forall_impl; [done|]. by intros []. Qed.

(** X22.  A dry run enters no step of a platform adapter; when it is not
    recorded it only prints and leaves the files as they were. *)
Theorem dry_run_posts_nothing (a : args) (w : world) (fls : gmap str str)
    (r : step Z) (st' : state) :
  a_dry_run a = true →
  main a w (start fls) = (r, st') →
  Forall (λ e, is_platform e = false) (st_trace st')
  ∧ (a_record_dry_run a = false →
     st_files st' = fls ∧ Forall (λ e, is_output e = true) (st_trace st')).
Proof.
  intros Hdry (out & Hout & [[-> Hr] | (p & _ & Hrun)])%main_cases.
  { split; [by apply output_not_platform|done]. }
  rewrite Hdry in Hrun.
  apply dry_run_outcome in Hrun as (new & -> & Hnew & _ & Hplain & _);
    [|done].
  simpl in *. split.
  - apply Forall_app. split; [by apply output_not_platform|done].
  - intros Hrecord. destruct (Hplain Hrecord) as [-> Hprints].
    split; [done|]. by apply Forall_app.
Qed.

(** X23.  With [--platform twitter] a run enters no step of the Bluesky
    adapter and the record of a post holds no Bluesky address; with
    [--platform bluesky] it enters no step of the Twitter adapter and the
    record holds no Twitter identifier. *)
Theorem single_platform_run (a : args) (w : world) (fls : gmap str str)
    (r : step Z) (st' : state) :
  main a w (start fls) = (r, st') →
  let history_path := resolve_history_path a fls in
  let posted tid uri url :=
    a_dry_run a = false → r = Exit 0 →
    ∃ loaded f tmp,
      st_files st'
      = <[history_path :=
            json_dumps
              (JList (loaded ++ [post_record (w_now w) f tid uri url]))
            ++ [newline]]>
          (delete tmp fls) in
  (a_platform a = Twitter →
   Forall (λ e, is_bluesky e = false) (st_trace st')
   ∧ ∃ tid, posted tid None None)
  ∧ (a_platform a = Bluesky →
     Forall (λ e, is_twitter e = false) (st_trace st')
     ∧ ∃ uri url, posted JNull uri url).
Proof.
  intros (out & Hout & [[-> Hr] | (p & Hprepare & Hrun)])%main_cases
    history_path posted; subst posted; cbn beta.
  { simpl. split; intros _; split.
    - by apply output_not_bluesky.
    - exists JNull. by intros.
    - by apply output_not_twitter.
    - exists None, None. by intros. }
  destruct (prepare_plan _ _ _ _ _ Hprepare) as [Hpath _]. simpl in Hpath.
  fold history_path in Hpath.
  destruct (a_dry_run a) eqn:Hdry.
  - apply dry_run_outcome in Hrun as (new & -> & Hnew & _); [|done]. simpl.
    assert (Forall (λ e, is_bluesky e = false) new
            ∧ Forall (λ e, is_twitter e = false) new) as [Hb Ht].
    { split; (eapply Forall_impl; [exact Hnew|]); intros e;
        unfold is_platform; by intros [? ?]%orb_false_iff. }
    split; intros _; split.
    + apply Forall_app. split; [by apply output_not_bluesky|done].
    + exists JNull. by intros.
    + apply Forall_app. split; [by apply output_not_twitter|done].
    + exists None, None. by intros.
  - apply publish_outcome in Hrun as (new & -> & Htw & Hbs & _ & Hsave);
      [|done].
    simpl in *. rewrite Hpath in Hsave. split; intros Hplatform.
    + split.
      * apply Forall_app. split; [by apply output_not_bluesky|by apply Htw].
      * destruct (exit_zero_or_not r) as [->|Hr].
        -- destruct (Hsave eq_refl)
             as (tid & uri & url & tmp & _ & -> & Hnone & _).
           destruct (Hnone Hplatform) as [-> ->].
           exists tid. intros _ _. by eexists _, _, _.
        -- exists JNull. by intros _ ?.
    + split.
      * apply Forall_app. split; [by apply output_not_twitter|by apply Hbs].
      * destruct (exit_zero_or_not r) as [->|Hr].
        -- destruct (Hsave eq_refl)
             as (tid & uri & url & tmp & _ & -> & _ & Hnull).
           rewrite (Hnull Hplatform).
           exists uri, url. intros _ _. by eexists _, _, _.
        -- exists None, None. by intros _ ?.
Qed.

(** X25.  A run that returns 0, a dry run that is not recorded apart, has
    written to the history file the history it loaded followed by one
    record, that of a post or of a dry run, made from the fields of an
    entry of the manifest whose [set_url] is not empty. *)
Theorem run_records_chosen_entry (a : args) (w : world) (fls : gmap str str)
    (st' : state) :
  main a w (start fls) = (Exit 0, st') →
  a_dry_run a = false ∨ a_record_dry_run a = true →
  let history_path := resolve_history_path a fls in
  ∃ text manifest chosen f loaded record tmp,
    fls !! Path (a_manifest a) = Some text
    ∧ json_loads text = Some (JList manifest)
    ∧ chosen ∈ manifest
    ∧ chosen_fields chosen = Ok f
    ∧ f_set_url f ≠ []
    ∧ written_record w f record
    ∧ _load_history history_path (start fls) = (Next loaded, start fls)
    ∧ with_tmp_suffix history_path = Ok tmp
    ∧ st_files st'
      = <[history_path :=
            json_dumps (JList (loaded ++ [record])) ++ [newline]]>
          (delete tmp fls).
Proof.
  intros [[_ Hdry] | (_ & _ & p & record & tmp & out & Hprepare & Hrecord
                      & Htmp & ->)]%main_files Hsaves history_path.
  { destruct (Hdry eq_refl), Hsaves; congruence. }
  destruct (prepare_plan _ _ _ _ _ Hprepare) as [Hpath Hload].
  destruct (prepare_chosen _ _ _ _ _ Hprepare)
    as (text & manifest & chosen & Htext & Hloads & Hin & Hfields & Hurl).
  simpl in Hpath. rewrite Hpath in Hload.
  exists text, manifest, chosen, (p_fields p), (p_history p), record, tmp.
  by split_and!.
Qed.
End WholeRuns.

(** ** Exit statuses and diagnostics *)

Lemma quiet_app (a b : list event) : quiet a → quiet b → quiet (a ++ b).
Proof. intros. by apply Forall_app. Qed.

Ltac silent :=
  exists []; split; [by rewrite app_nil_r|by constructor].

Lemma reports_ret {A} (codes : list Z) (a : A) : reports codes (mret a).
Proof.
  intros st r st' [= <- <-]. silent.
Qed.

Lemma reports_lift {A} (codes : list Z) (x : result A) :
  reports codes (lift x).
Proof.
  intros st r st'. unfold lift.
  destruct x; intros [= <- <-]; silent.
Qed.

Lemma reports_files (codes : list Z) : reports codes files.
Proof.
  intros st r st' [= <- <-]. silent.
Qed.

Lemma reports_emit (codes : list Z) (e : event) :
  match e with Stderr _ => False | _ => True end → reports codes (emit e).
Proof.
  intros He st r st' [= <- <-]. exists [e]. split; [done|].
  by repeat constructor.
Qed.

Lemma reports_print (codes : list Z) (line : str) :
  reports codes (print line).
Proof. by apply reports_emit. Qed.

Lemma reports_fs (codes : list Z) (op : fs_op) : reports codes (fs op).
Proof.
  intros st r st'. unfold fs.
  destruct (st_kill st) as [[|k]|]; [intros [= <- <-]; silent|..];
    (destruct (apply_op op (st_files st)); intros [= <- <-];
     [exists [Fs op]; split; [done|by repeat constructor]|silent]).
Qed.

Lemma reports_exit_0 {A} (codes : list Z) :
  0%Z ∈ codes → reports codes (exit 0 : run A).
Proof.
  intros Hin st r st' [= <- <-]. exists []. rewrite app_nil_r.
  split_and!; [done..|]. constructor.
Qed.

Lemma reports_failure {A} (codes : list Z) (line : str) (code : Z) :
  code ≠ 0%Z → code ∈ codes →
  reports codes (eprint line ≫= λ _, exit code : run A).
Proof.
  intros Hcode Hin st r st' [= <- <-]. exists [Stderr line].
  split_and!; [done..|]. rewrite bool_decide_eq_false_2 by done.
  exists [], line. split; [done|constructor].
Qed.

Lemma reports_bind {A B} (codes : list Z) (m : run A) (f : A → run B) :
  reports codes m → (∀ a, reports codes (f a)) → reports codes (m ≫= f).
Proof.
  intros Hm Hf st r st'. unfold mbind, run_bind.
  destruct (m st) as [r1 st1] eqn:Hrun.
  destruct (Hm _ _ _ Hrun) as (new1 & Htrace1 & Hr1).
  destruct r1 as [a|code|e|]; try (intros [= <- <-]; by exists new1).
  intros Hrun2. destruct (Hf a _ _ _ Hrun2) as (new2 & Htrace2 & Hr2).
  exists (new1 ++ new2). split; [by rewrite Htrace2, Htrace1, app_assoc|].
  destruct r as [b|code|e|]; try by apply quiet_app.
  destruct Hr2 as [Hin Hr2]. split; [done|].
  case_bool_decide; [by apply quiet_app|].
  destruct Hr2 as (pre & line & -> & Hpre).
  exists (new1 ++ pre), line. split; [by rewrite app_assoc|].
  by apply quiet_app.
Qed.

Create HintDb reports.

#[local] Hint Resolve reports_ret reports_lift reports_files reports_print
  reports_fs : reports.

Ltac reports :=
  repeat first
    [ progress eauto with reports
    | apply reports_failure; [done|by repeat constructor]
    | apply reports_exit_0; by repeat constructor
    | apply reports_emit; done
    | apply reports_bind; [|intros]
    | case_match ].

Section Diagnostics.
Context `{Runtime}.


End Diagnostics.

(** ** Credentials *)

Section CredentialProperties.
Context `{Runtime}.

Lemma str_lookup_values (k : str) (auth : list (str * json)) :
  str_lookup k (str_values auth) = py_str <$> dict_lookup k auth.
Proof.
  induction auth as [|[k' v] auth IH]; [done|]. simpl.
  by destruct (decide (k' = k)).
Qed.

Lemma sublist_List_filter {A} (f : A → bool) (l : list A) :
  List.filter f l `sublist_of` l.
Proof.
  induction l as [|x l IH]; [done|]. simpl.
  destruct (f x); by constructor.
Qed.

Lemma filled_truthy (auth : list (str * json)) (k : str) :
  filled auth k ↔ truthy (default JNull (dict_lookup k auth)) = true.
Proof.
  unfold filled. destruct (dict_lookup k auth) as [v|]; simpl.
  - split; [by intros (v' & [= <-] & ?)|]. by exists v.
  - split; [by intros (v' & ? & ?)|done].
Qed.

Lemma missing_keys_spec (required : list str) (auth : list (str * json))
    (k : str) :
  k ∈ missing_keys required auth ↔ k ∈ required ∧ ¬ filled auth k.
Proof.
  unfold missing_keys. rewrite !list_elem_of_In, filter_In.
  rewrite negb_true_iff, filled_truthy.
  destruct (truthy _); intuition congruence.
Qed.

Lemma missing_keys_nil (required : list str) (auth : list (str * json)) :
  missing_keys required auth = [] → Forall (filled auth) required.
Proof.
  intros Hnil. apply Forall_forall. intros k Hk.
  apply filled_truthy.
  destruct (truthy (default JNull (dict_lookup k auth))) eqn:Ht; [done|].
  assert (k ∈ missing_keys required auth) as Hin.
  { apply missing_keys_spec. split; [done|]. rewrite filled_truthy.
    by rewrite Ht. }
  rewrite Hnil in Hin. by apply elem_of_nil in Hin.
Qed.

(** X26.  [_load_auth] changes nothing.  The credentials it returns are
    those of a JSON object in which [api_key], [api_secret],
    [access_token] and [access_token_secret] have values that are not
    empty: they hold each key of the file with the string of its value.
    It raises [RuntimeError] for JSON that is not an object, and for an
    object with required keys that are missing or empty, which its message
    lists in the order above. *)
Theorem load_auth_checks_required_keys (auth_path : str) (st st' : state)
    (r : step (outcome (list (str * str)))) :
  _load_auth auth_path st = (r, st') →
  let required := [lit "api_key"; lit "api_secret"; lit "access_token";
                   lit "access_token_secret"] in
  st' = st
  ∧ (∀ creds, r = Next (Done creds) →
       ∃ auth, holds_object (st_files st) auth_path auth
               ∧ creds = str_values auth
               ∧ Forall (λ k, filled auth k
                              ∧ str_lookup k creds
                                = py_str <$> dict_lookup k auth) required)
  ∧ (∀ msg, r = Next (Fails msg) →
       (∃ text v, st_files st !! auth_path = Some text
                  ∧ json_loads text = Some v
                  ∧ (∀ auth, v ≠ JDict auth)
                  ∧ msg = lit "Auth file must be a JSON object.")
       ∨ ∃ auth missing,
           holds_object (st_files st) auth_path auth
           ∧ missing ≠ []
           ∧ missing `sublist_of` required
           ∧ (∀ k, k ∈ missing ↔ k ∈ required ∧ ¬ filled auth k)
           ∧ msg = lit "Auth file missing required keys: "
                   ++ join (lit ", ") missing).
Proof.
  intros Hrun required. unfold _load_auth in Hrun.
  fold required in Hrun. unfold mbind, run_bind in Hrun.
  destruct (_load_json auth_path st) as [r1 st1] eqn:Hload.
  pose proof (load_json_same_state _ _ _ _ Hload) as ->.
  destruct r1 as [v|code|e|]; try (injection Hrun as <- <-; by split_and!).
  assert (∃ text, st_files st !! auth_path = Some text
                  ∧ json_loads text = Some v) as Htext.
  { revert Hload.
    unfold _load_json, files, mbind, run_bind, lift, mret, run_ret.
    destruct (st_files st !! auth_path) as [text|]; [|done].
    destruct (json_loads text) as [v'|] eqn:Hv; [|done].
    intros [= <-]. by exists text. }
  destruct v as [|b|z|s|l|auth];
    try (injection Hrun as <- <-; split_and!; [done..|];
         intros msg [= <-]; left; destruct Htext as (text & ? & ?);
         eexists _, _; split_and!; [done|done|by intros|done]).
  destruct (missing_keys required auth) as [|k missing] eqn:Hmissing;
    injection Hrun as <- <-; (split_and!; [done| |]).
  - intros creds [= <-]. exists auth. split_and!; [done..|].
    apply missing_keys_nil in Hmissing.
    eapply Forall_impl; [exact Hmissing|]. intros k Hk. split; [done|].
    apply str_lookup_values.
  - done.
  - done.
  - intros msg [= <-]. right. exists auth, (k :: missing).
    split_and!; try done.
    + rewrite <- Hmissing. apply sublist_List_filter.
    + intros k'. rewrite <- Hmissing. apply missing_keys_spec.
Qed.

Lemma str_lookup_app (k : str) (d1 d2 : list (str * str)) :
  str_lookup k (d1 ++ d2)
  = match str_lookup k d1 with
    | Some v => Some v
    | None => str_lookup k d2
    end.
Proof.
  induction d1 as [|[k' v] d1 IH]; [done|]. simpl.
  by destruct (decide (k' = k)).
Qed.

Lemma str_lookup_setdefault (k v k' : str) (d : list (str * str)) :
  str_lookup k' (setdefault k v d)
  = match str_lookup k' d with
    | Some x => Some x
    | None => if decide (k = k') then Some v else None
    end.
Proof.
  unfold setdefault. destruct (str_lookup k d) as [x|] eqn:Hk.
  - destruct (str_lookup k' d) eqn:Hk'; [done|].
    destruct (decide (k = k')) as [->|]; [congruence|done].
  - rewrite str_lookup_app. simpl.
    by destruct (str_lookup k' d), (decide (k = k')).
Qed.

(** X27.  The credentials [_load_bluesky_auth] returns hold [identifier]
    and [app_password], not empty in the file, and a [service]: the string
    of the value the file gives it, even a null or an empty one, and
    [https://bsky.social] only when the file has no such key. *)
Theorem load_bluesky_auth_service (auth_path : str) (st st' : state)
    (creds : list (str * str)) :
  _load_bluesky_auth auth_path st = (Next (Done creds), st') →
  ∃ auth,
    holds_object (st_files st) auth_path auth
    ∧ Forall (λ k, filled auth k
                   ∧ str_lookup k creds = py_str <$> dict_lookup k auth)
        [lit "identifier"; lit "app_password"]
    ∧ str_lookup (lit "service") creds
      = Some (match dict_lookup (lit "service") auth with
              | Some v => py_str v
              | None => lit "https://bsky.social"
              end).
Proof.
  intros Hrun. unfold _load_bluesky_auth, mbind, run_bind in Hrun.
  destruct (_load_json auth_path st) as [r1 st1] eqn:Hload.
  pose proof (load_json_same_state _ _ _ _ Hload) as ->.
  destruct r1 as [v|code|e|]; try done.
  assert (∃ text, st_files st !! auth_path = Some text
                  ∧ json_loads text = Some v) as Htext.
  { revert Hload.
    unfold _load_json, files, mbind, run_bind, lift, mret, run_ret.
    destruct (st_files st !! auth_path) as [text|]; [|done].
    destruct (json_loads text) as [v'|] eqn:Hv; [|done].
    intros [= <-]. by exists text. }
  destruct v as [|b|z|s|l|auth]; try done.
  destruct (missing_keys _ auth) as [|k missing] eqn:Hmissing; [|done].
  injection Hrun as <- <-. exists auth. split_and!; [done| |].
  - apply missing_keys_nil in Hmissing.
    eapply Forall_impl; [exact Hmissing|]. intros k Hk. split; [done|].
    rewrite str_lookup_setdefault, str_lookup_values.
    destruct Hk as (v & -> & _). done.
  - rewrite str_lookup_setdefault, str_lookup_values.
    destruct (dict_lookup (lit "service") auth); [done|].
    cbn [fmap option_fmap option_map]. by destruct (decide _).
Qed.
End CredentialProperties.

(** ** Image preparation *)

Section ImageProperties.
Context `{Host}.

Lemma check_resized_returns (tmp_path : str) (max_bytes : Z)
    (fls : gmap str (list N)) (upload : str) (tmp : option str) :
  check_resized tmp_path max_bytes fls = Returns upload tmp →
  upload = tmp_path ∧ tmp = Some tmp_path
  ∧ ∃ content, fls !! tmp_path = Some content
               ∧ (Z.of_nat (length content) ≤ max_bytes)%Z.
Proof.
  unfold check_resized. destruct (fls !! tmp_path) as [resized|]; [|done].
  destruct (Z.ltb_spec max_bytes (Z.of_nat (length resized))); [done|].
  intros [= <- <-]. split_and!; [done..|]. by exists resized.
Qed.

Lemma check_resized_too_large (tmp_path : str) (max_bytes : Z)
    (fls : gmap str (list N)) (msg : str) :
  check_resized tmp_path max_bytes fls = RuntimeError msg →
  has_prefix (lit "Resized image still too large: ") msg = true
  ∧ ∃ content, fls !! tmp_path = Some content
               ∧ (max_bytes < Z.of_nat (length content))%Z.
Proof.
  unfold check_resized. destruct (fls !! tmp_path) as [resized|]; [|done].
  destruct (Z.ltb_spec max_bytes (Z.of_nat (length resized))); [|done].
  intros [= <-]. split; [apply has_prefix_spec; eauto|]. by exists resized.
Qed.

(** X28.  When [_prepare_image_for_upload] returns, the file to upload
    exists and has at most [max_bytes] bytes.  It is the image itself, with
    nothing printed and no file changed, or a file the function made
    because the image was larger, which it also returns as the temporary
    file to delete. *)
Theorem prepared_image_fits (image_path : str) (max_bytes : Z)
    (fls fls' : gmap str (list N)) (upload : str) (tmp : option str)
    (printed : list str) :
  _prepare_image_for_upload image_path max_bytes fls
  = (Returns upload tmp, fls', printed) →
  (∃ content, fls' !! upload = Some content
              ∧ (Z.of_nat (length content) ≤ max_bytes)%Z)
  ∧ ((tmp = None ∧ upload = image_path ∧ fls' = fls ∧ printed = [])
     ∨ (tmp = Some upload
        ∧ (∃ image, fls !! image_path = Some image
                    ∧ (max_bytes < Z.of_nat (length image))%Z)
        ∧ ∃ line, printed = [line])).
Proof.
  unfold _prepare_image_for_upload.
  destruct (fls !! image_path) as [image|] eqn:Himage; [|done].
  destruct (Z.leb_spec (Z.of_nat (length image)) max_bytes) as [Hfits|Hlarge].
  { intros [= <- <- <- <-]. split; [by exists image|by left]. }
  repeat case_match; try done; intros [= Hr <- <-];
    apply check_resized_returns in Hr as (-> & -> & Hcontent);
    (split; [done|]); right;
    (split_and!; [done|by exists image|by eexists]).
Qed.

(** X29.  What [_prepare_image_for_upload] leaves when it raises
    [RuntimeError]: the files as they were when ImageMagick is not found;
    no temporary file when the format is not supported; and, when the
    resized image is still too large, that image, at the temporary path or
    at the same path with the suffix [.jpg]. *)
Theorem failed_preparation_leaves (image_path : str) (max_bytes : Z)
    (fls fls' : gmap str (list N)) (msg : str) (printed : list str) :
  _prepare_image_for_upload image_path max_bytes fls
  = (RuntimeError msg, fls', printed) →
  let made := mkstemp fls (str_lower (path_suffix image_path)) in
  (has_prefix (lit "ImageMagick is required") msg = true → fls' = fls)
  ∧ (has_prefix (lit "Unsupported image format") msg = true →
     fls' = delete made fls)
  ∧ (has_prefix (lit "Resized image still too large") msg = true →
     ∃ left_behind content,
       fls' !! left_behind = Some content
       ∧ (max_bytes < Z.of_nat (length content))%Z
       ∧ (left_behind = made
          ∨ left_behind = path_with_suffix made (lit ".jpg"))).
Proof.
  unfold _prepare_image_for_upload.
  destruct (fls !! image_path) as [image|] eqn:Himage; [|done].
  destruct (Z.leb_spec (Z.of_nat (length image)) max_bytes) as [Hfits|Hlarge];
    [done|].
  intros Hrun. cbv zeta. rewrite delete_insert_eq in Hrun.
  repeat case_match; try done; injection Hrun as Hr <- <-;
    try (apply check_resized_too_large in Hr
           as [[rest ->]%has_prefix_spec (content & Hcontent & Hlarger)]);
    try subst msg;
    (split_and!; intros Hm; try (by vm_compute in Hm));
    first
      [ done
      | eexists _, _; split_and!; [done|done|by left]
      | eexists _, _; split_and!; [done|done|by right] ].
Qed.
End ImageProperties.

Section UnreadableHistory.
Context `{Runtime}.

(** X30.  With a manifest that is a list and a history file that is not
    JSON, a run ends with [ValueError] when it loads the history: nothing
    is chosen, printed, posted or written. *)
Theorem unreadable_history_stops_the_run (a : args) (w : world)
    (fls : gmap str str) (manifest_text history_text : str)
    (manifest : list json) :
  fls !! Path (a_manifest a) = Some manifest_text →
  json_loads manifest_text = Some (JList manifest) →
  fls !! resolve_history_path a fls = Some history_text →
  json_loads history_text = None →
  main a w (start fls) = (Uncaught ValueError, start fls).
Proof.
  intros Hmanifest Hlist Hhistory Hjson.
  assert (_load_json (Path (a_manifest a)) (start fls)
          = (Next (JList manifest), start fls)) as Hload.
  { unfold _load_json, files, mbind, run_bind. simpl.
    by rewrite Hmanifest, Hlist. }
  assert (_load_history (resolve_history_path a fls) (start fls)
          = (Uncaught ValueError, start fls)) as Hloadh.
  { unfold _load_history, _load_json, files, file_exists, mbind, run_bind.
    simpl. rewrite Hhistory. simpl. by rewrite Hhistory, Hjson. }
  unfold main, prepare, files, file_exists, mbind at 1 2, run_bind at 1 2.
  cbn [start st_files]. rewrite Hmanifest. cbn [negb].
  unfold mbind at 1, run_bind at 1. fold (start fls). rewrite Hload.
  unfold mbind at 1, run_bind at 1. by rewrite Hloadh.
Qed.
End UnreadableHistory.

(** ** The further properties on the sample inputs *)

Section FurtherSamples.
Import Example Sample Cases.

(** The template of the sample files, cut at nine code points. *)
Lemma render_post_text_within_limit_witness :
  let ctx := template_context fields_b (lit "Nov 02, 2021") 9 in
  (0 ≤ 9)%Z
  ∧ _render_post_text files (lit "twitter_template.j2") ctx 9
    = Done (lit "Throwback")
  ∧ (len (lit "Throwback") ≤ 9)%Z
  ∧ lstrip (lit "Throwback") = lit "Throwback".
Proof.
  intros ctx.
  assert (H1 : (0 ≤ 9)%Z) by lia.
  assert (H2 : _render_post_text files (lit "twitter_template.j2") ctx 9
               = Done (lit "Throwback")) by (vm_compute; reflexivity).
  split; [exact H1|]. split; [exact H2|].
  destruct (render_post_text_within_limit _ _ _ _ _ H1 H2)
    as (Hlen & Hlead & _).
  split; [exact Hlen|exact Hlead].
Defined.

(** Two hashtags of four fit in fourteen code points. *)
Lemma fit_tags_within_limit_witness :
  _fit_tags (lit "hello") (lit "#aa #bb #cc #dd") 14 ≠ []
  ∧ (len (lit "hello" ++ two_newlines
          ++ _fit_tags (lit "hello") (lit "#aa #bb #cc #dd") 14) ≤ 14)%Z.
Proof.
  assert (H1 : _fit_tags (lit "hello") (lit "#aa #bb #cc #dd") 14 ≠ [])
    by (vm_compute; discriminate).
  split; [exact H1|].
  exact (fit_tags_within_limit _ _ _ H1).
Defined.

(** The link of [linked_text]. *)
Lemma link_facets_cover_links_witness :
  _bluesky_link_facets linked_text = Ok [facet_json link_a]
  ∧ ∃ facets, [facet_json link_a] = facet_json <$> facets
              ∧ Forall (facet_of linked_text) facets
              ∧ length facets = length (finditer_urls linked_text).
Proof.
  assert (H1 : _bluesky_link_facets linked_text = Ok [facet_json link_a])
    by (vm_compute; reflexivity).
  split; [exact H1|].
  exact (link_facets_cover_links _ _ H1).
Defined.


Lemma link_facets_returns_without_surrogates_witness :
  Forall (λ c, ¬ (55296 ≤ c ≤ 57343)%N) linked_text
  ∧ ∃ js, _bluesky_link_facets linked_text = Ok js.
Proof.
  assert (H1 : Forall (λ c, ¬ (55296 ≤ c ≤ 57343)%N) linked_text)
    by (apply (bool_decide_unpack _); vm_compute; exact I).
  split; [exact H1|].
  exact (link_facets_returns_without_surrogates _ H1).
Defined.

Lemma link_facets_of_ascii_text_witness :
  Forall (λ c, (c < 128)%N) plain_text
  ∧ ∃ facets,
      _bluesky_link_facets plain_text = Ok (facet_json <$> facets)
      ∧ Forall (λ f, uri f = take (byteEnd f - byteStart f)
                               (drop (byteStart f) plain_text)) facets.
Proof.
  assert (H1 : Forall (λ c, (c < 128)%N) plain_text)
    by (apply (bool_decide_unpack _); vm_compute; exact I).
  split; [exact H1|].
  exact (link_facets_of_ascii_text _ H1).
Defined.

(** [entry_a], posted 89 days ago, is eligible with a threshold of 30
    days. *)
Lemma lower_threshold_keeps_eligible_witness :
  (30 ≤ 90)%Z
  ∧ _eligible_entries [entry_a; entry_b] [posted_a_jan2] 90 now
    = Ok [entry_b]
  ∧ ∃ res', _eligible_entries [entry_a; entry_b] [posted_a_jan2] 30 now
            = Ok res'
            ∧ [entry_b] `sublist_of` res'.
Proof.
  assert (H1 : (30 ≤ 90)%Z) by lia.
  assert (H2 : _eligible_entries [entry_a; entry_b] [posted_a_jan2] 90 now
               = Ok [entry_b]) by (vm_compute; reflexivity).
  split; [exact H1|]. split; [exact H2|].
  exact (lower_threshold_keeps_eligible _ _ _ _ _ _ H1 H2).
Defined.

Lemma later_date_keeps_eligible_witness :
  (dt_ordinal now ≤ dt_ordinal ninety_days_later)%Z
  ∧ _eligible_entries [entry_a; entry_b] [posted_a_jan2] 90 now
    = Ok [entry_b]
  ∧ ∃ res', _eligible_entries [entry_a; entry_b] [posted_a_jan2] 90
              ninety_days_later = Ok res'
            ∧ [entry_b] `sublist_of` res'.
Proof.
  assert (H1 : (dt_ordinal now ≤ dt_ordinal ninety_days_later)%Z)
    by (vm_compute; discriminate).
  assert (H2 : _eligible_entries [entry_a; entry_b] [posted_a_jan2] 90 now
               = Ok [entry_b]) by (vm_compute; reflexivity).
  split; [exact H1|]. split; [exact H2|].
  exact (later_date_keeps_eligible _ _ _ _ _ _ H1 H2).
Defined.

(** A record of [entry_a] with a UTC offset and one without. *)
Lemma mixed_timestamps_raise_witness :
  url_a ≠ []
  ∧ recorded [posted_a_jan1] url_a jan1
  ∧ recorded [posted_a_naive] url_a jan3_naive
  ∧ aware jan1 ≠ aware jan3_naive
  ∧ ∃ e, _eligible_entries [entry_a; entry_b]
           ([] ++ posted_a_jan1 :: [] ++ posted_a_naive :: []) 90 now
         = Raise e
         ∧ ((∃ last, index_from timestamp_of ∅ ([] ++ posted_a_jan1 :: [])
                     = Ok last) →
            e = TypeError).
Proof.
  assert (H1 : url_a ≠ []) by (vm_compute; discriminate).
  assert (H2 : recorded [posted_a_jan1] url_a jan1).
  { exists posted_a_jan1, (JStr (lit "2024-01-01T08:00:00+00:00")).
    split; [apply list_elem_of_here|]. by vm_compute. }
  assert (H3 : recorded [posted_a_naive] url_a jan3_naive).
  { exists posted_a_naive, (JStr (lit "2024-01-03T08:00:00")).
    split; [apply list_elem_of_here|]. by vm_compute. }
  assert (H4 : aware jan1 ≠ aware jan3_naive) by (vm_compute; discriminate).
  split; [exact H1|]. split; [exact H2|]. split; [exact H3|].
  split; [exact H4|].
  exact (mixed_timestamps_raise [entry_a; entry_b] [] [] [] _ _ _ _ _ 90 now
           H1 H2 H3 H4).
Defined.

Lemma records_without_timestamp_ignored_witness :
  without_timestamp timestamp_of posted_a_undated
  ∧ _eligible_entries [entry_a; entry_b]
      ([posted_a_jan1] ++ posted_a_undated :: []) 90 now
    = _eligible_entries [entry_a; entry_b] ([posted_a_jan1] ++ []) 90 now.
Proof.
  assert (H1 : without_timestamp timestamp_of posted_a_undated).
  { exists url_a, JNull. split_and!; [by vm_compute..|]. right. by left. }
  split; [exact H1|].
  exact (records_without_timestamp_ignored _ _ _ _ _ _ H1).
Defined.

Lemma tweet_script_ignores_post_records_witness :
  let record := post_record now fields_b (JStr (lit "1800")) None None in
  (record = post_record now fields_b (JStr (lit "1800")) None None
   ∨ record = dry_run_record now fields_b)
  ∧ Tweet._eligible_entries [entry_a; entry_b]
      ([tweeted_b_mar1] ++ record :: []) 90 ninety_days_later
    = Tweet._eligible_entries [entry_a; entry_b] ([tweeted_b_mar1] ++ []) 90
        ninety_days_later.
Proof.
  intros record.
  assert (H1 : record = post_record now fields_b (JStr (lit "1800")) None None
               ∨ record = dry_run_record now fields_b) by (left; reflexivity).
  split; [exact H1|].
  exact (tweet_script_ignores_post_records _ _ _ _ _ _ _ _ _ _ _ H1).
Defined.

(** [entry_b], posted at [now], rests for 90 days. *)
Lemma posted_set_rests_witness :
  let record := post_record now fields_b (JStr (lit "1800")) None None in
  chosen_fields entry_b = Ok fields_b
  ∧ f_set_url fields_b ≠ []
  ∧ isoformat now ≠ []
  ∧ fromisoformat (isoformat now) = Some now
  ∧ (∀ t, recorded [posted_a_jan2] (f_set_url fields_b) t →
          dt_gt now t = Ok true)
  ∧ entry_b ∈ [entry_a; entry_b]
  ∧ _eligible_entries [entry_a; entry_b] ([posted_a_jan2] ++ [record]) 90
      ninety_days_later = Ok [entry_a; entry_b]
  ∧ (entry_b ∈ [entry_a; entry_b]
     ↔ (90 ≤ _days_ago now ninety_days_later)%Z).
Proof.
  intros record.
  assert (H1 : chosen_fields entry_b = Ok fields_b)
    by (vm_compute; reflexivity).
  assert (H2 : f_set_url fields_b ≠ []) by (vm_compute; discriminate).
  assert (H3 : record = post_record now fields_b (JStr (lit "1800")) None None
               ∨ record = dry_run_record now fields_b) by (left; reflexivity).
  assert (H4 : isoformat now ≠ []) by (vm_compute; discriminate).
  assert (H5 : fromisoformat (isoformat now) = Some now)
    by (vm_compute; reflexivity).
  assert (H6 : ∀ t, recorded [posted_a_jan2] (f_set_url fields_b) t →
                    dt_gt now t = Ok true).
  { intros t (h & ts & ->%list_elem_of_singleton & Hk & _).
    vm_compute in Hk. discriminate Hk. }
  assert (H7 : entry_b ∈ [entry_a; entry_b])
    by (apply list_elem_of_further, list_elem_of_here).
  assert (H8 : _eligible_entries [entry_a; entry_b]
                 ([posted_a_jan2] ++ [record]) 90 ninety_days_later
               = Ok [entry_a; entry_b]) by (vm_compute; reflexivity).
  split_and!; [exact H1|exact H2|exact H4|exact H5|exact H6|exact H7|exact H8|].
  exact (posted_set_rests _ _ _ _ _ _ _ _ _ _ _ _ H1 H2 H3 H4 H5 H6 H7 H8).
Defined.

Ltac keyed_dict :=
  eexists; split; [reflexivity|]; split; exact I.

Ltac aware_record :=
  let ts := fresh "ts" in
  let t := fresh "t" in
  let Hts := fresh "Hts" in
  let Ht := fresh "Ht" in
  intros ts t Hts Ht; vm_compute in Hts; injection Hts as <-;
  vm_compute in Ht; injection Ht as <-; reflexivity.

Lemma eligibility_returns_on_uniform_timestamps_witness :
  Forall keyed [entry_a; entry_b]
  ∧ Forall keyed [posted_a_jan2; tweeted_b_mar1]
  ∧ Forall (timestamp_awareness true) [posted_a_jan2; tweeted_b_mar1]
  ∧ ∃ res, _eligible_entries [entry_a; entry_b]
             [posted_a_jan2; tweeted_b_mar1] 90 now = Ok res.
Proof.
  assert (H1 : Forall keyed [entry_a; entry_b])
    by (repeat (constructor; [keyed_dict|]); constructor).
  assert (H2 : Forall keyed [posted_a_jan2; tweeted_b_mar1])
    by (repeat (constructor; [keyed_dict|]); constructor).
  assert (H3 : Forall (timestamp_awareness true)
                 [posted_a_jan2; tweeted_b_mar1])
    by (repeat (constructor; [aware_record|]); constructor).
  split; [exact H1|]. split; [exact H2|]. split; [exact H3|].
  exact (eligibility_returns_on_uniform_timestamps _ _ 90 now true H1 H2 H3).
Defined.

(** [--set-name ALPHA] takes [entry_a], posted 89 days ago. *)
Lemma override_takes_first_match_witness :
  let target := _normalized_set_name_for_match (lit "ALPHA") in
  a_set_name args_named = Some (lit "ALPHA")
  ∧ lit "ALPHA" ≠ []
  ∧ choose args_named world_fine [entry_a; entry_b] [posted_a_jan2]
      (start files) = (Next entry_a, start files)
  ∧ (∃ before after,
       [entry_a; entry_b] = before ++ entry_a :: after
       ∧ matches_name target entry_a
       ∧ Forall (λ e, ¬ matches_name target e) before)
  ∧ ∀ w' history',
      choose args_named w' [entry_a; entry_b] history' (start files)
      = (Next entry_a, start files).
Proof.
  intros target.
  assert (H1 : a_set_name args_named = Some (lit "ALPHA")) by reflexivity.
  assert (H2 : lit "ALPHA" ≠ []) by (vm_compute; discriminate).
  assert (H3 : choose args_named world_fine [entry_a; entry_b] [posted_a_jan2]
                 (start files) = (Next entry_a, start files))
    by (vm_compute; reflexivity).
  split; [exact H1|]. split; [exact H2|]. split; [exact H3|].
  exact (override_takes_first_match _ _ _ _ _ _ _ _ H1 H2 H3).
Defined.

Lemma chosen_is_eligible_witness :
  no_override args_default
  ∧ choose args_default world_fine [entry_a; entry_b] [posted_a_jan2]
      (start files) = (Next entry_b, start files)
  ∧ start files = start files
  ∧ ∃ eligible,
      _eligible_entries [entry_a; entry_b] [posted_a_jan2]
        (a_threshold_days args_default) (w_now world_fine) = Ok eligible
      ∧ entry_b ∈ eligible ∧ entry_b ∈ [entry_a; entry_b].
Proof.
  assert (H1 : no_override args_default) by exact I.
  assert (H2 : choose args_default world_fine [entry_a; entry_b]
                 [posted_a_jan2] (start files) = (Next entry_b, start files))
    by (vm_compute; reflexivity).
  split; [exact H1|]. split; [exact H2|].
  exact (chosen_is_eligible _ _ _ _ _ _ _ H1 H2).
Defined.

Lemma saved_history_is_read_back_witness :
  let path := lit "post_history.json" in
  let data := JList [posted_a_jan2; tweeted_b_mar1] in
  st_kill (start files) = None
  ∧ path_name path ≠ []
  ∧ json_loads (json_dumps data ++ [newline]) = Some data
  ∧ ∃ st', _save_json path data (start files) = (Next tt, st')
           ∧ _load_json path st' = (Next data, st')
           ∧ _load_history path st'
             = (Next (match data with JList l => l | _ => [] end), st').
Proof.
  intros path data.
  assert (H1 : st_kill (start files) = None) by reflexivity.
  assert (H2 : path_name path ≠ []) by (vm_compute; discriminate).
  assert (H3 : json_loads (json_dumps data ++ [newline]) = Some data)
    by (vm_compute; reflexivity).
  split; [exact H1|]. split; [exact H2|]. split; [exact H3|].
  exact (saved_history_is_read_back path data (start files) H1 H2 H3).
Defined.

(** A save killed after its third operation. *)
Lemma save_json_touches_two_paths_witness :
  let path := lit "post_history.json" in
  let st := {| st_files := files; st_trace := []; st_kill := Some 3%nat |} in
  let st' := snd (_save_json path (JList []) st) in
  _save_json path (JList []) st = (Killed, st')
  ∧ (∀ p, p ≠ path → p ≠ path ++ lit ".tmp" →
          st_files st' !! p = st_files st !! p)
  ∧ (@Killed unit = Next tt → st_files st' !! (path ++ lit ".tmp") = None)
  ∧ (@Killed unit = Uncaught ValueError
     ↔ path_name path = [] ∧ st_kill st ≠ Some 0%nat).
Proof.
  intros path st st'.
  assert (H1 : _save_json path (JList []) st = (Killed, st'))
    by (vm_compute; reflexivity).
  split; [exact H1|].
  exact (save_json_touches_two_paths _ _ _ _ _ H1).
Defined.

(** The run in which the creation of the Bluesky post fails, after the
    Twitter post is created. *)
Lemma run_writes_only_history_witness :
  let st' := snd (main args_default world_bluesky_fails (start files)) in
  let history_path := resolve_history_path args_default files in
  main args_default world_bluesky_fails (start files) = (Exit 11, st')
  ∧ ((Exit 11 : step Z) ≠ Exit 0 → st_files st' = files)
  ∧ (a_dry_run args_default = true → a_record_dry_run args_default = false →
     st_files st' = files)
  ∧ ∀ path, path ≠ history_path → path ≠ history_path ++ lit ".tmp" →
            st_files st' !! path = files !! path.
Proof.
  intros st' history_path.
  assert (H1 : main args_default world_bluesky_fails (start files)
               = (Exit 11, st')) by (vm_compute; reflexivity).
  split; [exact H1|].
  exact (run_writes_only_history _ _ _ _ _ H1).
Defined.

Lemma dry_run_posts_nothing_witness :
  let st' := snd (main args_dry world_fine (start files)) in
  a_dry_run args_dry = true
  ∧ main args_dry world_fine (start files) = (Exit 0, st')
  ∧ Forall (λ e, is_platform e = false) (st_trace st')
  ∧ (a_record_dry_run args_dry = false →
     st_files st' = files
     ∧ Forall (λ e, is_output e = true) (st_trace st')).
Proof.
  intros st'.
  assert (H1 : a_dry_run args_dry = true) by reflexivity.
  assert (H2 : main args_dry world_fine (start files) = (Exit 0, st'))
    by (vm_compute; reflexivity).
  split; [exact H1|]. split; [exact H2|].
  exact (dry_run_posts_nothing _ _ _ _ _ H1 H2).
Defined.

Lemma single_platform_run_witness :
  let st' := snd (main args_twitter world_fine (start files)) in
  main args_twitter world_fine (start files) = (Exit 0, st')
  ∧ a_platform args_twitter = Twitter
  ∧ Forall (λ e, is_bluesky e = false) (st_trace st')
  ∧ ∃ tid,
      a_dry_run args_twitter = false → (Exit 0 : step Z) = Exit 0 →
      ∃ loaded f tmp,
        st_files st'
        = <[resolve_history_path args_twitter files :=
              json_dumps
                (JList (loaded
                        ++ [post_record (w_now world_fine) f tid None None]))
              ++ [newline]]>
            (delete tmp files).
Proof.
  intros st'.
  assert (H1 : main args_twitter world_fine (start files) = (Exit 0, st'))
    by (vm_compute; reflexivity).
  assert (H2 : a_platform args_twitter = Twitter) by reflexivity.
  split; [exact H1|]. split; [exact H2|].
  destruct (single_platform_run _ _ _ _ _ H1) as [Htwitter _].
  exact (Htwitter H2).
Defined.


Lemma run_records_chosen_entry_witness :
  let st' := snd (main args_default world_fine (start files)) in
  let history_path := resolve_history_path args_default files in
  main args_default world_fine (start files) = (Exit 0, st')
  ∧ (a_dry_run args_default = false ∨ a_record_dry_run args_default = true)
  ∧ ∃ text manifest chosen f loaded record tmp,
      files !! Path (a_manifest args_default) = Some text
      ∧ json_loads text = Some (JList manifest)
      ∧ chosen ∈ manifest
      ∧ chosen_fields chosen = Ok f
      ∧ f_set_url f ≠ []
      ∧ written_record world_fine f record
      ∧ _load_history history_path (start files) = (Next loaded, start files)
      ∧ with_tmp_suffix history_path = Ok tmp
      ∧ st_files st'
        = <[history_path :=
              json_dumps (JList (loaded ++ [record])) ++ [newline]]>
            (delete tmp files).
Proof.
  intros st' history_path.
  assert (H1 : main args_default world_fine (start files) = (Exit 0, st'))
    by (vm_compute; reflexivity).
  assert (H2 : a_dry_run args_default = false
               ∨ a_record_dry_run args_default = true)
    by (left; reflexivity).
  split; [exact H1|]. split; [exact H2|].
  exact (run_records_chosen_entry _ _ _ _ H1 H2).
Defined.

Lemma load_auth_checks_required_keys_witness :
  let st := start credential_files in
  let required := [lit "api_key"; lit "api_secret"; lit "access_token";
                   lit "access_token_secret"] in
  _load_auth (lit "twitter_auth.json") st
  = (Next (Done (str_values twitter_credentials)), st)
  ∧ str_lookup (lit "access_token") (str_values twitter_credentials)
    = Some (lit "42")
  ∧ ∃ auth, holds_object (st_files st) (lit "twitter_auth.json") auth
            ∧ str_values twitter_credentials = str_values auth
            ∧ Forall (λ k, filled auth k
                           ∧ str_lookup k (str_values twitter_credentials)
                             = py_str <$> dict_lookup k auth) required.
Proof.
  intros st required.
  assert (H1 : _load_auth (lit "twitter_auth.json") st
               = (Next (Done (str_values twitter_credentials)), st))
    by (vm_compute; reflexivity).
  split; [exact H1|]. split; [vm_compute; reflexivity|].
  destruct (load_auth_checks_required_keys _ _ _ _ H1) as (_ & Hdone & _).
  exact (Hdone _ eq_refl).
Defined.

(** A [service] that is null in the file is the text [None]. *)
Lemma load_bluesky_auth_service_witness :
  let st := start credential_files in
  let creds := str_values bluesky_credentials in
  _load_bluesky_auth (lit "bluesky_auth.json") st = (Next (Done creds), st)
  ∧ str_lookup (lit "service") creds = Some (lit "None")
  ∧ ∃ auth,
      holds_object (st_files st) (lit "bluesky_auth.json") auth
      ∧ Forall (λ k, filled auth k
                     ∧ str_lookup k creds = py_str <$> dict_lookup k auth)
          [lit "identifier"; lit "app_password"]
      ∧ str_lookup (lit "service") creds
        = Some (match dict_lookup (lit "service") auth with
                | Some v => py_str v
                | None => lit "https://bsky.social"
                end).
Proof.
  intros st creds.
  assert (H1 : _load_bluesky_auth (lit "bluesky_auth.json") st
               = (Next (Done creds), st)) by (vm_compute; reflexivity).
  split; [exact H1|]. split; [vm_compute; reflexivity|].
  exact (load_bluesky_auth_service _ _ _ _ H1).
Defined.

(** A PNG of 4000 bytes for a limit of 1000: the PNG made has 5000 bytes,
    the JPEG made next has 900. *)
Lemma prepared_image_fits_witness :
  let image_path := lit "Rin_Covers/alpha.png" in
  let made := lit "/tmp/tmpq3x7.jpg" in
  let run := _prepare_image_for_upload image_path 1000 image_files in
  run = (Returns made (Some made), snd (fst run), snd run)
  ∧ (∃ content, snd (fst run) !! made = Some content
                ∧ (Z.of_nat (length content) ≤ 1000)%Z)
  ∧ ((Some made = None ∧ made = image_path ∧ snd (fst run) = image_files
      ∧ snd run = [])
     ∨ (Some made = Some made
        ∧ (∃ image, image_files !! image_path = Some image
                    ∧ (1000 < Z.of_nat (length image))%Z)
        ∧ ∃ line, snd run = [line])).
Proof.
  intros image_path made run.
  assert (H1 : run = (Returns made (Some made), snd (fst run), snd run))
    by (vm_compute; reflexivity).
  split; [exact H1|].
  exact (prepared_image_fits _ _ _ _ _ _ _ H1).
Defined.

(** The same image for a limit of 500 bytes: the JPEG of 900 bytes is left
    behind. *)
Lemma failed_preparation_leaves_witness :
  let image_path := lit "Rin_Covers/alpha.png" in
  let msg := lit "Resized image still too large: 0.00 MB > 0.00 MB" in
  let run := _prepare_image_for_upload image_path 500 image_files in
  let made := mkstemp image_files (str_lower (path_suffix image_path)) in
  run = (RuntimeError msg, snd (fst run), snd run)
  ∧ has_prefix (lit "Resized image still too large") msg = true
  ∧ ∃ left_behind content,
      snd (fst run) !! left_behind = Some content
      ∧ (500 < Z.of_nat (length content))%Z
      ∧ (left_behind = made
         ∨ left_behind = path_with_suffix made (lit ".jpg")).
Proof.
  intros image_path msg run made.
  assert (H1 : run = (RuntimeError msg, snd (fst run), snd run))
    by (vm_compute; reflexivity).
  assert (H2 : has_prefix (lit "Resized image still too large") msg = true)
    by (vm_compute; reflexivity).
  split; [exact H1|]. split; [exact H2|].
  destruct (failed_preparation_leaves _ _ _ _ _ _ H1) as (_ & _ & Hlarge).
  exact (Hlarge H2).
Defined.

Lemma unreadable_history_stops_the_run_witness :
  files_unreadable !! Path (a_manifest args_default)
  = Some (dumps (JList [entry_a; entry_b]))
  ∧ json_loads (dumps (JList [entry_a; entry_b]))
    = Some (JList [entry_a; entry_b])
  ∧ files_unreadable !! resolve_history_path args_default files_unreadable
    = Some (lit "[{")
  ∧ json_loads (lit "[{") = None
  ∧ main args_default world_fine (start files_unreadable)
    = (Uncaught ValueError, start files_unreadable).
Proof.
  assert (H1 : files_unreadable !! Path (a_manifest args_default)
               = Some (dumps (JList [entry_a; entry_b])))
    by (vm_compute; reflexivity).
  assert (H2 : json_loads (dumps (JList [entry_a; entry_b]))
               = Some (JList [entry_a; entry_b])) by (vm_compute; reflexivity).
  assert (H3 : files_unreadable
               !! resolve_history_path args_default files_unreadable
               = Some (lit "[{")) by (vm_compute; reflexivity).
  assert (H4 : json_loads (lit "[{") = None) by (vm_compute; reflexivity).
  split; [exact H1|]. split; [exact H2|]. split; [exact H3|].
  split; [exact H4|].
  exact (unreadable_history_stops_the_run _ world_fine _ _ _ _ H1 H2 H3 H4).
Defined.
End FurtherSamples.
